(** * network-device-automation: the executor, the output framer, the
      batch manager and the command executor, embedded from
      [scripts/universal_executor.py], [scripts/batch_manager.py] and
      [scripts/command_executor.py].

    Conventions of the embedding.

    - Python [str] is [string], one character per ASCII code. No character
      outside ASCII lower-cases to a letter of [save] or [force], so the
      tests on [cmd.lower()] are exact for any text; the prompt pattern is
      modelled for ASCII text.
    - A [dict] whose iteration order is observed (the variable bindings) is
      an insertion-ordered association list.
    - [time.time()] and [time.sleep] go through an injected clock that counts
      milliseconds in [Z].
    - An exception (a subclass of [Exception]) is the [Raise] case of
      [Outcome]. [self.log] and the experience log of the executor only
      print and are left out. The rich console of the batch manager and of
      the command executor is part of the world: each of its calls can
      raise, and is a call of [Rich.render].
    - Tasks and steps are well-typed: a field holds a value of the type the
      code expects or is absent. An entry of the device list is a mapping
      or a value of another type. *)

From Stdlib Require Import String Ascii List ZArith Lia Bool Arith Permutation.
From Stdlib Require DecimalString.
Import ListNotations.

Set Warnings "-register-all".

Local Open Scope string_scope.
Local Open Scope list_scope.

(* ===================================================================== *)
(** * Python string operations *)
(* ===================================================================== *)

Module PyStr.

(** [s.startswith(p)] *)
Fixpoint startswith (p s : string) : bool :=
  match p, s with
  | EmptyString, _ => true
  | String _ _, EmptyString => false
  | String a p', String b s' => Ascii.eqb a b && startswith p' s'
  end.

(** [p in s] *)
Fixpoint contains (p s : string) : bool :=
  startswith p s ||
  match s with
  | EmptyString => false
  | String _ s' => contains p s'
  end.

(** [c.lower()] on one ASCII character *)
Definition lower_ascii (c : ascii) : ascii :=
  let n := nat_of_ascii c in
  if (65 <=? n)%nat && (n <=? 90)%nat then ascii_of_nat (n + 32) else c.

(** [s.lower()] *)
Fixpoint lower (s : string) : string :=
  match s with
  | EmptyString => EmptyString
  | String c s' => String (lower_ascii c) (lower s')
  end.

(** The scan of [s.replace(old, new)] for a non-empty [old]: [skip] counts
    the characters of a match that are still to be dropped. *)
Fixpoint replace_scan (old new : string) (skip : nat) (s : string) : string :=
  match s with
  | EmptyString => EmptyString
  | String c s' =>
      match skip with
      | S k => replace_scan old new k s'
      | O =>
          if startswith old s
          then new ++ replace_scan old new (String.length old - 1) s'
          else String c (replace_scan old new 0 s')
      end
  end.

(** [s.replace("", new)]: [new] goes before every character and at the end. *)
Fixpoint replace_empty (new s : string) : string :=
  match s with
  | EmptyString => new
  | String c s' => new ++ String c (replace_empty new s')
  end.

(** [s.replace(old, new)]: every non-overlapping occurrence, left to right. *)
Definition replace (old new s : string) : string :=
  match old with
  | EmptyString => replace_empty new s
  | String _ _ => replace_scan old new 0 s
  end.

(** [s.count(p)]: the number of non-overlapping occurrences, left to right,
    of a non-empty [p]. *)
Fixpoint count_scan (p : string) (skip : nat) (s : string) : nat :=
  match s with
  | EmptyString => 0
  | String _ s' =>
      match skip with
      | S k => count_scan p k s'
      | O =>
          if startswith p s
          then S (count_scan p (String.length p - 1) s')
          else count_scan p 0 s'
      end
  end.

Definition count (p s : string) : nat := count_scan p 0 s.

(** [list(s)]: iterating a [str] yields its characters as strings. *)
Fixpoint chars (s : string) : list string :=
  match s with
  | EmptyString => []
  | String c s' => String c EmptyString :: chars s'
  end.

(** [len(s) > n] is used on the accumulated output. *)
Definition len (s : string) : Z := Z.of_nat (String.length s).

(** [''.join(l)] *)
Fixpoint join (l : list string) : string :=
  match l with
  | [] => EmptyString
  | s :: l' => s ++ join l'
  end.

End PyStr.

(* ===================================================================== *)
(** * The variable bindings: an insertion-ordered dict *)
(* ===================================================================== *)

Module Dict.

Definition t := list (string * string).

(** [d.get(k)] *)
Fixpoint get (k : string) (d : t) : option string :=
  match d with
  | [] => None
  | (k', v) :: d' => if String.eqb k k' then Some v else get k d'
  end.

(** [d[k] = v]: an existing key keeps its place, a new one goes last. *)
Fixpoint set (k v : string) (d : t) : t :=
  match d with
  | [] => [(k, v)]
  | (k', v') :: d' =>
      if String.eqb k k' then (k', v) :: d' else (k', v') :: set k v d'
  end.

End Dict.

(* ===================================================================== *)
(** * Variable substitution: [_resolve_variables], [_resolve_variable],
      [_evaluate_condition] *)
(* ===================================================================== *)

(** The placeholder text [{{key}}] built by the f-string. *)
Definition placeholder (key : string) : string := "{{" ++ key ++ "}}".

(** [_resolve_variables]: one [str.replace] per binding, in dict order, each
    on the text the previous one produced. *)
Fixpoint _resolve_variables (text : string) (variables : Dict.t) : string :=
  match variables with
  | [] => text
  | (key, value) :: rest =>
      _resolve_variables (PyStr.replace (placeholder key) value text) rest
  end.

(** The values [_resolve_variable] is applied to: the [items] of a loop are
    a list of strings or one string. *)
Inductive LoopItems : Type :=
| ItemsList (l : list string)
| ItemsStr (s : string).

(** [_resolve_variable] followed by the iteration [for item in items]: a
    list gives its resolved elements, a string gives the characters of the
    resolved string. *)
Definition _resolve_variable (value : LoopItems) (variables : Dict.t)
  : list string :=
  match value with
  | ItemsStr s => PyStr.chars (_resolve_variables s variables)
  | ItemsList l => map (fun v => _resolve_variables v variables) l
  end.

(** A condition dict: the keys [equals] and [exists], either may be absent. *)
Record Condition : Type := mkCondition {
  cond_equals : option (string * string);
  cond_exists : option string
}.

(** [_evaluate_condition], as the truth value the caller tests. *)
Definition _evaluate_condition (condition : Condition) (variables : Dict.t)
  : bool :=
  match cond_equals condition with
  | Some (l, r) =>
      String.eqb (_resolve_variables l variables)
                 (_resolve_variables r variables)
  | None =>
      match cond_exists condition with
      | Some var_name =>
          match Dict.get var_name variables with
          | Some v => negb (String.eqb v "")
          | None => false
          end
      | None => true
      end
  end.

(* ===================================================================== *)
(** * Outcomes and the executor's monad *)
(* ===================================================================== *)

(** What a call produces: a value, or an exception with its [str(e)]. *)
Inductive Outcome (A : Type) : Type :=
| Ok (a : A)
| Raise (msg : string).

Arguments Ok {A} a.
Arguments Raise {A} msg.

(** What the executor needs from its surroundings. [W] is the state of the
    world outside the program: the device, the SSH transport, the console.

    - [shell], [connection]: whether [self.shell], [self.connection] are set;
      [connect] sets them and nothing changes them while commands run.
    - [shell_send]: [self.shell.send].
    - [framed_output]: the call [self._handle_pagination(self.shell, timeout)]
      as [execute_command] sees it; its loop is modelled in [Framer].
    - [exec_command]: [self.connection.exec_command] followed by the two
      [read().decode()], giving [stdout] and [stderr].
    - [input]: the console prompt of the confirmation gate. *)
Class Session (W : Type) : Type := {
  shell : bool;
  connection : bool;
  shell_send : string -> W -> Outcome unit * W;
  framed_output : Z -> W -> Outcome string * W;
  exec_command : string -> Z -> W -> Outcome (string * string) * W;
  input : W -> Outcome string * W
}.

(** The per-command record [{command, success, output, error}]. *)
Record CommandResult : Type := mkCommandResult {
  cr_command : string;
  cr_success : bool;
  cr_output : string;
  cr_error : option string
}.

(** Ghost events, kept only to state what was run and in which order. *)
Inductive Event : Type :=
| EvDispatch (command : string)
    (** [execute_command] was called with this text *)
| EvNestedBegin (bindings : Dict.t)
    (** [_execute_commands_in_step] was entered with these bindings *)
| EvNestedEnd (success : bool)
    (** [_execute_commands_in_step] returned this [success] *).

(** The state a task runs in: the world, the task's one shared [variables]
    dict, and the ghost log. *)
Record St (W : Type) : Type := mkSt {
  world : W;
  vars : Dict.t;
  log : list Event
}.

Arguments mkSt {W} world vars log.
Arguments world {W} s.
Arguments vars {W} s.
Arguments log {W} s.

Definition M (W A : Type) : Type := St W -> Outcome A * St W.

Definition ret {W A} (a : A) : M W A := fun s => (Ok a, s).

Definition bind {W A B} (m : M W A) (k : A -> M W B) : M W B :=
  fun s =>
    match m s with
    | (Ok a, s') => k a s'
    | (Raise e, s') => (Raise e, s')
    end.

(** [try: m  except Exception as e: h(str(e))] *)
Definition try_except {W A} (m : M W A) (h : string -> M W A) : M W A :=
  fun s =>
    match m s with
    | (Ok a, s') => (Ok a, s')
    | (Raise e, s') => h e s'
    end.

(** A call into the world. *)
Definition call {W A} (f : W -> Outcome A * W) : M W A :=
  fun s => let (r, w) := f (world s) in (r, mkSt w (vars s) (log s)).

Definition emit {W} (e : Event) : M W unit :=
  fun s => (Ok tt, mkSt (world s) (vars s) (log s ++ [e])).

Definition get_vars {W} : M W Dict.t := fun s => (Ok (vars s), s).

(** [variables[k] = v] *)
Definition set_var {W} (k v : string) : M W unit :=
  fun s => (Ok tt, mkSt (world s) (Dict.set k v (vars s)) (log s)).

Declare Scope exec_scope.
Delimit Scope exec_scope with exec.
Notation "x <- m ;; k" := (bind m (fun x => k))
  (at level 100, m at next level, right associativity) : exec_scope.
Notation "m ;;; k" := (bind m (fun _ => k))
  (at level 100, right associativity) : exec_scope.

(** [d.get(key, default)] on an optional field. *)
Definition get_or {A} (default : A) (o : option A) : A :=
  match o with Some a => a | None => default end.

(* ===================================================================== *)
(** * Tasks and steps *)
(* ===================================================================== *)

Record LoopConfig : Type := mkLoopConfig {
  items : option LoopItems;
  item_var : option string
}.

(** A step dict. A field is [None] when its key is absent. *)
Inductive Step : Type := mkStep {
  commands : option (list string);
  condition : option Condition;
  loop : option LoopConfig;
  rollback : option (list Step);
  timeout : option Z;
  stop_on_error : option bool;
  confirm : option bool
}.

Record Task : Type := mkTask {
  name : option string;
  variables : option Dict.t;
  steps : option (list Step)
}.

(** The dict [_execute_step] returns: [{success, output}] with [skipped]
    when the condition was false, or [{success, results}] from
    [_execute_commands_in_step]. *)
Record StepResult : Type := mkStepResult {
  sr_success : bool;
  sr_output : option string;
  sr_skipped : option bool;
  sr_results : option (list CommandResult)
}.

(** The dict [execute_task] returns. *)
Record TaskResult : Type := mkTaskResult {
  task_name : string;
  success : bool;
  steps_completed : nat;
  steps_total : nat;
  results : list StepResult;
  error : option string
}.

(* ===================================================================== *)
(** * The executor: [execute_command], [execute_commands], [execute_task] *)
(* ===================================================================== *)

Definition newline : string := String (ascii_of_nat 10) EmptyString.

Section Executor.

Context {W : Type} {session : Session W}.

Local Open Scope exec_scope.

(** [execute_command(command, timeout)], with [use_shell] left to its
    default: shell mode when there is a shell, else exec mode when there is
    a connection, else nothing is sent and [success] stays [False]. *)
Definition execute_command (command : string) (timeout : Z)
  : M W CommandResult :=
  emit (EvDispatch command) ;;;
  try_except
    (if shell then
       call (shell_send (command ++ newline)) ;;;
       output <- call (framed_output timeout) ;;
       ret (mkCommandResult command true output None)
     else if connection then
       r <- call (exec_command command timeout) ;;
       let (output, err) := (r : string * string) in
       ret (mkCommandResult command true output
              (if String.eqb err "" then None else Some err))
     else ret (mkCommandResult command false "" None))
    (fun e => ret (mkCommandResult command false "" (Some e))).

(** The rewrite at the head of the loop of [execute_commands]. *)
Definition auto_save (cmd : string) : string :=
  if PyStr.contains "save" (PyStr.lower cmd)
     && negb (PyStr.contains "force" (PyStr.lower cmd))
  then "save force" else cmd.

(** The [for] loop of [execute_commands]. *)
Fixpoint dispatch_each (cmds : list string) (timeout : Z)
    (stop_on_error : bool) : M W (list CommandResult) :=
  match cmds with
  | [] => ret []
  | cmd :: rest =>
      result <- execute_command (auto_save cmd) timeout ;;
      if negb (cr_success result) && stop_on_error then ret [result]
      else
        later <- dispatch_each rest timeout stop_on_error ;;
        ret (result :: later)
  end.

(** [response.lower() in ['yes', 'y']] *)
Definition is_yes (response : string) : bool :=
  let r := PyStr.lower response in String.eqb r "yes" || String.eqb r "y".

Definition execute_commands (cmds : list string) (timeout : Z)
    (stop_on_error save_config confirm : bool) : M W (list CommandResult) :=
  go <- (if confirm then response <- call input ;; ret (is_yes response)
         else ret true) ;;
  if go then
    results <- dispatch_each cmds timeout stop_on_error ;;
    (if save_config then execute_command "save force" 60 ;;; ret tt
     else ret tt) ;;;
    ret results
  else ret [].

(** [_execute_commands_in_step] *)
Definition _execute_commands_in_step (step : Step) : M W StepResult :=
  variables <- get_vars ;;
  emit (EvNestedBegin variables) ;;;
  let resolved_commands :=
    map (fun cmd => _resolve_variables cmd variables)
        (get_or [] (commands step)) in
  results <- execute_commands resolved_commands
               (get_or 30%Z (timeout step))
               (get_or true (stop_on_error step))
               false
               (get_or false (confirm step)) ;;
  let success := forallb cr_success results in
  emit (EvNestedEnd success) ;;;
  ret (mkStepResult success None None (Some results)).

(** The [for item in items] loop of [_execute_step]. *)
Fixpoint loop_each (step : Step) (var : string) (its : list string)
  : M W StepResult :=
  match its with
  | [] => ret (mkStepResult true (Some "") None None)
  | item :: rest =>
      set_var var item ;;;
      sub_result <- _execute_commands_in_step step ;;
      if negb (sr_success sub_result) then ret sub_result
      else loop_each step var rest
  end.

(** [loop_config.get("item_var", "item")] *)
Definition loop_var (loop_config : LoopConfig) : string :=
  get_or "item" (item_var loop_config).

(** The items the loop goes over:
    [self._resolve_variable(loop_config.get("items", []), variables)]. *)
Definition loop_items (loop_config : LoopConfig) (variables : Dict.t)
  : list string :=
  _resolve_variable (get_or (ItemsList []) (items loop_config)) variables.

(** [_execute_step] *)
Definition _execute_step (step : Step) : M W StepResult :=
  variables <- get_vars ;;
  let skip :=
    match condition step with
    | Some c => negb (_evaluate_condition c variables)
    | None => false
    end in
  if skip then ret (mkStepResult true (Some "") (Some true) None)
  else
    match loop step with
    | Some loop_config =>
        loop_each step (loop_var loop_config)
                  (loop_items loop_config variables)
    | None => _execute_commands_in_step step
    end.

(** The body of the [for] of [_execute_rollback], on the reversed list. *)
Fixpoint run_each (rollback_steps : list Step) : M W unit :=
  match rollback_steps with
  | [] => ret tt
  | step :: rest => _execute_step step ;;; run_each rest
  end.

(** [_execute_rollback] *)
Definition _execute_rollback (rollback_steps : list Step) : M W unit :=
  run_each (rev rollback_steps).

Definition add_result (result : TaskResult) (r : StepResult) : TaskResult :=
  mkTaskResult (task_name result) (success result) (steps_completed result)
    (steps_total result) (results result ++ [r]) (error result).

Definition count_step (result : TaskResult) : TaskResult :=
  mkTaskResult (task_name result) (success result)
    (S (steps_completed result)) (steps_total result) (results result)
    (error result).

(** The [for step in steps] loop of [execute_task]. [result] is filled in
    as the loop goes; an exception leaves it as it is at that point and is
    returned beside it. *)
Fixpoint run_steps (todo : list Step) (result : TaskResult) (s : St W)
  : TaskResult * option string * St W :=
  match todo with
  | [] => (result, None, s)
  | step :: rest =>
      match _execute_step step s with
      | (Raise e, s1) => (result, Some e, s1)
      | (Ok step_result, s1) =>
          let result1 := add_result result step_result in
          if negb (sr_success step_result) then
            match rollback step with
            | Some rb =>
                match _execute_rollback rb s1 with
                | (Raise e, s2) => (result1, Some e, s2)
                | (Ok _, s2) => (result1, None, s2)
                end
            | None => (result1, None, s1)
            end
          else run_steps rest (count_step result1) s1
      end
  end.

(** The [result] dict as [execute_task] first builds it. *)
Definition initial_result (task : Task) : TaskResult :=
  mkTaskResult (get_or "Unnamed Task" (name task)) false 0
               (length (get_or [] (steps task))) [] None.

(** The state a task starts in: world [w], the task's own [variables] dict,
    an empty ghost log. *)
Definition initial_state (task : Task) (w : W) : St W :=
  mkSt w (get_or [] (variables task)) [].

(** [execute_task], started in world [w]. The final state holds the task's
    [variables] dict as the run left it. *)
Definition execute_task (task : Task) (w : W) : TaskResult * St W :=
  match run_steps (get_or [] (steps task)) (initial_result task)
                  (initial_state task w) with
  | (r, None, s) =>
      (mkTaskResult (task_name r)
         (Nat.eqb (steps_completed r) (steps_total r))
         (steps_completed r) (steps_total r) (results r) (error r), s)
  | (r, Some e, s) =>
      (mkTaskResult (task_name r) (success r) (steps_completed r)
         (steps_total r) (results r) (Some e), s)
  end.

(** The steps [done] all complete, one after the other, from state [s],
    with the results [rs], and leave the state [s']. *)
Inductive Completes : list Step -> St W -> list StepResult -> St W -> Prop :=
| Completes_nil (s : St W) : Completes [] s [] s
| Completes_cons (step : Step) (done : list Step) (s s1 s2 : St W)
    (r : StepResult) (rs : list StepResult) :
    _execute_step step s = (Ok r, s1) ->
    sr_success r = true ->
    Completes done s1 rs s2 ->
    Completes (step :: done) s (r :: rs) s2.

(** [result] after the steps with results [rs] have completed. *)
Definition advance (result : TaskResult) (rs : list StepResult) : TaskResult :=
  mkTaskResult (task_name result) (success result)
    (steps_completed result + length rs) (steps_total result)
    (results result ++ rs) (error result).

End Executor.

(** A laboratory session for worked runs: exec mode only; the world is the
    list of commands the device has received; the device raises on a command
    that contains [bad]; the console answers [yes]. *)
Definition lab_session : Session (list string) := {|
  shell := false;
  connection := true;
  shell_send := fun _ w => (Ok tt, w);
  framed_output := fun _ w => (Ok "", w);
  exec_command := fun cmd _ w =>
    if PyStr.contains "bad" cmd then (Raise "rejected", w ++ [cmd])
    else (Ok ("done", ""), w ++ [cmd]);
  input := fun w => (Ok "yes", w)
|}.

(** The texts [execute_command] was called with, in order. *)
Fixpoint dispatched (l : list Event) : list string :=
  match l with
  | [] => []
  | EvDispatch c :: l' => c :: dispatched l'
  | _ :: l' => dispatched l'
  end.

(** The entries and exits of [_execute_commands_in_step], in order. *)
Fixpoint nested (l : list Event) : list Event :=
  match l with
  | [] => []
  | EvDispatch _ :: l' => nested l'
  | e :: l' => e :: nested l'
  end.

(** A plain command step with nothing but [commands] and [rollback]. *)
Definition command_step (cmds : list string) (rb : option (list Step))
  : Step :=
  mkStep (Some cmds) None None rb None None None.

(** The ghost events of one run of the nested command of a loop, with the
    loop variable [var] bound to [x] over the bindings [base]. *)
Definition iteration (var : string) (base : Dict.t) (ok : bool) (x : string)
  : list Event :=
  [EvNestedBegin (Dict.set var x base); EvNestedEnd ok].

(** Two steps that differ at most in their [rollback] list. *)
Definition same_but_rollback (a b : Step) : Prop :=
  commands a = commands b /\ condition a = condition b /\ loop a = loop b
  /\ timeout a = timeout b /\ stop_on_error a = stop_on_error b
  /\ confirm a = confirm b.

(** The step is not skipped: it has no condition, or its condition holds. *)
Definition runs_under (step : Step) (variables : Dict.t) : Prop :=
  match condition step with
  | Some c => _evaluate_condition c variables = true
  | None => True
  end.

(* ===================================================================== *)
(** * Templates: what the specification says substitution does *)
(* ===================================================================== *)

Module Template.

(** A template read as the specification reads it: literal text and
    placeholders [{{name}}]. *)
Inductive Segment : Type :=
| Lit (text : string)
| Hole (name : string).

(** The template's text. *)
Fixpoint raw (t : list Segment) : string :=
  match t with
  | [] => EmptyString
  | Lit s :: t' => s ++ raw t'
  | Hole n :: t' => placeholder n ++ raw t'
  end.

(** Substitution as the specification words it: each placeholder of a bound
    name becomes the bound value, each placeholder of an unbound name stays
    as it is. *)
Fixpoint substitute (variables : Dict.t) (t : list Segment) : string :=
  match t with
  | [] => EmptyString
  | Lit s :: t' => s ++ substitute variables t'
  | Hole n :: t' =>
      match Dict.get n variables with
      | Some v => v ++ substitute variables t'
      | None => placeholder n ++ substitute variables t'
      end
  end.

Definition is_brace (c : ascii) : bool :=
  Ascii.eqb c "{"%char || Ascii.eqb c "}"%char.

(** No brace occurs in [s]. *)
Fixpoint plain (s : string) : bool :=
  match s with
  | EmptyString => true
  | String c s' => negb (is_brace c) && plain s'
  end.

(** Braces occur in the template only as the delimiters of placeholders. *)
Definition well_formed (t : list Segment) : bool :=
  forallb (fun seg => match seg with Lit s => plain s | Hole n => plain n end)
          t.

(** Names and values of the bindings hold no brace. *)
Definition plain_bindings (variables : Dict.t) : bool :=
  forallb (fun kv => plain (fst kv) && plain (snd kv)) variables.

Definition plain_names (variables : Dict.t) : bool :=
  forallb (fun kv => plain (fst kv)) variables.

(** One binding applied to a parsed template. *)
Definition fill (k v : string) (t : list Segment) : list Segment :=
  map (fun seg =>
         match seg with
         | Hole n => if String.eqb n k then Lit v else Hole n
         | Lit s => Lit s
         end) t.

End Template.

(* ===================================================================== *)
(** * The output framer: [_handle_pagination] *)
(* ===================================================================== *)

Module Framer.

(** The shell channel and the clock, as the loop uses them. Times are in
    milliseconds.

    - [now]: [time.time()]
    - [sleep d]: [time.sleep(d / 1000)]
    - [recv_ready]: [shell.recv_ready()]
    - [recv]: [shell.recv(65535).decode('utf-8', errors='ignore')]
    - [send]: [shell.send] *)
Class Channel (E : Type) : Type := {
  now : E -> Z;
  sleep : Z -> E -> E;
  recv_ready : E -> bool;
  recv : E -> string * E;
  send : string -> E -> E
}.

(** The clock does not run backwards, and a sleep lasts at least as long as
    asked. *)
Class ClockLaws (E : Type) {channel : Channel E} : Prop := {
  sleep_advances : forall d e, (0 <= d)%Z -> (now e + d <= now (sleep d e))%Z;
  recv_monotone : forall e, (now e <= now (snd (recv e)))%Z;
  send_monotone : forall k e, (now e <= now (send k e))%Z
}.

(** A clock that only sleeps move, by exactly the time asked. *)
Class ExactClock (E : Type) {channel : Channel E} : Prop := {
  sleep_exact : forall d e, now (sleep d e) = (now e + d)%Z;
  recv_instant : forall e, now (snd (recv e)) = now e;
  send_instant : forall k e, now (send k e) = now e
}.

(** Ghost record of the traffic on the channel. *)
Inductive IO : Type :=
| Recv (chunk : string)
| Send (key : string).

Definition more_marker : string := "---- More ----".

(** [\w] on ASCII *)
Definition is_word (c : ascii) : bool :=
  let n := nat_of_ascii c in
  ((48 <=? n) && (n <=? 57) || (65 <=? n) && (n <=? 90)
   || (97 <=? n) && (n <=? 122) || (n =? 95))%nat.

(** [\s] on ASCII *)
Definition is_space (c : ascii) : bool :=
  let n := nat_of_ascii c in
  ((9 <=? n) && (n <=? 13) || (28 <=? n) && (n <=? 32))%nat.

(** [\w+>] at the head of [s]; [seen] tells that a word character has been
    taken. *)
Fixpoint word_run_gt (seen : bool) (s : string) : bool :=
  match s with
  | EmptyString => false
  | String c s' =>
      if is_word c then word_run_gt true s'
      else seen && Ascii.eqb c ">"%char
  end.

(** [\S+\]] at the head of [s], with backtracking over the run. *)
Fixpoint nonspace_run_rb (seen : bool) (s : string) : bool :=
  match s with
  | EmptyString => false
  | String c s' =>
      if is_space c then false
      else (seen && Ascii.eqb c "]"%char) || nonspace_run_rb true s'
  end.

(** [re.search(r'<\w+>|\[\S+\]', chunk)] *)
Fixpoint prompt_search (chunk : string) : bool :=
  match chunk with
  | EmptyString => false
  | String c s' =>
      (Ascii.eqb c "<"%char && word_run_gt false s')
      || (Ascii.eqb c "["%char && nonspace_run_rb false s')
      || prompt_search s'
  end.

Section Loop.

Context {E : Type} {channel : Channel E}.

Local Open Scope Z_scope.

(** The [while] loop of [_handle_pagination]; [None] when [fuel] iterations
    were not enough. It returns the output, the ghost trace and the channel. *)
Fixpoint read_loop (fuel : nat) (timeout start_time last_data_time : Z)
    (output : string) (trace : list IO) (e : E)
  : option (string * list IO * E) :=
  match fuel with
  | O => None
  | S fuel' =>
      let idle_check (last : Z) (out : string) (tr : list IO) (e' : E) :=
        if (3000 <? now e' - last) && (50 <? PyStr.len out)
        then Some (out, tr, e')
        else read_loop fuel' timeout start_time last out tr (sleep 200 e') in
      if now e - start_time <? 1000 * timeout then
        if recv_ready e then
          let (chunk, e1) := recv e in
          let output1 := (output ++ chunk)%string in
          let last1 := now e1 in
          let trace1 := (trace ++ [Recv chunk])%list in
          if PyStr.contains more_marker chunk then
            read_loop fuel' timeout start_time last1 output1
                      (trace1 ++ [Send " "])%list
                      (sleep 300 (send " " e1))
          else if prompt_search chunk && (50 <? PyStr.len output1) then
            let e2 := sleep 500 e1 in
            if negb (recv_ready e2) then Some (output1, trace1, e2)
            else idle_check last1 output1 trace1 e2
          else idle_check last1 output1 trace1 e1
        else idle_check last_data_time output trace e
      else Some (output, trace, e)
  end.

(** Iterations that are always enough for a timeout of [timeout] seconds:
    every iteration that goes on sleeps at least 200 ms. *)
Definition enough (timeout : Z) : nat := S (Z.to_nat (5 * timeout)).

(** [_handle_pagination(shell, timeout)] *)
Definition _handle_pagination (timeout : Z) (e : E)
  : option (string * list IO * E) :=
  read_loop (enough timeout) timeout (now e) (now e) "" [] e.

End Loop.

(** The chunks read, in order. *)
Fixpoint chunks (tr : list IO) : list string :=
  match tr with
  | [] => []
  | Recv c :: tr' => c :: chunks tr'
  | Send _ :: tr' => chunks tr'
  end.

(** The keys sent, in order. *)
Fixpoint keys (tr : list IO) : list string :=
  match tr with
  | [] => []
  | Send k :: tr' => k :: keys tr'
  | Recv _ :: tr' => keys tr'
  end.

(** The traffic that goes with the chunks [cs]: each chunk is read, and a
    chunk in which the marker appears is answered by one space. *)
Definition exchange (cs : list string) : list IO :=
  flat_map (fun c => if PyStr.contains more_marker c
                     then [Recv c; Send " "] else [Recv c]) cs.

(** A scripted device: every chunk has the time from which it can be read;
    chunks are read in order. *)
Record Scripted : Type := mkScripted {
  clock : Z;
  inbound : list (Z * string);
  sent : list string
}.

#[global] Instance scripted_channel : Channel Scripted := {|
  now := clock;
  sleep := fun d e => mkScripted (clock e + d) (inbound e) (sent e);
  recv_ready := fun e =>
    match inbound e with
    | [] => false
    | (t, _) :: _ => (t <=? clock e)%Z
    end;
  recv := fun e =>
    match inbound e with
    | [] => (EmptyString, e)
    | (_, c) :: rest => (c, mkScripted (clock e) rest (sent e))
    end;
  send := fun k e => mkScripted (clock e) (inbound e) (sent e ++ [k])
|}.

(** A reply that shows the marker twice, ends in a prompt and comes as one
    chunk; the same reply with its marker cut in two by the transport; and a
    reply paged the usual way. *)
Definition two_markers : string :=
  "VLAN 1 up ---- More ---- VLAN 2 up ---- More ---- VLAN 3 up <H3C>".

Definition one_chunk_device : Scripted := mkScripted 0 [(0%Z, two_markers)] [].

Definition cut_head : string :=
  "VLAN 1 up VLAN 2 up VLAN 3 up VLAN 4 up VLAN 5 up ---- Mo".

Definition cut_tail : string := "re ---- VLAN 6 up <H3C>".

Definition cut_device : Scripted :=
  mkScripted 0 [(0%Z, cut_head); (0%Z, cut_tail)] [].

Definition page_one : string :=
  "VLAN 1 up VLAN 2 up VLAN 3 up VLAN 4 up ---- More ----".

Definition page_two : string := "VLAN 5 up <H3C>".

Definition paged_device : Scripted :=
  mkScripted 0 [(0%Z, page_one); (400%Z, page_two)] [].

Definition silent_device : Scripted := mkScripted 0 [] [].

End Framer.

(* ===================================================================== *)
(** * The console: rich's [Console], [Panel], [Table] and [Progress] *)
(* ===================================================================== *)

Module Rich.

Local Open Scope string_scope.

(** What the batch manager and the command executor hand to the console. *)
Inductive Output : Type :=
| Markup (text : string)
    (** [console.print(text)] *)
| Panel (text : string)
    (** [console.print(Panel(text))] *)
| Table (header : list string) (rows : list (list string))
    (** [console.print(table)]; the cells are markup *)
| ProgressStart
    (** entering [with Progress() as progress] *)
| ProgressTask (description : string)
    (** [progress.add_task(description, total=...)] *)
| ProgressAdvance
    (** [progress.update(task, advance=1)] *)
| ProgressStop
    (** leaving the [with Progress()] block *).

(** The console acts on the world and can raise: rich renders each text as
    console markup and raises [MarkupError] on a closing tag that matches no
    open tag; the terminal can fail as well. *)
Class Console (W : Type) : Type := {
  render : Output -> W -> Outcome unit * W
}.

(** [console.print(text)] *)
Definition console_print {W : Type} {console : Console W} (text : string)
  : W -> Outcome unit * W :=
  render (Markup text).

(** One [console.print] after the other. *)
Fixpoint print_each {W : Type} {console : Console W} (texts : list string)
    (w : W) : Outcome unit * W :=
  match texts with
  | [] => (Ok tt, w)
  | text :: rest =>
      match console_print text w with
      | (Ok _, w1) => print_each rest w1
      | (Raise e, w1) => (Raise e, w1)
      end
  end.

(** A console that renders whatever it is given. *)
Definition quiet {W : Type} (console : Console W) : Prop :=
  forall o w, exists w', render o w = (Ok tt, w').

(** [str(n)] *)
Definition str_nat (n : nat) : string :=
  DecimalString.NilZero.string_of_uint (Nat.to_uint n).

(** [text[:n]] *)
Fixpoint take (n : nat) (text : string) : string :=
  match n, text with
  | S n', String c text' => String c (take n' text')
  | _, _ => EmptyString
  end.

(** The texts of an output that are rendered as markup. *)
Definition texts_of (o : Output) : list string :=
  match o with
  | Markup text => [text]
  | Panel text => [text]
  | Table header rows => (header ++ concat rows)%list
  | ProgressTask description => [description]
  | _ => []
  end.

(** Two consoles for worked runs, on any world. The first renders whatever
    it is given. The second refuses, as rich does, a text that holds the
    closing tag [[/x]], which none of the program's own markup opens; the
    text of its exception is rich's, without the position. *)
Definition plain_console {W : Type} : Console W := {|
  render := fun _ w => (Ok tt, w)
|}.

Definition strict_console {W : Type} : Console W := {|
  render := fun o w =>
    if existsb (PyStr.contains "[/x]") (texts_of o)
    then (Raise "closing tag '[/x]' doesn't match any open tag", w)
    else (Ok tt, w)
|}.

End Rich.

(* ===================================================================== *)
(** * The batch manager: [connect_device], [execute_on_device],
      [batch_execute], [_display_summary] *)
(* ===================================================================== *)

Module Batch.

Local Open Scope string_scope.

(** A device of the inventory. Only [host] is read by the manager itself;
    the other keys go to the SSH library unread. *)
Record DeviceInfo : Type := mkDeviceInfo {
  host : option string;
  device_type : option string
}.

(** An entry of [self.devices] as [yaml.safe_load] gives it: a mapping, or a
    value of another type ([str], [int], [list], [NoneType]), of which only
    the name of the type matters. *)
Inductive Device : Type :=
| Mapping (device_info : DeviceInfo)
| Other (type_name : string).

(** The SSH library, the operation and the clock, acting on the world [W].
    [elapsed w0 w1] is the text of [f'{duration:.2f}'] for a run that began
    in [w0] and ended in [w1], the two reads of [time.time()]. *)
Class Network (W Conn Data : Type) : Type := {
  ConnectHandler : string -> DeviceInfo -> W -> Outcome Conn * W;
  operation : Conn -> W -> Outcome Data * W;
  disconnect : Conn -> W -> Outcome unit * W;
  elapsed : W -> W -> string
}.

(** The per-device record [{host, operation, status, message, data}]. *)
Record Result (Data : Type) : Type := mkResult {
  r_host : string;
  r_operation : string;
  status : string;
  message : string;
  data : option Data
}.

Arguments mkResult {Data} r_host r_operation status message data.
Arguments r_host {Data} r.
Arguments r_operation {Data} r.
Arguments status {Data} r.
Arguments message {Data} r.
Arguments data {Data} r.

(** [device_info.get('host', 'unknown')] *)
Definition label (device_info : DeviceInfo) : string :=
  get_or "unknown" (host device_info).

(** The host a record of this entry carries. *)
Definition host_of (device : Device) : string :=
  match device with
  | Mapping device_info => label device_info
  | Other _ => "unknown"
  end.

Definition is_mapping (device : Device) : bool :=
  match device with Mapping _ => true | Other _ => false end.

(** [sum(1 for r in self.results if r['status'] == 'success')] *)
Definition success_count {Data} (rs : list (Result Data)) : nat :=
  length (filter (fun r => String.eqb (status r) "success") rs).

(** [sum(1 for r in self.results if r['status'] in ['failed', 'error'])] *)
Definition failed_count {Data} (rs : list (Result Data)) : nat :=
  length (filter (fun r => String.eqb (status r) "failed"
                           || String.eqb (status r) "error") rs).

(** [len(self.results)] *)
Definition total {Data} (rs : list (Result Data)) : nat := length rs.

(** The status is one of the three the manager writes. *)
Definition known_status {Data} (r : Result Data) : Prop :=
  In (status r) ["success"; "failed"; "error"].

(** The colour of a status in the table of the summary. *)
Definition status_color (st : string) : string :=
  if String.eqb st "success" then "green"
  else if String.eqb st "failed" then "red" else "yellow".

(** A row of the table: host, coloured status, [message[:50]]. *)
Definition summary_row {Data} (r : Result Data) : list string :=
  [r_host r;
   "[" ++ status_color (status r) ++ "]" ++ status r
   ++ "[/" ++ status_color (status r) ++ "]";
   Rich.take 50 (message r)].

Section Manager.

Context {W Conn Data : Type} {network : Network W Conn Data}
        {console : Rich.Console W}.

(** [connect_device]: [None] when the library raises, once the failure is
    on the console; when the console raises there, the exception leaves
    [connect_device]. A device without [host] raises [KeyError] in the [try]
    and again in the handler, which prints the host. *)
Definition connect_device (device_info : DeviceInfo) (w : W)
  : Outcome (option Conn) * W :=
  match host device_info with
  | None => (Raise "'host'", w)
  | Some h =>
      match ConnectHandler h device_info w with
      | (Ok c, w1) => (Ok (Some c), w1)
      | (Raise e, w1) =>
          match Rich.console_print
                  ("[red]连接失败 " ++ h ++ ": " ++ e ++ "[/red]") w1 with
          | (Ok _, w2) => (Ok None, w2)
          | (Raise e', w2) => (Raise e', w2)
          end
      end
  end.

(** The [try] block of [execute_on_device] up to the disconnect: the record
    of a refused connection (the early [return result]), or the output of
    the operation. *)
Definition attempt (device_info : DeviceInfo) (operation_name : string)
    (w : W) : Outcome (Result Data + Data) * W :=
  let h := label device_info in
  match Rich.console_print ("[cyan]连接到 " ++ h ++ "...[/cyan]") w with
  | (Raise e, w1) => (Raise e, w1)
  | (Ok _, w1) =>
      match connect_device device_info w1 with
      | (Raise e, w2) => (Raise e, w2)
      | (Ok None, w2) =>
          (Ok (inl (mkResult h operation_name "failed" "连接失败" None)), w2)
      | (Ok (Some c), w2) =>
          match Rich.console_print
                  ("[green]✓ 已连接，执行" ++ operation_name ++ "...[/green]")
                  w2 with
          | (Raise e, w3) => (Raise e, w3)
          | (Ok _, w3) =>
              match operation c w3 with
              | (Raise e, w4) => (Raise e, w4)
              | (Ok output, w4) =>
                  match disconnect c w4 with
                  | (Raise e, w5) => (Raise e, w5)
                  | (Ok _, w5) => (Ok (inr output), w5)
                  end
              end
          end
      end
  end.

(** The [except Exception as e] block of [execute_on_device]: the record
    takes the status [error] and the text of the exception, and the failure
    goes to the console. When the console raises there, the exception leaves
    [execute_on_device]. [output] is what [result['data']] holds by then. *)
Definition on_exception (h operation_name : string) (output : option Data)
    (e : string) (w : W) : Outcome (Result Data) * W :=
  match Rich.console_print
          ("[red]✗ " ++ h ++ " 执行失败: " ++ e ++ "[/red]") w with
  | (Ok _, w1) => (Ok (mkResult h operation_name "error" e output), w1)
  | (Raise e', w1) => (Raise e', w1)
  end.

(** [execute_on_device]. [device_info.get] stands before the [try]: an entry
    that is no mapping raises [AttributeError] to the caller. *)
Definition execute_on_device (device : Device) (operation_name : string)
    (w : W) : Outcome (Result Data) * W :=
  match device with
  | Other type_name =>
      (Raise ("'" ++ type_name ++ "' object has no attribute 'get'"), w)
  | Mapping device_info =>
      let h := label device_info in
      match attempt device_info operation_name w with
      | (Raise e, w1) => on_exception h operation_name None e w1
      | (Ok (inl r), w1) => (Ok r, w1)
      | (Ok (inr output), w1) =>
          match Rich.console_print
                  ("[green]✓ " ++ h ++ " " ++ operation_name
                   ++ "完成[/green]") w1 with
          | (Ok _, w2) =>
              (Ok (mkResult h operation_name "success"
                     (operation_name ++ "成功") (Some output)), w2)
          | (Raise e, w2) => on_exception h operation_name (Some output) e w2
          end
      end
  end.

(** [_display_summary]; [duration] is the text of [f'{duration:.2f}']. *)
Definition _display_summary (results : list (Result Data))
    (duration : string) (w : W) : Outcome unit * W :=
  match Rich.print_each
          [newline ++ "[bold]执行摘要:[/bold]";
           "  总设备数: " ++ Rich.str_nat (total results);
           "  成功: [green]" ++ Rich.str_nat (success_count results)
           ++ "[/green]";
           "  失败: [red]" ++ Rich.str_nat (failed_count results) ++ "[/red]";
           "  耗时: " ++ duration ++ "秒"] w with
  | (Raise e, w1) => (Raise e, w1)
  | (Ok _, w1) =>
      match results with
      | [] => (Ok tt, w1)
      | _ :: _ =>
          match Rich.console_print newline w1 with
          | (Raise e, w2) => (Raise e, w2)
          | (Ok _, w2) =>
              Rich.render
                (Rich.Table ["设备"; "状态"; "消息"] (map summary_row results))
                w2
          end
      end
  end.

(** The serial branch: one device after the other, each result appended;
    [idx] counts from 1 as [enumerate] does. *)
Fixpoint run_serial (devices : list Device) (idx count : nat)
    (operation_name : string) (w : W) : Outcome (list (Result Data)) * W :=
  match devices with
  | [] => (Ok [], w)
  | device :: rest =>
      match Rich.console_print
              (newline ++ "[dim][" ++ Rich.str_nat idx ++ "/"
               ++ Rich.str_nat count ++ "][/dim]") w with
      | (Raise e, w0) => (Raise e, w0)
      | (Ok _, w0) =>
          match execute_on_device device operation_name w0 with
          | (Raise e, w1) => (Raise e, w1)
          | (Ok r, w1) =>
              match run_serial rest (S idx) count operation_name w1 with
              | (Raise e, w2) => (Raise e, w2)
              | (Ok rs, w2) => (Ok (r :: rs), w2)
              end
          end
      end
  end.

(** The workers that are still to run when the main thread leaves the loop
    on an exception: leaving [with ThreadPoolExecutor] waits for every
    submitted future, and what the workers return or raise is dropped. *)
Fixpoint drain (devices : list Device) (operation_name : string)
    (completion : list nat) (w : W) : W :=
  match completion with
  | [] => w
  | i :: rest =>
      match nth_error devices i with
      | None => drain devices operation_name rest w
      | Some device =>
          drain devices operation_name rest
                (snd (execute_on_device device operation_name w))
      end
  end.

(** The loop over [as_completed]. One future is submitted per device;
    [as_completed] yields each future once, in the order the scheduler
    finishes them. [completion] is that order, as positions in the device
    list, and each worker's run is taken as one step of the world. *)
Fixpoint run_completed (devices : list Device) (operation_name : string)
    (completion : list nat) (w : W) : Outcome (list (Result Data)) * W :=
  match completion with
  | [] => (Ok [], w)
  | i :: rest =>
      match nth_error devices i with
      | None => run_completed devices operation_name rest w
      | Some device =>
          match execute_on_device device operation_name w with
          | (Raise e, w1) => (Raise e, drain devices operation_name rest w1)
          | (Ok r, w1) =>
              match Rich.render Rich.ProgressAdvance w1 with
              | (Raise e, w2) =>
                  (Raise e, drain devices operation_name rest w2)
              | (Ok _, w2) =>
                  match run_completed devices operation_name rest w2 with
                  | (Raise e, w3) => (Raise e, w3)
                  | (Ok rs, w3) => (Ok (r :: rs), w3)
                  end
              end
          end
      end
  end.

(** The parallel branch: [with Progress()] around [with ThreadPoolExecutor],
    whose constructor raises [ValueError] for [max_workers <= 0]. Leaving
    the [Progress] block stops the display whatever the body did; when the
    stop itself raises, that is the exception that goes on. *)
Definition run_parallel (devices : list Device) (operation_name : string)
    (max_workers : Z) (completion : list nat) (w : W)
  : Outcome (list (Result Data)) * W :=
  match Rich.render Rich.ProgressStart w with
  | (Raise e, w1) => (Raise e, w1)
  | (Ok _, w1) =>
      let (r, w2) :=
        match Rich.render
                (Rich.ProgressTask ("[cyan]批量" ++ operation_name ++ "中..."))
                w1 with
        | (Raise e, w') => (Raise e, w')
        | (Ok _, w') =>
            if (max_workers <=? 0)%Z
            then (Raise "max_workers must be greater than 0", w')
            else run_completed devices operation_name completion w'
        end in
      match Rich.render Rich.ProgressStop w2 with
      | (Raise e, w3) => (Raise e, w3)
      | (Ok _, w3) => (r, w3)
      end
  end.

(** The three lines at the head of [batch_execute]. *)
Definition announce (devices : list Device) (operation_name : string)
    (parallel : bool) (w : W) : Outcome unit * W :=
  match Rich.render
          (Rich.Panel ("[bold cyan]批量" ++ operation_name ++ "[/bold cyan]"))
          w with
  | (Raise e, w1) => (Raise e, w1)
  | (Ok _, w1) =>
      Rich.print_each
        ["[dim]设备数量: " ++ Rich.str_nat (length devices) ++ "[/dim]";
         "[dim]执行模式: " ++ (if parallel then "并行" else "串行")
         ++ "[/dim]" ++ newline] w1
  end.

(** [batch_execute] over [self.devices]. *)
Definition batch_execute (devices : list Device)
    (operation_name : string) (parallel : bool) (max_workers : Z)
    (completion : list nat) (w : W) : Outcome (list (Result Data)) * W :=
  match devices with
  | [] =>
      match Rich.console_print
              "[yellow]设备列表为空，请先加载设备清单[/yellow]" w with
      | (Raise e, w1) => (Raise e, w1)
      | (Ok _, w1) => (Ok [], w1)
      end
  | _ :: _ =>
      match announce devices operation_name parallel w with
      | (Raise e, w1) => (Raise e, w1)
      | (Ok _, w1) =>
          match (if parallel
                 then run_parallel devices operation_name max_workers
                                   completion w1
                 else run_serial devices 1 (length devices) operation_name
                                 w1) with
          | (Raise e, w2) => (Raise e, w2)
          | (Ok rs, w2) =>
              match _display_summary rs (elapsed w1 w2) w2 with
              | (Raise e, w3) => (Raise e, w3)
              | (Ok _, w3) => (Ok rs, w3)
              end
          end
      end
  end.

End Manager.

(** A laboratory network: the world counts the connections made; a host
    named [down] refuses the connection; the operation raises on the hosts
    named [flaky] and [tagged], on the second with a text that holds a
    closing tag, and otherwise returns the host's name. *)
Definition lab_network : Network nat string string := {|
  ConnectHandler := fun h _ w =>
    if String.eqb h "down" then (Raise "timed out", w)
    else (Ok h, S w);
  operation := fun c w =>
    if String.eqb c "flaky" then (Raise "socket closed", w)
    else if String.eqb c "tagged" then (Raise "boom [/x]", w)
    else (Ok c, w);
  disconnect := fun _ w => (Ok tt, w);
  elapsed := fun _ _ => "0.00"
|}.

Definition lab_devices : list Device :=
  [Mapping (mkDeviceInfo (Some "core") None);
   Mapping (mkDeviceInfo (Some "down") None);
   Mapping (mkDeviceInfo (Some "flaky") None);
   Mapping (mkDeviceInfo None None)].

(** A device whose operation fails with a text that holds a closing tag,
    between two devices that work. *)
Definition tagged_devices : list Device :=
  [Mapping (mkDeviceInfo (Some "core") None);
   Mapping (mkDeviceInfo (Some "tagged") None);
   Mapping (mkDeviceInfo (Some "edge") None)].

End Batch.

(* ===================================================================== *)
(** * Worked inputs *)
(* ===================================================================== *)

Module Lab.

(** Three steps, each with a rollback list; the third one's command is
    rejected by the laboratory device. *)
Definition vlan10 : Step :=
  command_step ["vlan 10"] (Some [command_step ["undo vlan 10"] None]).

Definition vlan20 : Step :=
  command_step ["vlan 20"] (Some [command_step ["undo vlan 20"] None]).

Definition vlan30 : Step :=
  command_step ["bad vlan 30"]
    (Some [command_step ["undo a"] None; command_step ["undo b"] None]).

Definition rollback_task : Task :=
  mkTask (Some "vlans") None (Some [vlan10; vlan20; vlan30]).

(** The results of the two steps that complete, and the state they leave. *)
Definition vlan_result (cmd : string) : StepResult :=
  mkStepResult true None None
    (Some [mkCommandResult cmd true "done" None]).

Definition after_vlan20 : St (list string) :=
  mkSt ["vlan 10"; "vlan 20"] []
       [EvNestedBegin []; EvDispatch "vlan 10"; EvNestedEnd true;
        EvNestedBegin []; EvDispatch "vlan 20"; EvNestedEnd true].

(** A loop over three items. *)
Definition three_vlans : LoopConfig :=
  mkLoopConfig (Some (ItemsList ["a"; "b"; "c"])) (Some "id").

Definition loop_step : Step :=
  mkStep (Some ["vlan {{id}}"]) None (Some three_vlans) None None None None.

Definition start : St (list string) := mkSt [] [("site", "lab")] [].

(** The scenario of the specification: a first step that always runs, a
    second step under [{equals: ["{{enable}}", "yes"]}], and [enable = no]. *)
Definition enable_is_yes : Condition :=
  mkCondition (Some ("{{enable}}", "yes")) None.

Definition step_interface : Step :=
  command_step ["interface g0/1"; "no shutdown"] None.

Definition step_guarded : Step :=
  mkStep (Some ["description uplink"]) (Some enable_is_yes) None None None
         None None.

Definition guarded_task : Task :=
  mkTask (Some "uplink") (Some [("enable", "no")])
         (Some [step_interface; step_guarded]).

(** The loop step run from [start], and the first step of [guarded_task]
    run from the task's initial state. *)
Definition loop_outcome : Outcome StepResult * St (list string) :=
  Eval vm_compute in _execute_step (session := lab_session) loop_step start.

Definition interface_outcome : Outcome StepResult * St (list string) :=
  Eval vm_compute in
    _execute_step (session := lab_session) step_interface
                  (initial_state guarded_task []).

Definition interface_result : StepResult :=
  mkStepResult true None None
    (Some [mkCommandResult "interface g0/1" true "done" None;
           mkCommandResult "no shutdown" true "done" None]).

(** A template whose value carries a placeholder of a later binding. *)
Definition nested_template : list Template.Segment := [Template.Hole "a"].

Definition nested_bindings : Dict.t := [("a", "{{b}}"); ("b", "x")].

Definition vlan_template : list Template.Segment :=
  [Template.Lit "show vlan "; Template.Hole "id"; Template.Lit " ";
   Template.Hole "missing"].

End Lab.

(* ===================================================================== *)
(** * Device types: [_normalize_device_type] and the mode [connect] takes *)
(* ===================================================================== *)

Module DeviceType.

Definition DEVICE_TYPE_MAP : Dict.t :=
  [("h3c", "hp_comware"); ("hp", "hp_comware"); ("huawei", "huawei");
   ("cisco", "cisco_ios"); ("cisco_ios", "cisco_ios");
   ("cisco_nxos", "cisco_nxos"); ("ruijie", "ruijie_os")].

Definition INVOKE_SHELL_DEVICES : list string :=
  ["h3c"; "hp"; "hp_comware"; "huawei"].

(** [_normalize_device_type]; [None] is a missing type. *)
Definition _normalize_device_type (device_type : option string) : string :=
  match device_type with
  | None => "cisco_ios"
  | Some EmptyString => "cisco_ios"
  | Some dt =>
      let dt_lower := PyStr.lower dt in
      get_or dt_lower (Dict.get dt_lower DEVICE_TYPE_MAP)
  end.

(** The test [normalized_type in self.INVOKE_SHELL_DEVICES] by which
    [connect] opens a shell. *)
Definition invoke_shell (device_type : option string) : bool :=
  existsb (String.eqb (_normalize_device_type device_type))
          INVOKE_SHELL_DEVICES.

End DeviceType.

(* ===================================================================== *)
(** * The command executor of [command_executor.py], which the batch
      operation [command_execute_operation] runs *)
(* ===================================================================== *)

Module CommandExec.

Definition huawei_commands : Dict.t :=
  [("show_version", "display version");
   ("show_running_config", "display current-configuration");
   ("show_startup_config", "display saved-configuration");
   ("show_interfaces", "display interface");
   ("show_interface_status", "display interface brief");
   ("show_ip_route", "display ip routing-table");
   ("show_arp", "display arp");
   ("show_mac_table", "display mac-address");
   ("show_vlan", "display vlan");
   ("show_cpu", "display cpu-usage");
   ("show_memory", "display memory-usage");
   ("show_log", "display logbuffer")].

Definition hp_comware_commands : Dict.t :=
  [("show_version", "display version");
   ("show_running_config", "display current-configuration");
   ("show_startup_config", "display saved-configuration");
   ("show_interfaces", "display interface");
   ("show_interface_status", "display interface brief");
   ("show_ip_route", "display ip routing-table");
   ("show_arp", "display arp");
   ("show_mac_table", "display mac-address");
   ("show_vlan", "display vlan");
   ("show_cpu", "display cpu-usage");
   ("show_memory", "display memory");
   ("show_log", "display logbuffer")].

Definition cisco_ios_commands : Dict.t :=
  [("show_version", "show version");
   ("show_running_config", "show running-config");
   ("show_startup_config", "show startup-config");
   ("show_interfaces", "show interfaces");
   ("show_interface_status", "show ip interface brief");
   ("show_ip_route", "show ip route");
   ("show_arp", "show ip arp");
   ("show_mac_table", "show mac address-table");
   ("show_vlan", "show vlan brief");
   ("show_cpu", "show processes cpu");
   ("show_memory", "show memory statistics");
   ("show_log", "show logging")].

Definition cisco_nxos_commands : Dict.t :=
  [("show_version", "show version");
   ("show_running_config", "show running-config");
   ("show_startup_config", "show startup-config");
   ("show_interfaces", "show interface");
   ("show_interface_status", "show interface brief");
   ("show_ip_route", "show ip route");
   ("show_arp", "show ip arp");
   ("show_mac_table", "show mac address-table");
   ("show_vlan", "show vlan");
   ("show_cpu", "show processes cpu");
   ("show_memory", "show system resources");
   ("show_log", "show logging last 100")].

Definition ruijie_os_commands : Dict.t :=
  [("show_version", "show version");
   ("show_running_config", "show running-config");
   ("show_startup_config", "show startup-config");
   ("show_interfaces", "show interface");
   ("show_interface_status", "show interface status");
   ("show_ip_route", "show ip route");
   ("show_arp", "show arp");
   ("show_mac_table", "show mac-address-table");
   ("show_vlan", "show vlan");
   ("show_cpu", "show cpu");
   ("show_memory", "show memory");
   ("show_log", "show logging")].

Definition COMMAND_MAP : list (string * Dict.t) :=
  [("huawei", huawei_commands); ("hp_comware", hp_comware_commands);
   ("cisco_ios", cisco_ios_commands); ("cisco_nxos", cisco_nxos_commands);
   ("ruijie_os", ruijie_os_commands)].

(** [COMMAND_MAP.get(device_type, {})] *)
Fixpoint device_commands (device_type : string)
    (m : list (string * Dict.t)) : Dict.t :=
  match m with
  | [] => []
  | (k, table) :: m' =>
      if String.eqb device_type k then table else device_commands device_type m'
  end.

(** [translate_command] *)
Definition translate_command (device_type generic_cmd : string) : string :=
  get_or generic_cmd
         (Dict.get generic_cmd (device_commands device_type COMMAND_MAP)).

(** The connection as the executor uses it.

    - [send_command actual read_timeout expect_string]:
      [self.connection.send_command].
    - [record_datetime]: the read of [console.record_datetime] for the
      history entry, with its [str]. *)
Class Connection (W : Type) : Type := {
  send_command : string -> Z -> option string -> W -> Outcome string * W;
  record_datetime : W -> Outcome string * W
}.

(** An entry of [command_history]. *)
Record HistoryEntry : Type := mkHistoryEntry {
  h_command : string;
  h_timestamp : string;
  h_output_length : Z
}.

(** The executor and the world: [self.command_history], and the ghost list
    of the texts handed to [send_command]. *)
Record State (W : Type) : Type := mkState {
  conn : W;
  command_history : list HistoryEntry;
  handed : list string
}.

Arguments mkState {W} conn command_history handed.
Arguments conn {W} s.
Arguments command_history {W} s.
Arguments handed {W} s.

Definition failure_prefix : string := "命令执行失败: ".

Local Open Scope string_scope.

(** The line [execute_command] prints before it hands a command over, and
    the line its handler prints for an exception. *)
Definition echo_line (actual_command : string) : string :=
  newline ++ "[bold cyan]执行命令:[/bold cyan] " ++ actual_command.

Definition failure_line (e : string) : string :=
  "[bold red]" ++ failure_prefix ++ e ++ "[/bold red]".

Section Executor.

Context {W : Type} {connection : Connection W} {console : Rich.Console W}.

(** [self.device_type], read from the connection when the executor is
    built. *)
Variable device_type : string.

(** A call of the console, in the executor's state. *)
Definition on_console (o : Rich.Output) (s : State W)
  : Outcome unit * State W :=
  let (r, w) := Rich.render o (conn s) in
  (r, mkState w (command_history s) (handed s)).

(** The [except Exception as e] block of [execute_command]: the failure
    text goes to the console and is returned in the place of the output.
    When the console raises there, the exception leaves
    [execute_command]. *)
Definition on_exception (e : string) (s : State W)
  : Outcome string * State W :=
  match on_console (Rich.Markup (failure_line e)) s with
  | (Ok _, s') => (Ok (failure_prefix ++ e), s')
  | (Raise e', s') => (Raise e', s')
  end.

(** [execute_command]: the output, or the failure message in its place. *)
Definition execute_command (command : string) (enable_mode : bool)
    (read_timeout : Z) (expect_string : option string) (s : State W)
  : Outcome string * State W :=
  let actual_command := translate_command device_type command in
  match on_console (Rich.Markup (echo_line actual_command)) s with
  | (Raise e, s0) => on_exception e s0
  | (Ok _, s0) =>
      let sent := (handed s0 ++ [actual_command])%list in
      match send_command actual_command read_timeout
              (if enable_mode then expect_string else None) (conn s0) with
      | (Raise e, w1) => on_exception e (mkState w1 (command_history s0) sent)
      | (Ok output, w1) =>
          match record_datetime w1 with
          | (Raise e, w2) =>
              on_exception e (mkState w2 (command_history s0) sent)
          | (Ok stamp, w2) =>
              (Ok output,
               mkState w2
                 (command_history s0
                  ++ [mkHistoryEntry actual_command stamp (PyStr.len output)])%list
                 sent)
          end
      end
  end.

(** [cmd.startswith('conf') or cmd.startswith('config')] *)
Definition is_config (cmd : string) : bool :=
  PyStr.startswith "conf" cmd || PyStr.startswith "config" cmd.

(** The body of the loop of [execute_commands] for one command: a
    configuration command goes between [configure terminal] and [end]. *)
Definition run_command (cmd : string) (enable_mode : bool) (s : State W)
  : Outcome string * State W :=
  if is_config cmd then
    match execute_command "configure terminal" true 30 None s with
    | (Raise e, s1) => (Raise e, s1)
    | (Ok _, s1) =>
        match execute_command cmd true 30 None s1 with
        | (Raise e, s2) => (Raise e, s2)
        | (Ok output, s2) =>
            match execute_command "end" true 30 None s2 with
            | (Raise e, s3) => (Raise e, s3)
            | (Ok _, s3) => (Ok output, s3)
            end
        end
    end
  else execute_command cmd enable_mode 30 None s.

(** The loop of [execute_commands]; [idx] counts from 1 as [enumerate]
    does, [count] is [len(commands)]. *)
Fixpoint execute_commands_from (commands : list string) (idx count : nat)
    (enable_mode : bool) (results : Dict.t) (s : State W)
  : Outcome Dict.t * State W :=
  match commands with
  | [] => (Ok results, s)
  | cmd :: rest =>
      match on_console
              (Rich.Markup (newline ++ "[dim][" ++ Rich.str_nat idx ++ "/"
                            ++ Rich.str_nat count ++ "][/dim]")) s with
      | (Raise e, s0) => (Raise e, s0)
      | (Ok _, s0) =>
          match run_command cmd enable_mode s0 with
          | (Raise e, s1) => (Raise e, s1)
          | (Ok output, s1) =>
              execute_commands_from rest (S idx) count enable_mode
                                    (Dict.set cmd output results) s1
          end
      end
  end.

(** [execute_commands]: the dict from each command to its output. *)
Definition execute_commands (commands : list string) (enable_mode : bool)
    (s : State W) : Outcome Dict.t * State W :=
  match on_console
          (Rich.Panel ("[bold yellow]批量执行 "
                       ++ Rich.str_nat (length commands)
                       ++ " 条命令[/bold yellow]")) s with
  | (Raise e, s0) => (Raise e, s0)
  | (Ok _, s0) =>
      execute_commands_from commands 1 (length commands) enable_mode [] s0
  end.

(** [command_execute_operation(commands)] applied to a connection: a fresh
    executor runs the commands. *)
Definition command_execute_operation (commands : list string) (w : W)
  : Outcome Dict.t * W :=
  let (results, s) := execute_commands commands false (mkState w [] []) in
  (results, conn s).

End Executor.

(** What [execute_commands] hands to [send_command] for one command. *)
Definition handed_for (device_type cmd : string) : list string :=
  if is_config cmd
  then ["configure terminal"; translate_command device_type cmd; "end"]
  else [translate_command device_type cmd].

(** The commands of a list without the later repeats. *)
Fixpoint distinct (l : list string) : list string :=
  match l with
  | [] => []
  | x :: l' =>
      x :: filter (fun y => negb (String.eqb y x)) (distinct l')
  end.

(** A laboratory connection: the world counts the commands received; the
    device raises on any command that holds [bad]. *)
Definition lab_connection : Connection nat := {|
  send_command := fun cmd _ _ w =>
    if PyStr.contains "bad" cmd then (Raise "refused", S w)
    else (Ok cmd, S w);
  record_datetime := fun w => (Ok "now", w)
|}.

End CommandExec.

(* ===================================================================== *)
(** * More worked inputs *)
(* ===================================================================== *)

Module Bench.

(** A session whose console declines, and one whose console is closed; a
    session that was never connected. *)
Definition declining_session : Session (list string) := {|
  shell := false;
  connection := true;
  shell_send := fun _ w => (Ok tt, w);
  framed_output := fun _ w => (Ok "", w);
  exec_command := fun cmd _ w => (Ok ("done", ""), w ++ [cmd]);
  input := fun w => (Ok "no", w)
|}.

Definition closed_console_session : Session (list string) := {|
  shell := false;
  connection := true;
  shell_send := fun _ w => (Ok tt, w);
  framed_output := fun _ w => (Ok "", w);
  exec_command := fun cmd _ w => (Ok ("done", ""), w ++ [cmd]);
  input := fun w => (Raise "EOF when reading a line", w)
|}.

Definition unconnected_session : Session (list string) := {|
  shell := false;
  connection := false;
  shell_send := fun _ w => (Ok tt, w ++ ["shell"]);
  framed_output := fun _ w => (Ok "", w);
  exec_command := fun cmd _ w => (Ok ("done", ""), w ++ [cmd]);
  input := fun w => (Ok "yes", w)
|}.

Definition confirmed_step : Step :=
  mkStep (Some ["reboot"]) None None
         (Some [command_step ["undo reboot"] None]) None None (Some true).

Definition confirmed_task : Task :=
  mkTask (Some "reboot") None
         (Some [command_step ["vlan 10"] None; confirmed_step;
                command_step ["vlan 20"] None]).

Definition empty_state : St (list string) := mkSt [] [] [].

Definition loop_task : Task :=
  mkTask None (Some [("site", "lab")]) (Some [Lab.loop_step]).

(** A rollback list whose last entry, the first to be run, is rejected by
    the laboratory device. *)
Definition rollback_list : list Step :=
  [command_step ["undo a"] None; command_step ["bad undo"] None].

(** Steps that follow the loop of the laboratory: a loop over another
    variable whose command names both variables, and a plain step. *)
Definition port_loop : Step :=
  mkStep (Some ["port {{port}} vlan {{id}}"]) None
         (Some (mkLoopConfig (Some (ItemsList ["1"; "2"])) (Some "port")))
         None None None None.

Definition show_step : Step := command_step ["show vlan {{id}}"] None.

End Bench.

(** The step is a loop step whose loop variable is [k]. *)
Definition binds (k : string) (step : Step) : bool :=
  match loop step with
  | Some loop_config => String.eqb k (loop_var loop_config)
  | None => false
  end.

(** Neither the step nor a step of its rollback list loops on [k]. *)
Definition leaves_alone (k : string) (step : Step) : Prop :=
  binds k step = false
  /\ Forall (fun rb => binds k rb = false) (get_or [] (rollback step)).

(** A step that runs its commands whenever it is reached and asks nothing:
    no condition, no loop, no confirmation. *)
Definition unattended (step : Step) : Prop :=
  condition step = None /\ loop step = None
  /\ get_or false (confirm step) = false.

(** The confirmation gate of [execute_commands] is passed: no confirmation
    is asked, or the console returns an answer that reads [yes] or [y].
    [w1] is the world once the gate is behind. *)
Definition gate_passed {W : Type} {session : Session W} (confirm : bool)
    (w w1 : W) : Prop :=
  if confirm
  then exists response,
      input w = (Ok response, w1) /\ is_yes response = true
  else w1 = w.

(** The confirmation is asked and the answer is neither [yes] nor [y]. *)
Definition gate_declined {W : Type} {session : Session W} (w w1 : W) : Prop :=
  exists response, input w = (Ok response, w1) /\ is_yes response = false.

(** The texts a step dispatches when all of its commands are run, under the
    bindings [variables]. *)
Definition resolved_commands (step : Step) (variables : Dict.t)
  : list string :=
  map (fun c => auto_save (_resolve_variables c variables))
      (get_or [] (commands step)).

(* ===================================================================== *)
(** * The command line of the executor: [main] *)
(* ===================================================================== *)

Module Cli.

(** The parsed arguments [main] reads after connecting. [task] is the path
    of a task file, [commands] the list after [--commands]; either may be
    absent. *)
Record Args : Type := mkArgs {
  arg_task : option string;
  arg_commands : option (list string);
  arg_timeout : Z;
  arg_confirm : bool;
  arg_no_save : bool
}.

(** Reading the task file: [open] and [json.load] or [yaml.safe_load]. *)
Class Loader (W : Type) : Type := {
  load_task : string -> W -> Outcome Task * W
}.

Section Main.

Context {W : Type} {session : Session W} {loader : Loader W}.

(** [main] from the call of [executor.connect] on: [connected] is what
    [connect] returned. The result is the exit status of the process: [1]
    for [sys.exit(1)], [0] when [main] returns. *)
Definition main (connected : bool) (args : Args) (w : W) : Z * St W :=
  if negb connected then (1%Z, mkSt w [] [])
  else
    match arg_task args with
    | Some (String c path) =>
        match load_task (String c path) w with
        | (Raise _, w1) => (1%Z, mkSt w1 [] [])
        | (Ok task, w1) =>
            let (result, s) := execute_task task w1 in
            ((if success result then 0 else 1)%Z, s)
        end
    | _ =>
        match arg_commands args with
        | Some (cmd :: cmds) =>
            match execute_commands (cmd :: cmds) (arg_timeout args) true
                    (negb (arg_no_save args)) (arg_confirm args)
                    (mkSt w [] []) with
            | (Ok _, s) => (0%Z, s)
            | (Raise _, s) => (1%Z, s)
            end
        | _ => (1%Z, mkSt w [] [])
        end
    end.

End Main.

(** A loader for worked runs: every path holds the loop task of the
    bench. *)
Definition lab_loader : Loader (list string) := {|
  load_task := fun _ w => (Ok Bench.loop_task, w)
|}.

End Cli.

(** Every character of [s] passes the test [p]. *)
Fixpoint all_chars (p : ascii -> bool) (s : string) : bool :=
  match s with
  | EmptyString => true
  | String c s' => p c && all_chars p s'
  end.

(** The batch operation [command_execute_operation(commands)] as the
    operation of a batch: [connect] and [close] are the SSH library's
    [ConnectHandler] and [disconnect], [device_type_of] reads
    [connection.device_type], [clock] gives the duration of the summary. *)
Definition command_network {W Conn : Type}
    {connection : CommandExec.Connection W} {console : Rich.Console W}
    (connect : string -> Batch.DeviceInfo -> W -> Outcome Conn * W)
    (device_type_of : Conn -> string)
    (close : Conn -> W -> Outcome unit * W)
    (clock : W -> W -> string)
    (cmds : list string) : Batch.Network W Conn Dict.t := {|
  Batch.ConnectHandler := connect;
  Batch.operation := fun c w =>
    CommandExec.command_execute_operation (device_type_of c) cmds w;
  Batch.disconnect := close;
  Batch.elapsed := clock
|}.

(** The console refuses the echo of [actual_command], and the failure line
    of the exception it raises for it, whatever the world. *)
Definition unprintable {W : Type} {console : Rich.Console W}
    (actual_command : string) : Prop :=
  forall w,
    exists e w1,
      Rich.render (Rich.Markup (CommandExec.echo_line actual_command)) w
      = (Raise e, w1)
      /\ forall w2,
          exists e' w3,
            Rich.render (Rich.Markup (CommandExec.failure_line e)) w2
            = (Raise e', w3).

(** No translation in the table is itself a generic name of the table. *)
Definition values_are_not_keys (table : Dict.t) : bool :=
  forallb (fun kv => match Dict.get (snd kv) table with
                     | Some _ => false
                     | None => true
                     end) table.

(** The keys of a dict, in order. *)
Definition keys_of (d : Dict.t) : list string := map fst d.

(** The SSH library of the laboratory for command batches: it refuses
    nothing, and the connection carries the device type. *)
Definition lab_connect (h : string) (d : Batch.DeviceInfo) (w : nat)
  : Outcome string * nat :=
  (Ok (get_or "cisco_ios" (Batch.device_type d)), w).

Definition lab_close (c : string) (w : nat) : Outcome unit * nat := (Ok tt, w).

Definition lab_clock (w0 w1 : nat) : string := "0.00".

(* ===================================================================== *)
(** * Facts about strings *)
(* ===================================================================== *)

Module PyStrFacts.

Import PyStr.

Lemma append_assoc (a b c : string) : ((a ++ b) ++ c = a ++ (b ++ c))%string.
Proof. induction a as [|x a IH]; simpl; [reflexivity | now rewrite IH]. Qed.

Lemma append_empty_r (a : string) : (a ++ "")%string = a.
Proof. induction a as [|x a IH]; simpl; [reflexivity | now rewrite IH]. Qed.

Lemma startswith_append (p r : string) : startswith p (p ++ r) = true.
Proof.
  induction p as [|x p IH]; simpl; [reflexivity|].
  now rewrite Ascii.eqb_refl, IH.
Qed.

Lemma replace_scan_skip (old new p r : string) :
  replace_scan old new (String.length p) (p ++ r) = replace_scan old new 0 r.
Proof. induction p as [|x p IH]; simpl; [reflexivity | exact IH]. Qed.

Lemma replace_scan_match (old new r : string) :
  old <> EmptyString ->
  replace_scan old new 0 (old ++ r) = (new ++ replace_scan old new 0 r)%string.
Proof.
  destruct old as [|x old]; [congruence|]. intros _.
  change (String x old ++ r)%string with (String x (old ++ r)).
  cbn [replace_scan].
  change (String x (old ++ r)) with (String x old ++ r)%string.
  rewrite startswith_append. cbn [String.length].
  rewrite Nat.sub_0_r || (simpl; rewrite Nat.sub_0_r).
  now rewrite replace_scan_skip.
Qed.

Lemma replace_scan_pass (old new : string) (c : ascii) (r : string) :
  startswith old (String c r) = false ->
  replace_scan old new 0 (String c r) = String c (replace_scan old new 0 r).
Proof. intros H. cbn [replace_scan]. now rewrite H. Qed.

Lemma replace_scan_absent (old new s : string) :
  contains old s = false -> replace_scan old new 0 s = s.
Proof.
  induction s as [|c s IH]; intros H; [reflexivity|].
  cbn [contains] in H. apply orb_false_iff in H as [Hhere Hlater].
  cbn [replace_scan]. rewrite Hhere. now rewrite IH.
Qed.

Lemma join_app (l1 l2 : list string) :
  join (l1 ++ l2) = (join l1 ++ join l2)%string.
Proof.
  induction l1 as [|x l1 IH]; simpl; [reflexivity|].
  now rewrite IH, append_assoc.
Qed.

End PyStrFacts.

(* ===================================================================== *)
(** * Variable substitution against the specification's reading *)
(* ===================================================================== *)

Module TemplateFacts.

Import PyStr PyStrFacts Template.

Lemma placeholder_unfold (k : string) :
  placeholder k = String "{" (String "{" (k ++ "}}")).
Proof. reflexivity. Qed.

Lemma placeholder_append (k r : string) :
  (placeholder k ++ r)%string = String "{" (String "{" (k ++ ("}}" ++ r))).
Proof. rewrite placeholder_unfold. simpl. now rewrite append_assoc. Qed.

(** A character that is not an opening brace starts no placeholder. *)
Lemma scan_other (k v : string) (c : ascii) (r : string) :
  Ascii.eqb "{" c = false ->
  replace_scan (placeholder k) v 0 (String c r)
  = String c (replace_scan (placeholder k) v 0 r).
Proof.
  intros H. apply replace_scan_pass.
  rewrite placeholder_unfold. cbn [startswith]. now rewrite H.
Qed.

Lemma plain_head (c : ascii) (s : string) :
  plain (String c s) = true -> Ascii.eqb "{" c = false /\ Ascii.eqb "}" c = false
                               /\ plain s = true.
Proof.
  cbn [plain]. unfold is_brace. intros H.
  apply andb_true_iff in H as [H1 H2].
  apply negb_true_iff, orb_false_iff in H1 as [Ha Hb].
  rewrite Ascii.eqb_sym in Ha. rewrite Ascii.eqb_sym in Hb. auto.
Qed.

(** Text without braces is copied. *)
Lemma scan_plain (k v s r : string) :
  plain s = true ->
  replace_scan (placeholder k) v 0 (s ++ r)
  = (s ++ replace_scan (placeholder k) v 0 r)%string.
Proof.
  induction s as [|c s IH]; intros Hs; [reflexivity|].
  apply plain_head in Hs as (Hc & _ & Hs).
  cbn [append]. rewrite scan_other by exact Hc. now rewrite IH.
Qed.

(** Two names without braces, each closed by its braces, start alike only
    when they are the same name. *)
Lemma closed_name_prefix (k n r : string) :
  plain k = true -> plain n = true ->
  startswith (k ++ "}}") (n ++ ("}}" ++ r)) = true -> k = n.
Proof.
  revert n. induction k as [|a k IH]; intros n Hk Hn H.
  - destruct n as [|b n]; [reflexivity|].
    apply plain_head in Hn as (_ & Hb & _).
    cbn [append startswith] in H. rewrite Hb in H. discriminate.
  - apply plain_head in Hk as (_ & Ha & Hk).
    destruct n as [|b n].
    + cbn [append startswith] in H. rewrite Ascii.eqb_sym in Ha.
      rewrite Ha in H. discriminate.
    + apply plain_head in Hn as (_ & _ & Hn).
      cbn [append startswith] in H. apply andb_true_iff in H as [Hab H].
      apply Ascii.eqb_eq in Hab. subst b. f_equal. now apply IH.
Qed.

(** The placeholder of another name is copied. *)
Lemma scan_other_hole (k v n r : string) :
  plain k = true -> plain n = true -> String.eqb n k = false ->
  replace_scan (placeholder k) v 0 (placeholder n ++ r)
  = (placeholder n ++ replace_scan (placeholder k) v 0 r)%string.
Proof.
  intros Hk Hn Hne.
  rewrite !placeholder_append.
  rewrite replace_scan_pass.
  2:{ rewrite placeholder_unfold. cbn [startswith].
      rewrite !Ascii.eqb_refl. cbn [andb].
      destruct (startswith (k ++ "}}") (n ++ ("}}" ++ r))) eqn:E;
        [|reflexivity].
      apply closed_name_prefix in E; try assumption.
      subst n. now rewrite String.eqb_refl in Hne. }
  rewrite replace_scan_pass.
  2:{ rewrite placeholder_unfold. cbn [startswith].
      rewrite Ascii.eqb_refl. cbn [andb].
      destruct n as [|b n]; cbn [append startswith].
      - reflexivity.
      - apply plain_head in Hn as (Hb & _ & _). now rewrite Hb. }
  rewrite scan_plain by exact Hn.
  cbn [append]. rewrite !scan_other by reflexivity.
  reflexivity.
Qed.

Lemma replace_placeholder (k v s : string) :
  replace (placeholder k) v s = replace_scan (placeholder k) v 0 s.
Proof. reflexivity. Qed.

(** One [str.replace] acts on the text of a well-formed template as [fill]
    acts on the template. *)
Lemma replace_raw (k v : string) (t : list Segment) :
  plain k = true -> well_formed t = true ->
  replace (placeholder k) v (raw t) = raw (fill k v t).
Proof.
  intros Hk. rewrite replace_placeholder.
  induction t as [|seg t IH]; intros Hwf; [reflexivity|].
  cbn [well_formed forallb] in Hwf. apply andb_true_iff in Hwf as [Hseg Hwf].
  specialize (IH Hwf).
  destruct seg as [s|n]; cbn [raw fill map].
  - rewrite scan_plain by exact Hseg. now rewrite IH.
  - destruct (String.eqb n k) eqn:E.
    + apply String.eqb_eq in E. subst n.
      rewrite replace_scan_match by (rewrite placeholder_unfold; discriminate).
      cbn [raw]. now rewrite IH.
    + rewrite scan_other_hole by assumption. cbn [raw]. now rewrite IH.
Qed.

Lemma fill_well_formed (k v : string) (t : list Segment) :
  plain v = true -> well_formed t = true -> well_formed (fill k v t) = true.
Proof.
  intros Hv. induction t as [|seg t IH]; intros Hwf; [reflexivity|].
  simpl in Hwf. apply andb_true_iff in Hwf as [Hseg Hwf].
  simpl. rewrite IH by exact Hwf. rewrite andb_true_r.
  destruct seg as [s|n]; [exact Hseg|].
  destruct (String.eqb n k); assumption.
Qed.

Lemma substitute_nil (t : list Segment) : substitute [] t = raw t.
Proof.
  induction t as [|[s|n] t IH]; simpl; [reflexivity| |]; now rewrite IH.
Qed.

Lemma substitute_cons (k v : string) (rest : Dict.t) (t : list Segment) :
  substitute ((k, v) :: rest) t = substitute rest (fill k v t).
Proof.
  induction t as [|[s|n] t IH]; simpl; [reflexivity| |].
  - now rewrite IH.
  - destruct (String.eqb n k); simpl; now rewrite IH.
Qed.

End TemplateFacts.

(* ===================================================================== *)
(** * Facts about the bindings *)
(* ===================================================================== *)

Module DictFacts.

Lemma get_set_same (k v : string) (d : Dict.t) :
  Dict.get k (Dict.set k v d) = Some v.
Proof.
  induction d as [|[k' v'] d IH]; simpl.
  - now rewrite String.eqb_refl.
  - destruct (String.eqb k k') eqn:E; simpl; rewrite E; [reflexivity | exact IH].
Qed.

Lemma get_set_other (k k' v : string) (d : Dict.t) :
  String.eqb k' k = false -> Dict.get k' (Dict.set k v d) = Dict.get k' d.
Proof.
  intros Hne. induction d as [|[k0 v0] d IH]; simpl.
  - now rewrite Hne.
  - destruct (String.eqb k k0) eqn:E; simpl.
    + apply String.eqb_eq in E. subst k0. now rewrite Hne.
    + now rewrite IH.
Qed.

Lemma set_set (k a b : string) (d : Dict.t) :
  Dict.set k b (Dict.set k a d) = Dict.set k b d.
Proof.
  induction d as [|[k' v'] d IH]; simpl.
  - now rewrite String.eqb_refl.
  - destruct (String.eqb k k') eqn:E; simpl; rewrite E; [reflexivity|].
    now rewrite IH.
Qed.

End DictFacts.

(* ===================================================================== *)
(** * Facts about the executor *)
(* ===================================================================== *)

Lemma dispatched_app (a b : list Event) :
  dispatched (a ++ b) = dispatched a ++ dispatched b.
Proof.
  induction a as [|[c|vs|ok] a IH]; simpl; [reflexivity| | |];
    now rewrite IH.
Qed.

Lemma nested_app (a b : list Event) : nested (a ++ b) = nested a ++ nested b.
Proof.
  induction a as [|[c|vs|ok] a IH]; simpl; [reflexivity| | |];
    now rewrite IH.
Qed.

Lemma nested_dispatch (ds : list string) : nested (map EvDispatch ds) = [].
Proof. induction ds as [|d ds IH]; simpl; [reflexivity | exact IH]. Qed.

Lemma dispatched_dispatch (ds : list string) :
  dispatched (map EvDispatch ds) = ds.
Proof. induction ds as [|d ds IH]; simpl; [reflexivity | now rewrite IH]. Qed.

Section ExecutorFacts.

Context {W : Type} {session : Session W}.

(** [execute_command] catches every exception, records the text it was
    given, and leaves the bindings alone. *)
Lemma execute_command_ok (cmd : string) (t : Z) (s : St W) :
  exists r w',
    execute_command cmd t s
    = (Ok r, mkSt w' (vars s) (log s ++ [EvDispatch cmd]))
    /\ cr_command r = cmd.
Proof.
  unfold execute_command, bind, emit, try_except, call, ret. simpl.
  destruct shell; simpl.
  - destruct (shell_send (cmd ++ newline) (world s)) as [[u|e] w1]; simpl.
    + destruct (framed_output t w1) as [[o|e] w2]; simpl; eauto.
    + eauto.
  - destruct connection; simpl.
    + destruct (exec_command cmd t (world s)) as [[[o e']|e] w1]; simpl; eauto.
    + eauto.
Qed.

(** The loop of [execute_commands] never raises; what it dispatches and what
    it records are the same texts. *)
Lemma dispatch_each_ok (cmds : list string) (t : Z) (stop : bool) (s : St W) :
  exists rs s',
    dispatch_each cmds t stop s = (Ok rs, s')
    /\ vars s' = vars s
    /\ log s' = log s ++ map EvDispatch (map cr_command rs)
    /\ exists n, map cr_command rs = firstn n (map auto_save cmds).
Proof.
  revert s. induction cmds as [|c cmds IH]; intros s.
  - exists [], s. simpl. rewrite app_nil_r. repeat split. now exists 0.
  - cbn [dispatch_each]. unfold bind at 1.
    destruct (execute_command_ok (auto_save c) t s) as (r & w' & -> & Hc).
    destruct (negb (cr_success r) && stop).
    + eexists [r], _. unfold ret. split; [reflexivity|]. simpl.
      rewrite Hc. repeat split. now exists 1.
    + unfold bind.
      destruct (IH (mkSt w' (vars s) (log s ++ [EvDispatch (auto_save c)])))
        as (rs & s' & -> & Hv & Hl & n & Hn).
      eexists (r :: rs), s'. unfold ret. split; [reflexivity|]. simpl in *.
      rewrite Hc. repeat split; [exact Hv | now rewrite Hl, <- app_assoc |].
      exists (S n). simpl. now rewrite Hn.
Qed.

(** [execute_commands] leaves the bindings alone and adds only dispatches to
    the log; it raises only when the console does, before any dispatch. *)
Lemma execute_commands_effect (cmds : list string) (t : Z)
    (stop sc cf : bool) (s : St W) :
  match execute_commands cmds t stop sc cf s with
  | (Ok _, s') =>
      vars s' = vars s /\ exists ds, log s' = log s ++ map EvDispatch ds
  | (Raise _, s') => vars s' = vars s /\ log s' = log s
  end.
Proof.
  unfold execute_commands.
  assert (Hgo : forall s0 : St W, vars s0 = vars s -> log s0 = log s ->
            match
              (bind (dispatch_each cmds t stop)
                 (fun results =>
                    bind (if sc then bind (execute_command "save force" 60)
                                          (fun _ => ret tt)
                          else ret tt)
                         (fun _ => ret results))) s0
            with
            | (Ok _, s') =>
                vars s' = vars s /\ exists ds, log s' = log s ++ map EvDispatch ds
            | (Raise _, s') => vars s' = vars s /\ log s' = log s
            end).
  { intros s0 Hv0 Hl0. unfold bind at 1.
    destruct (dispatch_each_ok cmds t stop s0) as (rs & s1 & -> & Hv & Hl & _).
    destruct sc.
    - unfold bind, ret.
      destruct (execute_command_ok "save force" 60 s1) as (r & w' & -> & _).
      simpl. split; [congruence|].
      exists (map cr_command rs ++ ["save force"]).
      rewrite Hl, Hl0, map_app, <- app_assoc. reflexivity.
    - unfold bind, ret. split; [congruence|].
      exists (map cr_command rs). now rewrite Hl, Hl0. }
  destruct cf.
  - unfold bind at 1. unfold bind at 1. unfold call.
    destruct (input (world s)) as [[resp|e] w1]; simpl; [|auto].
    unfold ret at 1.
    destruct (is_yes resp).
    + apply Hgo; reflexivity.
    + unfold ret. simpl. split; [reflexivity|]. exists []. simpl.
      now rewrite app_nil_r.
  - unfold bind at 1. unfold ret at 1. apply Hgo; reflexivity.
Qed.

(** One run of the nested command: the bindings are read, not written, and
    the ghost log shows its entry and, unless the console raised, its exit. *)
Lemma nested_run_effect (step : Step) (s : St W) :
  match _execute_commands_in_step step s with
  | (Ok r, s') =>
      vars s' = vars s
      /\ nested (log s')
         = nested (log s) ++ [EvNestedBegin (vars s); EvNestedEnd (sr_success r)]
  | (Raise _, s') =>
      vars s' = vars s
      /\ nested (log s') = nested (log s) ++ [EvNestedBegin (vars s)]
  end.
Proof.
  unfold _execute_commands_in_step.
  unfold bind at 1. unfold get_vars. unfold bind at 1. unfold emit at 1.
  unfold bind at 1.
  match goal with
  | |- context [execute_commands ?c ?t ?st ?sc ?cf ?s0] =>
      pose proof (execute_commands_effect c t st sc cf s0) as H;
      destruct (execute_commands c t st sc cf s0) as [[rs|e] s1]
  end; simpl in H.
  - destruct H as (Hv & ds & Hl).
    unfold bind, emit, ret. simpl. split; [exact Hv|].
    rewrite Hl, !nested_app, nested_dispatch. simpl.
    now rewrite app_nil_r, <- app_assoc.
  - destruct H as (Hv & Hl). split; [exact Hv|].
    rewrite Hl, nested_app. reflexivity.
Qed.

(** The loop of a loop step, read off the ghost log. [base] is the bindings
    the loop started from, up to the loop variable. *)
Lemma loop_each_trace (step : Step) (var : string) (base : Dict.t)
    (its : list string) (s : St W) :
  (forall x, Dict.set var x (vars s) = Dict.set var x base) ->
  match loop_each step var its s with
  | (Ok r, s') =>
      (sr_success r = true
       /\ nested (log s')
          = nested (log s) ++ flat_map (iteration var base true) its
       /\ (its = [] -> vars s' = vars s)
       /\ (its <> [] -> vars s' = Dict.set var (last its "") base))
      \/
      (sr_success r = false
       /\ exists pre x post,
           its = pre ++ x :: post
           /\ nested (log s')
              = nested (log s) ++ flat_map (iteration var base true) pre
                ++ iteration var base false x
           /\ vars s' = Dict.set var x base)
  | (Raise _, s') =>
      exists pre x post,
        its = pre ++ x :: post
        /\ nested (log s')
           = nested (log s) ++ flat_map (iteration var base true) pre
             ++ [EvNestedBegin (Dict.set var x base)]
        /\ vars s' = Dict.set var x base
  end.
Proof.
  revert s. induction its as [|x its IH]; intros s Hbase.
  - simpl. left. rewrite app_nil_r. repeat split; congruence.
  - cbn [loop_each]. unfold bind at 1. unfold set_var at 1.
    unfold bind at 1.
    pose proof (nested_run_effect step
                  (mkSt (world s) (Dict.set var x (vars s)) (log s))) as Hrun.
    destruct (_execute_commands_in_step step
                (mkSt (world s) (Dict.set var x (vars s)) (log s)))
      as [[r|e] s1]; simpl in Hrun; destruct Hrun as (Hv & Hl).
    + destruct (sr_success r) eqn:Hok; cbn [negb].
      * assert (Hbase1 : forall y, Dict.set var y (vars s1) = Dict.set var y base).
        { intros y. now rewrite Hv, DictFacts.set_set. }
        specialize (IH s1 Hbase1).
        destruct (loop_each step var its s1) as [[r'|e'] s'].
        -- destruct IH as [(Hs & Hn & Hnil & Hlast) | (Hs & pre & y & post & -> & Hn & Hvs)].
           ++ left. split; [exact Hs|]. split.
              { rewrite Hn, Hl, Hbase. cbn [flat_map iteration].
                now rewrite <- !app_assoc. }
              split; [discriminate|]. intros _.
              destruct its as [|y its'].
              ** rewrite Hnil by reflexivity. now rewrite Hv, Hbase.
              ** rewrite Hlast by discriminate. reflexivity.
           ++ right. split; [exact Hs|]. exists (x :: pre), y, post.
              split; [reflexivity|]. split; [|exact Hvs].
              rewrite Hn, Hl, Hbase. cbn [flat_map iteration].
              now rewrite <- !app_assoc.
        -- destruct IH as (pre & y & post & -> & Hn & Hvs).
           exists (x :: pre), y, post. split; [reflexivity|].
           split; [|exact Hvs].
           rewrite Hn, Hl, Hbase. cbn [flat_map iteration].
           now rewrite <- !app_assoc.
      * unfold ret. right. split; [exact Hok|]. exists [], x, its.
        split; [reflexivity|]. split.
        -- rewrite Hl, Hbase. reflexivity.
        -- now rewrite Hv, Hbase.
    + exists [], x, its. split; [reflexivity|]. split.
      * rewrite Hl, Hbase. reflexivity.
      * now rewrite Hv, Hbase.
Qed.

(** [_execute_step] does not read the [rollback] list. *)
Lemma execute_step_ignores_rollback (a b : Step) (s : St W) :
  same_but_rollback a b -> _execute_step a s = _execute_step b s.
Proof.
  intros (Hc & Hcond & Hloop & Ht & Hs & Hcf).
  assert (Hnested : forall s0, _execute_commands_in_step a s0
                               = _execute_commands_in_step b s0).
  { intros s0. unfold _execute_commands_in_step. now rewrite Hc, Ht, Hs, Hcf. }
  assert (Hloop_each : forall var its s0, loop_each a var its s0
                                          = loop_each b var its s0).
  { intros var its. induction its as [|x its IH]; intros s0; [reflexivity|].
    cbn [loop_each]. unfold bind at 1 3. destruct (set_var var x s0) as [[u|e] s1];
      [|reflexivity].
    unfold bind. rewrite Hnested.
    destruct (_execute_commands_in_step b s1) as [[r|e] s2]; [|reflexivity].
    destruct (negb (sr_success r)); [reflexivity | apply IH]. }
  unfold _execute_step. rewrite Hcond, Hloop.
  unfold bind, get_vars.
  destruct (match condition b with
            | Some c => negb (_evaluate_condition c (vars s))
            | None => false
            end); [reflexivity|].
  destruct (loop b); [apply Hloop_each | apply Hnested].
Qed.

Lemma execute_step_loop (step : Step) (lc : LoopConfig) (s : St W) :
  loop step = Some lc -> runs_under step (vars s) ->
  _execute_step step s
  = loop_each step (loop_var lc) (loop_items lc (vars s)) s.
Proof.
  unfold runs_under, _execute_step, bind, get_vars. intros -> Hrun.
  destruct (condition step); [now rewrite Hrun | reflexivity].
Qed.

Lemma execute_step_plain (step : Step) (s : St W) :
  loop step = None -> runs_under step (vars s) ->
  _execute_step step s = _execute_commands_in_step step s.
Proof.
  unfold runs_under, _execute_step, bind, get_vars. intros -> Hrun.
  destruct (condition step); [now rewrite Hrun | reflexivity].
Qed.

Lemma execute_step_skipped (step : Step) (c : Condition) (s : St W) :
  condition step = Some c -> _evaluate_condition c (vars s) = false ->
  _execute_step step s = (Ok (mkStepResult true (Some "") (Some true) None), s).
Proof.
  unfold _execute_step, bind, get_vars, ret. intros -> ->. reflexivity.
Qed.

(** Without [save_config], what [execute_commands] dispatches is a first
    part of its commands, each after the rewrite of [auto_save]. *)
Lemma execute_commands_dispatch (cmds : list string) (t : Z)
    (stop cf : bool) (s : St W) :
  match execute_commands cmds t stop false cf s with
  | (Ok _, s') =>
      vars s' = vars s
      /\ exists n, log s' = log s ++ map EvDispatch (firstn n (map auto_save cmds))
  | (Raise _, s') => vars s' = vars s /\ log s' = log s
  end.
Proof.
  unfold execute_commands.
  assert (Hgo : forall s0 : St W, vars s0 = vars s -> log s0 = log s ->
            match
              (bind (dispatch_each cmds t stop)
                 (fun results => bind (ret tt) (fun _ => ret results))) s0
            with
            | (Ok _, s') =>
                vars s' = vars s
                /\ exists n,
                    log s' = log s ++ map EvDispatch (firstn n (map auto_save cmds))
            | (Raise _, s') => vars s' = vars s /\ log s' = log s
            end).
  { intros s0 Hv0 Hl0. unfold bind at 1.
    destruct (dispatch_each_ok cmds t stop s0)
      as (rs & s1 & -> & Hv & Hl & n & Hn).
    unfold bind, ret. split; [congruence|].
    exists n. now rewrite Hl, Hl0, Hn. }
  destruct cf.
  - unfold bind at 1. unfold bind at 1. unfold call.
    destruct (input (world s)) as [[resp|e] w1]; simpl; [|auto].
    unfold ret at 1.
    destruct (is_yes resp).
    + apply Hgo; reflexivity.
    + unfold ret. simpl. split; [reflexivity|]. exists 0. simpl.
      now rewrite app_nil_r.
  - unfold bind at 1. unfold ret at 1. apply Hgo; reflexivity.
Qed.

(** A step without a loop leaves the bindings as they are and dispatches a
    first part of its commands, resolved under those bindings. *)
Lemma plain_step_effect (step : Step) (s : St W) (o : Outcome StepResult)
    (s' : St W) :
  loop step = None ->
  _execute_step step s = (o, s') ->
  vars s' = vars s
  /\ exists n,
      dispatched (log s')
      = dispatched (log s)
        ++ firstn n (map (fun c => auto_save (_resolve_variables c (vars s)))
                         (get_or [] (commands step))).
Proof.
  intros Hloop. unfold _execute_step, bind, get_vars. rewrite Hloop.
  destruct (match condition step with
            | Some c => negb (_evaluate_condition c (vars s))
            | None => false
            end).
  - unfold ret. intros [= <- <-]. split; [reflexivity|]. exists 0. simpl.
    now rewrite app_nil_r.
  - unfold _execute_commands_in_step.
    unfold bind at 1. unfold get_vars. unfold bind at 1. unfold emit at 1.
    unfold bind at 1.
    match goal with
    | |- context [execute_commands ?c ?t ?st false ?cf ?s0] =>
        pose proof (execute_commands_dispatch c t st cf s0) as H;
        destruct (execute_commands c t st false cf s0) as [[rs|e] s1]
    end; simpl in H.
    + destruct H as (Hv & n & Hl). unfold bind, emit, ret. simpl.
      intros [= <- <-]. simpl. split; [exact Hv|]. exists n.
      rewrite Hl, !dispatched_app, dispatched_dispatch, map_map. simpl.
      now rewrite !app_nil_r.
    + destruct H as (Hv & Hl). intros [= <- <-]. split; [exact Hv|].
      exists 0. rewrite Hl, dispatched_app. simpl. now rewrite !app_nil_r.
Qed.


Lemma nested_not_skipped (step : Step) (s s' : St W) (r : StepResult) :
  _execute_commands_in_step step s = (Ok r, s') -> sr_skipped r = None.
Proof.
  unfold _execute_commands_in_step.
  unfold bind at 1. unfold get_vars. unfold bind at 1. unfold emit at 1.
  unfold bind at 1.
  match goal with
  | |- context [execute_commands ?c ?t ?st ?sc ?cf ?s0] =>
      destruct (execute_commands c t st sc cf s0) as [[rs|e] s1]
  end; [|discriminate].
  unfold bind, emit, ret. simpl. now intros [= <- _].
Qed.

Lemma loop_not_skipped (step : Step) (var : string) (its : list string)
    (s s' : St W) (r : StepResult) :
  loop_each step var its s = (Ok r, s') -> sr_skipped r = None.
Proof.
  revert s. induction its as [|x its IH]; intros s.
  - simpl. unfold ret. now intros [= <- _].
  - cbn [loop_each]. unfold bind at 1. unfold set_var at 1. unfold bind at 1.
    destruct (_execute_commands_in_step step
                (mkSt (world s) (Dict.set var x (vars s)) (log s)))
      as [[r1|e] s1] eqn:E; [|discriminate].
    destruct (negb (sr_success r1)).
    + unfold ret. intros [= <- _]. eapply nested_not_skipped; eassumption.
    + apply IH.
Qed.

(** A step without a condition is never recorded as skipped. *)
Lemma unconditional_not_skipped (step : Step) (s s' : St W) (r : StepResult) :
  condition step = None ->
  _execute_step step s = (Ok r, s') -> sr_skipped r = None.
Proof.
  intros Hc. unfold _execute_step, bind, get_vars. rewrite Hc.
  destruct (loop step).
  - apply loop_not_skipped.
  - apply nested_not_skipped.
Qed.

(** C8. In a task of two steps whose first step completes and whose second
    step carries a condition that evaluates to false, the second step is
    recorded as skipped with [success = True], nothing is run for it, the
    list of step results is the first step's result followed by the skipped
    record, both steps count as completed and the task's [success] is
    [True]. A first step without a condition is not marked as skipped. *)
Theorem false_condition_skips_step (task : Task) (step1 step2 : Step)
    (c : Condition) (w : W) (r1 : StepResult) (s1 : St W) :
  steps task = Some [step1; step2] ->
  condition step2 = Some c ->
  _execute_step step1 (initial_state task w) = (Ok r1, s1) ->
  sr_success r1 = true ->
  _evaluate_condition c (vars s1) = false ->
  exists result,
    execute_task task w = (result, s1)
    /\ success result = true
    /\ results result = [r1; mkStepResult true (Some "") (Some true) None]
    /\ steps_completed result = 2
    /\ steps_total result = 2
    /\ error result = None
    /\ (condition step1 = None -> sr_skipped r1 = None).
Proof.
  intros Hsteps Hcond Hexec Hok Hfalse.
  unfold execute_task. rewrite Hsteps. cbn [get_or run_steps].
  rewrite Hexec, Hok. cbn [negb].
  rewrite (execute_step_skipped step2 c s1 Hcond Hfalse). cbn [sr_success negb].
  eexists. split; [reflexivity|].
  unfold initial_result. rewrite Hsteps. simpl.
  repeat split. intros Hc. eapply unconditional_not_skipped; eassumption.
Qed.

Lemma bind_ext {A B : Type} (m : M W A) (k1 k2 : A -> M W B) (s : St W) :
  (forall a s', k1 a s' = k2 a s') -> bind m k1 s = bind m k2 s.
Proof. intros H. unfold bind. destruct (m s) as [[a|e] s']; [apply H | reflexivity]. Qed.

Lemma auto_save_fixed : auto_save "save force" = "save force".
Proof. reflexivity. Qed.

Lemma dispatch_each_rewritten (before after : list string) (cmd : string)
    (t : Z) (stop : bool) (s : St W) :
  auto_save cmd = "save force" ->
  dispatch_each (before ++ cmd :: after) t stop s
  = dispatch_each (before ++ "save force" :: after) t stop s.
Proof.
  intros Hcmd. revert s. induction before as [|b before IH]; intros s.
  - cbn [app dispatch_each]. now rewrite Hcmd, auto_save_fixed.
  - cbn [app dispatch_each]. unfold bind at 1 3.
    destruct (execute_command (auto_save b) t s) as [[r|e] s1]; [|reflexivity].
    destruct (negb (cr_success r) && stop); [reflexivity|].
    unfold bind. now rewrite IH.
Qed.

(** C9. A command whose lower-cased text contains [save] and does not
    contain [force] is replaced by exactly [save force] before it is
    dispatched: the text differs from the one supplied, a command list that
    holds it runs as the list that holds [save force] in its place, and run
    on its own it is [save force] that is dispatched and recorded in the
    result. *)
Theorem save_is_rewritten (cmd : string) :
  PyStr.contains "save" (PyStr.lower cmd) = true ->
  PyStr.contains "force" (PyStr.lower cmd) = false ->
  auto_save cmd = "save force"
  /\ cmd <> "save force"
  /\ (forall before after t stop sc cf (s : St W),
        execute_commands (before ++ cmd :: after) t stop sc cf s
        = execute_commands (before ++ "save force" :: after) t stop sc cf s)
  /\ (forall t stop (s : St W),
        exists r s',
          execute_commands [cmd] t stop false false s = (Ok [r], s')
          /\ cr_command r = "save force"
          /\ log s' = log s ++ [EvDispatch "save force"]).
Proof.
  intros Hsave Hforce.
  assert (Hauto : auto_save cmd = "save force").
  { unfold auto_save. now rewrite Hsave, Hforce. }
  split; [exact Hauto|]. split; [|split].
  - intros ->. vm_compute in Hforce. discriminate.
  - intros before after t stop sc cf s. unfold execute_commands.
    apply bind_ext. intros go s1. destruct go; [|reflexivity].
    unfold bind at 1 4. now rewrite dispatch_each_rewritten.
  - intros t stop s. unfold execute_commands.
    unfold bind at 1. unfold ret at 1. unfold bind at 1.
    cbn [dispatch_each]. rewrite Hauto. unfold bind at 1.
    destruct (execute_command_ok "save force" t s) as (r & w' & -> & Hc).
    exists r. eexists.
    destruct (negb (cr_success r) && stop); unfold bind, ret; simpl;
      (split; [reflexivity | split; [exact Hc | reflexivity]]).
Qed.

(** The steps of [done], once completed, take [run_steps] to what follows. *)
Lemma run_steps_completes (done more : list Step) (s s1 : St W)
    (rs : list StepResult) (result : TaskResult) :
  Completes done s rs s1 ->
  run_steps (done ++ more) result s = run_steps more (advance result rs) s1.
Proof.
  intros H. revert result. induction H as [s|step done s s1 s2 r rs He Hs _ IH];
    intros result.
  - unfold advance. simpl. rewrite Nat.add_0_r, app_nil_r.
    now destruct result.
  - cbn [app run_steps]. rewrite He, Hs. cbn [negb]. rewrite IH.
    f_equal. unfold advance, count_step, add_result. simpl.
    now rewrite Nat.add_succ_r, <- app_assoc.
Qed.

Lemma completes_length (done : list Step) (s s1 : St W) (rs : list StepResult) :
  Completes done s rs s1 -> length rs = length done.
Proof. induction 1; simpl; congruence. Qed.

Lemma completes_ignores_rollback (done done' : list Step) (s s1 : St W)
    (rs : list StepResult) :
  Forall2 same_but_rollback done done' ->
  Completes done s rs s1 -> Completes done' s rs s1.
Proof.
  intros HF. revert s rs. induction HF as [|a b done done' Hab _ IH];
    intros s rs H; inversion H; subst.
  - constructor.
  - econstructor; [|eassumption|apply IH; eassumption].
    now rewrite <- (execute_step_ignores_rollback a b s Hab).
Qed.

(** What [execute_task] returns when the steps [done] complete and the next
    step fails. *)
Lemma execute_task_failed (task : Task) (done rest : list Step) (failed : Step)
    (w : W) (rs : list StepResult) (s1 s2 : St W) (r : StepResult) :
  steps task = Some (done ++ failed :: rest) ->
  Completes done (initial_state task w) rs s1 ->
  _execute_step failed s1 = (Ok r, s2) ->
  sr_success r = false ->
  execute_task task w
  = match rollback failed with
    | None =>
        (mkTaskResult (get_or "Unnamed Task" (name task)) false (length done)
           (length (done ++ failed :: rest)) (rs ++ [r]) None, s2)
    | Some rb =>
        match _execute_rollback rb s2 with
        | (Ok _, s3) =>
            (mkTaskResult (get_or "Unnamed Task" (name task)) false
               (length done) (length (done ++ failed :: rest)) (rs ++ [r])
               None, s3)
        | (Raise e, s3) =>
            (mkTaskResult (get_or "Unnamed Task" (name task)) false
               (length done) (length (done ++ failed :: rest)) (rs ++ [r])
               (Some e), s3)
        end
    end.
Proof.
  intros Hsteps Hdone Hexec Hfail.
  assert (Hneq : Nat.eqb (length done) (length (done ++ failed :: rest)) = false).
  { apply Nat.eqb_neq. rewrite length_app. simpl. lia. }
  unfold execute_task. rewrite Hsteps. cbn [get_or].
  rewrite (run_steps_completes done (failed :: rest) _ s1 rs _ Hdone).
  cbn [run_steps]. rewrite Hexec, Hfail. cbn [negb].
  unfold initial_result. rewrite Hsteps. cbn [get_or].
  rewrite <- (completes_length done _ s1 rs Hdone) in *.
  destruct (rollback failed) as [rb|].
  - destruct (_execute_rollback rb s2) as [[u|e] s3]; simpl.
    + now rewrite Hneq.
    + reflexivity.
  - simpl. now rewrite Hneq.
Qed.

(** C1, as the code has it. When the steps [done] have completed and the
    next step fails, the task runs the failed step's own rollback list (if it
    has one), its entries from the last to the first, and goes no further:
    the final state is the one this rollback leaves, [success] is [False],
    the completed steps are counted, and the steps after the failed one are
    not run. The rollback lists of the completed steps are not run: the
    task returns the same result in the same state whatever those lists
    hold. *)
Theorem failed_step_rolls_back_alone (task : Task) (done rest : list Step)
    (failed : Step) (w : W) (rs : list StepResult) (s1 s2 : St W)
    (r : StepResult) :
  steps task = Some (done ++ failed :: rest) ->
  Completes done (initial_state task w) rs s1 ->
  _execute_step failed s1 = (Ok r, s2) ->
  sr_success r = false ->
  exists result s3,
    execute_task task w = (result, s3)
    /\ s3 = match rollback failed with
            | Some rb => snd (run_each (rev rb) s2)
            | None => s2
            end
    /\ success result = false
    /\ steps_completed result = length done
    /\ results result = rs ++ [r]
    /\ (forall done' rest',
          Forall2 same_but_rollback done done' ->
          execute_task
            (mkTask (name task) (variables task)
                    (Some (done' ++ failed :: rest'))) w
          = (mkTaskResult (task_name result) (success result)
               (steps_completed result) (length (done' ++ failed :: rest'))
               (results result) (error result), s3)).
Proof.
  intros Hsteps Hdone Hexec Hfail.
  pose proof (execute_task_failed task done rest failed w rs s1 s2 r
                Hsteps Hdone Hexec Hfail) as Hrun.
  assert (Hother : forall done' rest',
            Forall2 same_but_rollback done done' ->
            execute_task
              (mkTask (name task) (variables task)
                      (Some (done' ++ failed :: rest'))) w
            = match rollback failed with
              | None =>
                  (mkTaskResult (get_or "Unnamed Task" (name task)) false
                     (length done') (length (done' ++ failed :: rest'))
                     (rs ++ [r]) None, s2)
              | Some rb =>
                  match _execute_rollback rb s2 with
                  | (Ok _, s3) =>
                      (mkTaskResult (get_or "Unnamed Task" (name task)) false
                         (length done') (length (done' ++ failed :: rest'))
                         (rs ++ [r]) None, s3)
                  | (Raise e, s3) =>
                      (mkTaskResult (get_or "Unnamed Task" (name task)) false
                         (length done') (length (done' ++ failed :: rest'))
                         (rs ++ [r]) (Some e), s3)
                  end
              end).
  { intros done' rest' HF.
    apply (execute_task_failed
             (mkTask (name task) (variables task)
                     (Some (done' ++ failed :: rest')))
             done' rest' failed w rs s1 s2 r eq_refl); try assumption.
    apply (completes_ignores_rollback done done' _ s1 rs HF). exact Hdone. }
  destruct (rollback failed) as [rb|].
  - unfold _execute_rollback in *.
    destruct (run_each (rev rb) s2) as [[u|e] s3] eqn:E;
      (eexists; exists s3; split; [exact Hrun|]; simpl;
       repeat split;
       intros done' rest' HF; rewrite (Hother done' rest' HF);
       now rewrite (Forall2_length HF)).
  - eexists; exists s2; split; [exact Hrun|]; simpl. repeat split.
    intros done' rest' HF. rewrite (Hother done' rest' HF).
    now rewrite (Forall2_length HF).
Qed.

End ExecutorFacts.

(* ===================================================================== *)
(** * Variable substitution: the claim and its limits *)
(* ===================================================================== *)

(** C5, as stated, fails. Substitution is one [str.replace] after the other,
    so a value that itself carries the placeholder of a later binding is
    substituted again: [{{a}}] under [a = {{b}}, b = x] becomes [x], not the
    value bound to [a]. With the same two bindings entered in the other
    order the result is [{{b}}]: the outcome depends on the order of the
    dict. *)
Lemma substitution_is_sequential :
  Template.well_formed Lab.nested_template = true
  /\ Template.plain_names Lab.nested_bindings = true
  /\ Dict.get "a" Lab.nested_bindings = Some "{{b}}"
  /\ Template.substitute Lab.nested_bindings Lab.nested_template = "{{b}}"
  /\ _resolve_variables (Template.raw Lab.nested_template) Lab.nested_bindings
     = "x"
  /\ _resolve_variables (Template.raw Lab.nested_template)
       (rev Lab.nested_bindings) = "{{b}}"
  /\ _resolve_variables (Template.raw Lab.nested_template) Lab.nested_bindings
     <> Template.substitute Lab.nested_bindings Lab.nested_template.
Proof. repeat split. discriminate. Qed.

(** X14. Whatever the template and the bindings, a text in which no
    placeholder of a bound name occurs is returned as it is. *)
Lemma resolve_variables_leaves_unbound (text : string) (variables : Dict.t) :
  (forall k v, In (k, v) variables ->
               PyStr.contains (placeholder k) text = false) ->
  _resolve_variables text variables = text.
Proof.
  induction variables as [|[k v] rest IH]; intros H; [reflexivity|].
  cbn [_resolve_variables].
  rewrite TemplateFacts.replace_placeholder.
  rewrite PyStrFacts.replace_scan_absent by (apply (H k v); now left).
  apply IH. intros k' v' Hin. apply (H k' v'). now right.
Qed.

(** C5, amended. For a template whose braces are only the delimiters of its
    placeholders, and bindings whose names and values hold no brace,
    [_resolve_variables] returns the template with every placeholder of a
    bound name replaced by the bound value and every placeholder of an
    unbound name left as it is. It is a total function: nothing is raised. *)
Theorem resolve_variables_substitutes (t : list Template.Segment)
    (variables : Dict.t) :
  Template.well_formed t = true ->
  Template.plain_bindings variables = true ->
  _resolve_variables (Template.raw t) variables
  = Template.substitute variables t.
Proof.
  revert t. induction variables as [|[k v] rest IH]; intros t Hwf Hb.
  - simpl. now rewrite TemplateFacts.substitute_nil.
  - cbn [Template.plain_bindings forallb fst snd] in Hb.
    apply andb_true_iff in Hb as [Hkv Hrest].
    apply andb_true_iff in Hkv as [Hk Hv].
    cbn [_resolve_variables].
    rewrite TemplateFacts.replace_raw by assumption.
    rewrite IH; [| now apply TemplateFacts.fill_well_formed | exact Hrest].
    now rewrite TemplateFacts.substitute_cons.
Qed.

Lemma resolve_variables_substitutes_witness :
  Template.well_formed Lab.vlan_template = true
  /\ Template.plain_bindings [("id", "100")] = true
  /\ _resolve_variables (Template.raw Lab.vlan_template) [("id", "100")]
     = Template.substitute [("id", "100")] Lab.vlan_template.
Proof.
  split; [reflexivity|]. split; [reflexivity|].
  apply (resolve_variables_substitutes Lab.vlan_template [("id", "100")]);
    reflexivity.
Defined.

Example resolve_bound :
  _resolve_variables "show vlan {{id}}" [("id", "100")] = "show vlan 100".
Proof. reflexivity. Qed.

Example resolve_unbound :
  _resolve_variables "show vlan {{missing}}" [("id", "100")]
  = "show vlan {{missing}}".
Proof. reflexivity. Qed.

Example replace_every_occurrence : PyStr.replace "ab" "X" "abab-aab" = "XX-aX".
Proof. reflexivity. Qed.

Example replace_left_to_right : PyStr.replace "aa" "X" "aaa" = "Xa".
Proof. reflexivity. Qed.

(* ===================================================================== *)
(** * The task engine on the laboratory session *)
(* ===================================================================== *)

(** C1, as stated, fails. With two completed steps that each carry a
    rollback list and a third step that fails, the device receives the three
    forward commands and then the failed step's own rollback, last entry
    first; the rollback commands of the two completed steps are never
    sent. *)
Lemma completed_steps_are_not_rolled_back :
  world (snd (execute_task (session := lab_session) Lab.rollback_task []))
  = ["vlan 10"; "vlan 20"; "bad vlan 30"; "undo b"; "undo a"]
  /\ ~ In "undo vlan 20"
        (world (snd (execute_task (session := lab_session)
                       Lab.rollback_task [])))
  /\ ~ In "undo vlan 10"
        (world (snd (execute_task (session := lab_session)
                       Lab.rollback_task [])))
  /\ success (fst (execute_task (session := lab_session)
                     Lab.rollback_task [])) = false
  /\ steps_completed (fst (execute_task (session := lab_session)
                             Lab.rollback_task [])) = 2.
Proof.
  assert (H : world (snd (execute_task (session := lab_session)
                            Lab.rollback_task []))
              = ["vlan 10"; "vlan 20"; "bad vlan 30"; "undo b"; "undo a"])
    by (vm_compute; reflexivity).
  split; [exact H|]. rewrite H.
  split; [|split; [|split; vm_compute; reflexivity]];
    simpl; intros Hin; repeat destruct Hin as [Hin|Hin]; try discriminate Hin;
    exact Hin.
Qed.

Lemma failed_step_rolls_back_alone_witness :
  steps Lab.rollback_task = Some ([Lab.vlan10; Lab.vlan20] ++ Lab.vlan30 :: [])
  /\ Completes (session := lab_session) [Lab.vlan10; Lab.vlan20]
       (initial_state Lab.rollback_task [])
       [Lab.vlan_result "vlan 10"; Lab.vlan_result "vlan 20"]
       Lab.after_vlan20
  /\ exists result s3,
      execute_task (session := lab_session) Lab.rollback_task [] = (result, s3)
      /\ world s3 = ["vlan 10"; "vlan 20"; "bad vlan 30"; "undo b"; "undo a"]
      /\ success result = false
      /\ steps_completed result = 2.
Proof.
  assert (Hdone : Completes (session := lab_session) [Lab.vlan10; Lab.vlan20]
                    (initial_state Lab.rollback_task [])
                    [Lab.vlan_result "vlan 10"; Lab.vlan_result "vlan 20"]
                    Lab.after_vlan20).
  { eapply Completes_cons; [vm_compute; reflexivity | reflexivity |].
    eapply Completes_cons; [vm_compute; reflexivity | reflexivity |].
    apply Completes_nil. }
  split; [reflexivity|]. split; [exact Hdone|].
  destruct (failed_step_rolls_back_alone (session := lab_session)
              Lab.rollback_task [Lab.vlan10; Lab.vlan20] [] Lab.vlan30 []
              [Lab.vlan_result "vlan 10"; Lab.vlan_result "vlan 20"]
              Lab.after_vlan20
              (snd (_execute_step (session := lab_session) Lab.vlan30
                      Lab.after_vlan20))
              (mkStepResult false None None
                 (Some [mkCommandResult "bad vlan 30" false ""
                          (Some "rejected")]))
              eq_refl Hdone eq_refl eq_refl)
    as (result & s3 & Hrun & Hs3 & Hsucc & Hcount & _).
  exists result, s3. split; [exact Hrun|].
  split; [rewrite Hs3; reflexivity|]. split; [exact Hsucc | exact Hcount].
Defined.


Lemma false_condition_skips_step_witness :
  steps Lab.guarded_task = Some [Lab.step_interface; Lab.step_guarded]
  /\ condition Lab.step_guarded = Some Lab.enable_is_yes
  /\ _execute_step (session := lab_session) Lab.step_interface
       (initial_state Lab.guarded_task [])
     = (Ok Lab.interface_result, snd Lab.interface_outcome)
  /\ sr_success Lab.interface_result = true
  /\ _evaluate_condition Lab.enable_is_yes (vars (snd Lab.interface_outcome))
     = false
  /\ exists result,
      execute_task (session := lab_session) Lab.guarded_task []
      = (result, snd Lab.interface_outcome)
      /\ success result = true
      /\ results result
         = [Lab.interface_result; mkStepResult true (Some "") (Some true) None]
      /\ world (snd Lab.interface_outcome) = ["interface g0/1"; "no shutdown"].
Proof.
  split; [reflexivity|]. split; [reflexivity|]. split; [reflexivity|].
  split; [reflexivity|]. split; [reflexivity|].
  destruct (false_condition_skips_step (session := lab_session)
              Lab.guarded_task Lab.step_interface Lab.step_guarded
              Lab.enable_is_yes [] Lab.interface_result
              (snd Lab.interface_outcome)
              eq_refl eq_refl eq_refl eq_refl eq_refl)
    as (result & Hrun & Hs & Hr & _).
  exists result. split; [exact Hrun|]. split; [exact Hs|].
  split; [exact Hr | reflexivity].
Defined.

Lemma save_is_rewritten_witness :
  PyStr.contains "save" (PyStr.lower "Save") = true
  /\ PyStr.contains "force" (PyStr.lower "Save") = false
  /\ auto_save "Save" = "save force"
  /\ "Save" <> "save force"
  /\ world (snd (execute_commands (session := lab_session)
                   ["display vlan"; "Save"] 30 true false false Lab.start))
     = ["display vlan"; "save force"].
Proof.
  split; [reflexivity|]. split; [reflexivity|].
  destruct (save_is_rewritten (session := lab_session) "Save" eq_refl eq_refl)
    as (Hauto & Hne & Hlist & _).
  split; [exact Hauto|]. split; [exact Hne|].
  change ["display vlan"; "Save"] with (["display vlan"] ++ "Save" :: []).
  rewrite (Hlist ["display vlan"] [] 30%Z true false false Lab.start).
  reflexivity.
Defined.

(** The command is left alone when its lower-cased text holds [force], and
    when it does not hold [save]. *)
Example save_force_is_kept :
  auto_save "SAVE FORCE" = "SAVE FORCE" /\ auto_save "display vlan" = "display vlan".
Proof. split; reflexivity. Qed.

(** A failing run stops the loop: with a device that rejects the second
    item, the third is never sent and the step fails. *)
Example loop_stops_at_first_failure :
  let step := mkStep (Some ["vlan {{id}}"]) None
                (Some (mkLoopConfig (Some (ItemsList ["a"; "bad"; "c"]))
                                    (Some "id")))
                None None None None in
  let run := _execute_step (session := lab_session) step Lab.start in
  world (snd run) = ["vlan a"; "vlan bad"]
  /\ Dict.get "id" (vars (snd run)) = Some "bad"
  /\ match fst run with Ok r => sr_success r = false | Raise _ => False end.
Proof. repeat split. Qed.

(* ===================================================================== *)
(** * Facts about the output framer *)
(* ===================================================================== *)

Module FramerFacts.

Import Framer.

Lemma exchange_app (a b : list string) :
  exchange (a ++ b) = exchange a ++ exchange b.
Proof. unfold exchange. now rewrite flat_map_app. Qed.

Lemma chunks_exchange (cs : list string) : chunks (exchange cs) = cs.
Proof.
  induction cs as [|c cs IH]; [reflexivity|].
  unfold exchange in *. cbn [flat_map].
  destruct (PyStr.contains more_marker c); simpl; now rewrite IH.
Qed.

Lemma keys_exchange (cs : list string) :
  keys (exchange cs)
  = repeat " " (length (filter (PyStr.contains more_marker) cs)).
Proof.
  induction cs as [|c cs IH]; [reflexivity|].
  unfold exchange in *. cbn [flat_map filter].
  destruct (PyStr.contains more_marker c); simpl; now rewrite IH.
Qed.

Section LoopFacts.

Context {E : Type} {channel : Channel E}.

Local Open Scope Z_scope.

(** Whatever the loop returns is what it was given, extended by the chunks
    it read, with one space sent after each chunk that shows the marker. *)
Lemma read_loop_accumulates (fuel : nat) (timeout start last : Z)
    (output : string) (cs : list string) (e : E)
    (output' : string) (trace' : list IO) (e' : E) :
  read_loop fuel timeout start last output (exchange cs) e
  = Some (output', trace', e') ->
  exists more,
    trace' = exchange (cs ++ more)
    /\ output' = (output ++ PyStr.join more)%string.
Proof.
  revert last output cs e.
  induction fuel as [|fuel IH]; intros last output cs e; [discriminate|].
  assert (Hstop : forall out cs0 e0,
            Some (out, exchange cs0, e0) = Some (output', trace', e') ->
            forall more0, cs0 = cs ++ more0 ->
                          out = (output ++ PyStr.join more0)%string ->
            exists more,
              trace' = exchange (cs ++ more)
              /\ output' = (output ++ PyStr.join more)%string).
  { intros out cs0 e0 [= <- <- _] more0 -> ->. now exists more0. }
  assert (Hgo : forall last0 out cs0 e0,
            read_loop fuel timeout start last0 out (exchange cs0) e0
            = Some (output', trace', e') ->
            forall more0, cs0 = cs ++ more0 ->
                          out = (output ++ PyStr.join more0)%string ->
            exists more,
              trace' = exchange (cs ++ more)
              /\ output' = (output ++ PyStr.join more)%string).
  { intros last0 out cs0 e0 H more0 -> ->.
    destruct (IH _ _ _ _ H) as (more & -> & ->).
    exists (more0 ++ more).
    now rewrite app_assoc, PyStrFacts.join_app, PyStrFacts.append_assoc. }
  assert (Hidle : forall last0 out cs0 e0,
            (if (3000 <? now e0 - last0) && (50 <? PyStr.len out)
             then Some (out, exchange cs0, e0)
             else read_loop fuel timeout start last0 out (exchange cs0)
                            (sleep 200 e0))
            = Some (output', trace', e') ->
            forall more0, cs0 = cs ++ more0 ->
                          out = (output ++ PyStr.join more0)%string ->
            exists more,
              trace' = exchange (cs ++ more)
              /\ output' = (output ++ PyStr.join more)%string).
  { intros last0 out cs0 e0.
    destruct ((3000 <? now e0 - last0) && (50 <? PyStr.len out));
      [apply Hstop | apply Hgo]. }
  cbn [read_loop].
  destruct (now e - start <? 1000 * timeout).
  2:{ intros H. apply (Hstop _ _ _ H []).
      - now rewrite app_nil_r.
      - simpl. now rewrite PyStrFacts.append_empty_r. }
  destruct (recv_ready e).
  2:{ intros H. apply (Hidle _ _ _ _ H []).
      - now rewrite app_nil_r.
      - simpl. now rewrite PyStrFacts.append_empty_r. }
  destruct (recv e) as [chunk e1].
  assert (Hjoin : (output ++ chunk)%string
                  = (output ++ PyStr.join [chunk])%string).
  { simpl. now rewrite PyStrFacts.append_empty_r. }
  destruct (PyStr.contains more_marker chunk) eqn:Hmark.
  - replace ((exchange cs ++ [Recv chunk]) ++ [Send " "])
      with (exchange (cs ++ [chunk])).
    + intros H. now apply (Hgo _ _ _ _ H [chunk]).
    + rewrite exchange_app. unfold exchange at 2. cbn [flat_map].
      rewrite Hmark. simpl. now rewrite <- app_assoc.
  - replace (exchange cs ++ [Recv chunk]) with (exchange (cs ++ [chunk])).
    2:{ rewrite exchange_app. unfold exchange at 2. cbn [flat_map].
        now rewrite Hmark. }
    destruct (prompt_search chunk && (50 <? PyStr.len (output ++ chunk))).
    + destruct (negb (recv_ready (sleep 500 e1))).
      * intros H. now apply (Hstop _ _ _ H [chunk]).
      * intros H. now apply (Hidle _ _ _ _ H [chunk]).
    + intros H. now apply (Hidle _ _ _ _ H [chunk]).
Qed.

(** Past the hard timeout the loop returns at once what it holds. *)
Lemma read_loop_timed_out (fuel : nat) (timeout start last : Z)
    (output : string) (trace : list IO) (e : E) :
  1000 * timeout <= now e - start ->
  read_loop (S fuel) timeout start last output trace e
  = Some (output, trace, e).
Proof.
  intros H. cbn [read_loop].
  destruct (Z.ltb_spec (now e - start) (1000 * timeout)); [lia | reflexivity].
Qed.

Context {laws : ClockLaws E}.

(** Each iteration that goes on sleeps 200 ms or more, so one iteration for
    every 200 ms of the timeout, and one more, are enough. *)
Lemma read_loop_returns (fuel : nat) (timeout start last : Z)
    (output : string) (trace : list IO) (e : E) :
  (1 <= fuel)%nat ->
  start + 1000 * timeout - now e <= 200 * (Z.of_nat fuel - 1) ->
  exists r, read_loop fuel timeout start last output trace e = Some r.
Proof.
  revert last output trace e.
  induction fuel as [|fuel IH]; intros last output trace e Hpos Hrem; [lia|].
  cbn [read_loop].
  destruct (Z.ltb_spec (now e - start) (1000 * timeout)) as [Hlt|Hge];
    [|eauto].
  assert (Hfuel : (1 <= fuel)%nat) by lia.
  assert (Hgo : forall last0 out tr d e0,
            now e <= now e0 -> 200 <= d ->
            exists r, read_loop fuel timeout start last0 out tr (sleep d e0)
                      = Some r).
  { intros last0 out tr d e0 He0 Hd. apply IH; [exact Hfuel|].
    pose proof (sleep_advances d e0 ltac:(lia)). lia. }
  assert (Hidle : forall last0 out tr e0,
            now e <= now e0 ->
            exists r,
              (if (3000 <? now e0 - last0) && (50 <? PyStr.len out)
               then Some (out, tr, e0)
               else read_loop fuel timeout start last0 out tr (sleep 200 e0))
              = Some r).
  { intros last0 out tr e0 He0.
    destruct ((3000 <? now e0 - last0) && (50 <? PyStr.len out));
      [eauto | apply Hgo; lia]. }
  destruct (recv_ready e); [|apply Hidle; lia].
  pose proof (recv_monotone e) as Hrecv.
  destruct (recv e) as [chunk e1]. cbn [snd] in Hrecv.
  destruct (PyStr.contains more_marker chunk).
  - apply Hgo; [|lia]. pose proof (send_monotone " " e1). lia.
  - destruct (prompt_search chunk && (50 <? PyStr.len (output ++ chunk))).
    + destruct (negb (recv_ready (sleep 500 e1))); [eauto|].
      apply Hidle. pose proof (sleep_advances 500 e1 ltac:(lia)). lia.
    + now apply Hidle.
Qed.

End LoopFacts.

Section Overshoot.

Context {E : Type} {channel : Channel E} {exact : ExactClock E}.

Local Open Scope Z_scope.

(** On an exact clock the loop is back less than 700 ms after the hard
    timeout: the longest an iteration sleeps is 500 ms and then 200 ms. *)
Lemma read_loop_overshoot (fuel : nat) (timeout start last : Z)
    (output : string) (trace : list IO) (e : E)
    (output' : string) (trace' : list IO) (e' : E) :
  now e < start + Z.max 0 (1000 * timeout) + 700 ->
  read_loop fuel timeout start last output trace e
  = Some (output', trace', e') ->
  now e' < start + Z.max 0 (1000 * timeout) + 700.
Proof.
  revert last output trace e.
  induction fuel as [|fuel IH]; intros last output trace e Hnow; [discriminate|].
  cbn [read_loop].
  destruct (Z.ltb_spec (now e - start) (1000 * timeout)) as [Hlt|Hge].
  2:{ now intros [= _ _ <-]. }
  assert (Hgo : forall last0 out tr d e0,
            now e0 <= now e + 500 -> d <= 200 \/ now e0 = now e /\ d <= 300 ->
            read_loop fuel timeout start last0 out tr (sleep d e0)
            = Some (output', trace', e') ->
            now e' < start + Z.max 0 (1000 * timeout) + 700).
  { intros last0 out tr d e0 He0 Hd. apply IH. rewrite sleep_exact. lia. }
  assert (Hidle : forall last0 out tr e0,
            now e0 <= now e + 500 ->
            (if (3000 <? now e0 - last0) && (50 <? PyStr.len out)
             then Some (out, tr, e0)
             else read_loop fuel timeout start last0 out tr (sleep 200 e0))
            = Some (output', trace', e') ->
            now e' < start + Z.max 0 (1000 * timeout) + 700).
  { intros last0 out tr e0 He0.
    destruct ((3000 <? now e0 - last0) && (50 <? PyStr.len out)).
    - intros [= _ _ <-]. lia.
    - apply Hgo; [exact He0 | left; lia]. }
  destruct (recv_ready e); [|apply Hidle; lia].
  pose proof (recv_instant e) as Hrecv.
  destruct (recv e) as [chunk e1]. cbn [snd] in Hrecv.
  destruct (PyStr.contains more_marker chunk).
  - apply Hgo; rewrite send_instant; [lia | right; lia].
  - destruct (prompt_search chunk && (50 <? PyStr.len (output ++ chunk))).
    + destruct (negb (recv_ready (sleep 500 e1))).
      * intros [= _ _ <-]. rewrite sleep_exact. lia.
      * apply Hidle. rewrite sleep_exact. lia.
    + apply Hidle. lia.
Qed.


End Overshoot.

End FramerFacts.

Lemma scripted_laws : Framer.ClockLaws Framer.Scripted.
Proof.
  constructor.
  - intros d e Hd. simpl. lia.
  - intros e. unfold Framer.recv. simpl.
    destruct (Framer.inbound e) as [|[t c] rest]; simpl; lia.
  - intros k e. simpl. lia.
Qed.

Lemma scripted_exact : Framer.ExactClock Framer.Scripted.
Proof.
  constructor.
  - reflexivity.
  - intros e. unfold Framer.recv. simpl.
    destruct (Framer.inbound e) as [|[t c] rest]; reflexivity.
  - reflexivity.
Qed.

Section FramerClaims.

Import Framer.

Context {E : Type} {channel : Channel E} {laws : ClockLaws E}.

Local Open Scope Z_scope.

Lemma handle_pagination_returns (timeout : Z) (e : E) :
  exists cs e',
    _handle_pagination timeout e = Some (PyStr.join cs, exchange cs, e').
Proof.
  unfold _handle_pagination.
  destruct (FramerFacts.read_loop_returns (enough timeout) timeout (now e)
              (now e) "" [] e) as ([[out tr] e'] & Hr).
  - unfold enough. lia.
  - unfold enough. rewrite Nat2Z.inj_succ. lia.
  - destruct (FramerFacts.read_loop_accumulates (enough timeout) timeout
                (now e) (now e) "" [] e out tr e' Hr) as (more & -> & ->).
    exists more, e'. exact Hr.
Qed.

(** C7. Whatever the channel delivers and whenever (a clock that does not
    run backwards and sleeps that last as long as asked are all that is
    assumed), [_handle_pagination] comes back, and what it returns is the
    buffer it has accumulated: the chunks it read, joined in order. An
    iteration that starts when the hard timeout has passed returns that
    buffer at once, as an ordinary value. *)
Theorem hard_timeout_returns (timeout : Z) (e : E) :
  (exists cs e',
      _handle_pagination timeout e = Some (PyStr.join cs, exchange cs, e'))
  /\ (forall fuel start last output trace e0,
         1000 * timeout <= now e0 - start ->
         read_loop (S fuel) timeout start last output trace e0
         = Some (output, trace, e0)).
Proof.
  split.
  - apply handle_pagination_returns.
  - intros. now apply FramerFacts.read_loop_timed_out.
Qed.

(** C2, as the code has it. [_handle_pagination] returns the chunks it read,
    joined in order with the markers left in, and it sends one space for
    each chunk in which the marker appears, right after reading that chunk:
    one key per chunk that shows the marker, not one per occurrence. *)
Theorem one_key_per_marked_chunk (timeout : Z) (e : E) :
  exists cs e',
    _handle_pagination timeout e = Some (PyStr.join cs, exchange cs, e')
    /\ chunks (exchange cs) = cs
    /\ keys (exchange cs)
       = repeat " " (length (filter (PyStr.contains more_marker) cs)).
Proof.
  destruct (handle_pagination_returns timeout e) as (cs & e' & H).
  exists cs, e'. split; [exact H|]. split.
  - apply FramerFacts.chunks_exchange.
  - apply FramerFacts.keys_exchange.
Qed.

End FramerClaims.

Lemma hard_timeout_returns_witness :
  (exists cs e',
      Framer._handle_pagination 2 Framer.silent_device
      = Some (PyStr.join cs, Framer.exchange cs, e'))
  /\ Framer.read_loop 1 2 0 0 "" [] (Framer.mkScripted 2000 [] [])
     = Some ("", [], Framer.mkScripted 2000 [] []).
Proof.
  destruct (hard_timeout_returns (laws := scripted_laws) 2
              Framer.silent_device) as [H1 H2].
  split; [exact H1|]. apply H2. simpl. lia.
Defined.

(** A device that never sends anything: the loop gives up after the two
    seconds it was given and returns the empty buffer. *)
Example silent_device_times_out :
  Framer._handle_pagination 2 Framer.silent_device
  = Some ("", [], Framer.mkScripted 2000 [] []).
Proof. vm_compute. reflexivity. Qed.

Lemma one_key_per_marked_chunk_witness :
  exists cs e',
    Framer._handle_pagination 10 Framer.paged_device
    = Some (PyStr.join cs, Framer.exchange cs, e')
    /\ Framer.chunks (Framer.exchange cs) = cs
    /\ Framer.keys (Framer.exchange cs)
       = repeat " " (length (filter (PyStr.contains Framer.more_marker) cs)).
Proof.
  exact (one_key_per_marked_chunk (laws := scripted_laws) 10
           Framer.paged_device).
Defined.

(** C2, as stated, fails. A reply that shows the marker twice and ends in a
    prompt, read as one chunk, is answered by one space, not two; and a
    marker that the transport cuts in two, so that no chunk shows it whole,
    is answered by no key at all. *)
Lemma one_key_for_two_markers :
  (PyStr.count Framer.more_marker Framer.two_markers = 2%nat
   /\ Framer.prompt_search Framer.two_markers = true
   /\ exists e',
       Framer._handle_pagination 10 Framer.one_chunk_device
       = Some (Framer.two_markers,
               [Framer.Recv Framer.two_markers; Framer.Send " "], e')
       /\ Framer.sent e' = [" "])
  /\
  (PyStr.count Framer.more_marker (Framer.cut_head ++ Framer.cut_tail) = 1%nat
   /\ Framer.prompt_search Framer.cut_tail = true
   /\ exists e',
       Framer._handle_pagination 10 Framer.cut_device
       = Some ((Framer.cut_head ++ Framer.cut_tail)%string,
               [Framer.Recv Framer.cut_head; Framer.Recv Framer.cut_tail], e')
       /\ Framer.sent e' = []).
Proof.
  split; (split; [reflexivity|]; split; [reflexivity|]);
    eexists; (split; [vm_compute; reflexivity | reflexivity]).
Qed.

(** The usual paging: one marker at the end of a chunk, one space, and the
    loop stops on the prompt of the next chunk. *)
Example paged_reply :
  Framer._handle_pagination 10 Framer.paged_device
  = Some ((Framer.page_one ++ Framer.page_two)%string,
          [Framer.Recv Framer.page_one; Framer.Send " ";
           Framer.Recv Framer.page_two],
          Framer.mkScripted 1000 [] [" "]).
Proof. vm_compute. reflexivity. Qed.

(* ===================================================================== *)
(** * The batch manager *)
(* ===================================================================== *)

Lemma map_nth_seq {A B : Type} (f : A -> B) (l : list A) (d : A) :
  map (fun i => f (nth i l d)) (seq 0 (length l)) = map f l.
Proof.
  induction l as [|a l IH]; [reflexivity|].
  cbn [length seq map nth]. rewrite <- seq_shift, map_map. cbn [nth].
  now rewrite IH.
Qed.

(** Case analysis on the next call of a run. *)
Ltac next_call H :=
  match type of H with
  | context [match ?x with _ => _ end] =>
      destruct x eqn:?; try discriminate H
  end.

(** On a quiet console, the next call of the console returns. *)
Ltac quiet_call Hq :=
  match goal with
  | |- context [Rich.render ?o ?w] =>
      let w' := fresh "w" in
      let Hr := fresh "Hr" in
      destruct (Hq o w) as [w' Hr]; rewrite Hr; clear Hr
  end.

Lemma quiet_plain_console (W : Type) : Rich.quiet (@Rich.plain_console W).
Proof. intros o w. now exists w. Qed.

Section BatchFacts.

Import Batch.

Context {W Conn Data : Type} {network : Network W Conn Data}
        {console : Rich.Console W}.

(** The only record the [try] block returns early is that of a refused
    connection. *)
Lemma attempt_refused (info : DeviceInfo) (name : string) (w w' : W)
    (r : Result Data) :
  attempt info name w = (Ok (inl r), w') ->
  r = mkResult (label info) name "failed" "连接失败" None.
Proof.
  unfold attempt, connect_device. intros H.
  repeat next_call H. now injection H as <- _.
Qed.

(** What [execute_on_device] returns is a record of that device under one of
    the three statuses. *)
Lemma execute_on_device_record (d : Device) (name : string) (w w' : W)
    (r : Result Data) :
  execute_on_device d name w = (Ok r, w') ->
  r_host r = host_of d /\ r_operation r = name /\ known_status r.
Proof.
  destruct d as [info|ty]; [|discriminate].
  unfold execute_on_device, on_exception, known_status. cbn [host_of].
  intros H.
  destruct (attempt info name w) as [[[r0|out]|e] w1] eqn:Ha.
  - injection H as <- <-. apply attempt_refused in Ha. subst r0.
    cbn. auto 6.
  - destruct (Rich.console_print _ w1) as [[u|e] w2].
    + injection H as <- <-. cbn. auto 6.
    + destruct (Rich.console_print _ w2) as [[u|e'] w3]; [|discriminate].
      injection H as <- <-. cbn. auto 6.
  - destruct (Rich.console_print _ w1) as [[u|e'] w2]; [|discriminate].
    injection H as <- <-. cbn. auto 6.
Qed.

Lemma execute_on_device_quiet (info : DeviceInfo) (name : string) (w : W) :
  Rich.quiet console ->
  exists r w', execute_on_device (Mapping info) name w = (Ok r, w').
Proof.
  intros Hq.
  unfold execute_on_device, on_exception, attempt, connect_device,
    Rich.console_print.
  repeat first [ quiet_call Hq
               | match goal with
                 | |- context [match host info with _ => _ end] =>
                     destruct (host info)
                 | |- context [ConnectHandler ?h ?d ?w] =>
                     destruct (ConnectHandler h d w) as [[?|?] ?]
                 | |- context [operation ?c ?w] =>
                     destruct (operation c w) as [[?|?] ?]
                 | |- context [disconnect ?c ?w] =>
                     destruct (disconnect c w) as [[?|?] ?]
                 end ];
    eauto.
Qed.

Lemma print_each_quiet (texts : list string) (w : W) :
  Rich.quiet console -> exists w', Rich.print_each texts w = (Ok tt, w').
Proof.
  intros Hq. revert w. induction texts as [|t texts IH]; intros w.
  - now exists w.
  - cbn [Rich.print_each]. unfold Rich.console_print.
    quiet_call Hq. apply IH.
Qed.

Lemma display_summary_quiet (rs : list (Result Data)) (duration : string)
    (w : W) :
  Rich.quiet console -> exists w', _display_summary rs duration w = (Ok tt, w').
Proof.
  intros Hq. unfold _display_summary.
  match goal with
  | |- context [Rich.print_each ?l w] =>
      destruct (print_each_quiet l w Hq) as [w1 ->]
  end.
  destruct rs as [|r rs]; [now exists w1|].
  unfold Rich.console_print. quiet_call Hq. apply Hq.
Qed.

Lemma announce_quiet (devices : list Device) (name : string) (parallel : bool)
    (w : W) :
  Rich.quiet console -> exists w', announce devices name parallel w = (Ok tt, w').
Proof.
  intros Hq. unfold announce. quiet_call Hq. now apply print_each_quiet.
Qed.

Lemma run_serial_record (devices : list Device) (idx count : nat)
    (name : string) (w w' : W) (rs : list (Result Data)) :
  run_serial devices idx count name w = (Ok rs, w') ->
  map r_host rs = map host_of devices /\ Forall known_status rs.
Proof.
  revert idx w rs. induction devices as [|d devices IH]; intros idx w rs.
  - cbn. intros [= <- _]. split; constructor.
  - cbn [run_serial]. intros H.
    destruct (Rich.console_print _ w) as [[u|e] w0]; [|discriminate].
    destruct (execute_on_device d name w0) as [[r|e] w1] eqn:Hd;
      [|discriminate].
    destruct (run_serial devices (S idx) count name w1) as [[rs'|e] w2]
      eqn:Hrest; [|discriminate].
    injection H as <- <-.
    apply execute_on_device_record in Hd as (Hh & _ & Hk).
    destruct (IH _ _ _ Hrest) as [Hhs Hks].
    split; [cbn; now rewrite Hh, Hhs | now constructor].
Qed.

Lemma run_serial_quiet (devices : list Device) (idx count : nat)
    (name : string) (w : W) :
  Rich.quiet console -> forallb is_mapping devices = true ->
  exists rs w', run_serial devices idx count name w = (Ok rs, w').
Proof.
  intros Hq. revert idx w. induction devices as [|d devices IH];
    intros idx w Hm.
  - now exists [], w.
  - cbn [forallb] in Hm. apply andb_true_iff in Hm as [Hd Hm].
    destruct d as [info|ty]; [|discriminate].
    cbn [run_serial]. unfold Rich.console_print. quiet_call Hq.
    destruct (execute_on_device_quiet info name w0 Hq) as (r & w1 & ->).
    destruct (IH (S idx) w1 Hm) as (rs & w2 & ->).
    now exists (r :: rs), w2.
Qed.

Lemma run_completed_record (devices : list Device) (name : string)
    (completion : list nat) (w w' : W) (rs : list (Result Data)) :
  Forall (fun i => i < length devices) completion ->
  run_completed devices name completion w = (Ok rs, w') ->
  map r_host rs
  = map (fun i => host_of (nth i devices (Other ""))) completion
  /\ Forall known_status rs.
Proof.
  intros HF. revert w rs.
  induction HF as [|i completion Hi _ IH]; intros w rs.
  - cbn. intros [= <- _]. split; constructor.
  - cbn [run_completed].
    destruct (nth_error devices i) as [d|] eqn:Hd.
    2:{ apply nth_error_None in Hd. lia. }
    intros H.
    destruct (execute_on_device d name w) as [[r|e] w1] eqn:Hrun;
      [|discriminate].
    destruct (Rich.render Rich.ProgressAdvance w1) as [[u|e] w2];
      [|discriminate].
    destruct (run_completed devices name completion w2) as [[rs'|e] w3]
      eqn:Hrest; [|discriminate].
    injection H as <- <-.
    apply execute_on_device_record in Hrun as (Hh & _ & Hk).
    destruct (IH _ _ Hrest) as [Hhs Hks].
    split; [|now constructor].
    cbn. rewrite Hh, Hhs. f_equal. f_equal. symmetry.
    now apply nth_error_nth.
Qed.

Lemma run_completed_quiet (devices : list Device) (name : string)
    (completion : list nat) (w : W) :
  Rich.quiet console -> forallb is_mapping devices = true ->
  exists rs w', run_completed devices name completion w = (Ok rs, w').
Proof.
  intros Hq Hm. revert w. induction completion as [|i completion IH];
    intros w.
  - now exists [], w.
  - cbn [run_completed].
    destruct (nth_error devices i) as [d|] eqn:Hd; [|apply IH].
    assert (Hd' : is_mapping d = true).
    { rewrite forallb_forall in Hm. apply Hm.
      eapply nth_error_In; eassumption. }
    destruct d as [info|ty]; [|discriminate].
    destruct (execute_on_device_quiet info name w Hq) as (r & w1 & ->).
    quiet_call Hq.
    destruct (IH w0) as (rs & w2 & ->).
    now exists (r :: rs), w2.
Qed.

(** A parallel run that returns a list has gone through its loop. *)
Lemma run_parallel_returns (devices : list Device) (name : string)
    (max_workers : Z) (completion : list nat) (w w' : W)
    (rs : list (Result Data)) :
  run_parallel devices name max_workers completion w = (Ok rs, w') ->
  exists w1 w2, run_completed devices name completion w1 = (Ok rs, w2).
Proof.
  unfold run_parallel. intros H.
  destruct (Rich.render Rich.ProgressStart w) as [[u|e] w1]; [|discriminate].
  destruct (Rich.render (Rich.ProgressTask _) w1) as [[u'|e] w2].
  - destruct (max_workers <=? 0)%Z.
    + destruct (Rich.render Rich.ProgressStop w2) as [[?|?] ?]; discriminate.
    + destruct (run_completed devices name completion w2) as [r w3] eqn:Hrun.
      destruct (Rich.render Rich.ProgressStop w3) as [[?|?] ?];
        [|discriminate].
      injection H as -> _. now exists w2, w3.
  - destruct (Rich.render Rich.ProgressStop w2) as [[?|?] ?]; discriminate.
Qed.

Lemma run_parallel_quiet (devices : list Device) (name : string)
    (max_workers : Z) (completion : list nat) (w : W) :
  Rich.quiet console -> forallb is_mapping devices = true ->
  (0 < max_workers)%Z ->
  exists rs w', run_parallel devices name max_workers completion w = (Ok rs, w').
Proof.
  intros Hq Hm Hw. unfold run_parallel.
  quiet_call Hq. quiet_call Hq.
  destruct (Z.leb_spec max_workers 0) as [Hle|_]; [lia|].
  destruct (run_completed_quiet devices name completion w1 Hq Hm)
    as (rs & w2 & ->).
  quiet_call Hq. now exists rs, w3.
Qed.

(** What a batch that returns a list has run. *)
Lemma batch_execute_returns (devices : list Device) (name : string)
    (parallel : bool) (max_workers : Z) (completion : list nat) (w w' : W)
    (rs : list (Result Data)) :
  batch_execute devices name parallel max_workers completion w = (Ok rs, w') ->
  (devices = [] /\ rs = [])
  \/ (parallel = true
      /\ exists w1 w2, run_completed devices name completion w1 = (Ok rs, w2))
  \/ (parallel = false
      /\ exists w1 w2,
          run_serial devices 1 (length devices) name w1 = (Ok rs, w2)).
Proof.
  unfold batch_execute. intros H.
  destruct devices as [|d0 devices'] eqn:Hdev.
  - left. destruct (Rich.console_print _ w) as [[?|?] ?]; [|discriminate].
    injection H as <- _. now split.
  - rewrite <- Hdev in *. right.
    destruct (announce devices name parallel w) as [[u|e] w1]; [|discriminate].
    destruct parallel.
    + left. split; [reflexivity|].
      destruct (run_parallel devices name max_workers completion w1)
        as [[rs'|e] w2] eqn:Hrun; [|discriminate].
      destruct (_display_summary rs' (elapsed w1 w2) w2) as [[?|?] ?];
        [|discriminate].
      injection H as <- _. eapply run_parallel_returns; eassumption.
    + right. split; [reflexivity|].
      destruct (run_serial devices 1 (length devices) name w1)
        as [[rs'|e] w2] eqn:Hrun; [|discriminate].
      destruct (_display_summary rs' (elapsed w1 w2) w2) as [[?|?] ?];
        [|discriminate].
      injection H as <- _. now exists w1, w2.
Qed.

Lemma batch_execute_quiet (devices : list Device) (name : string)
    (parallel : bool) (max_workers : Z) (completion : list nat) (w : W) :
  Rich.quiet console -> forallb is_mapping devices = true ->
  (parallel = true -> (0 < max_workers)%Z) ->
  exists rs w',
    batch_execute devices name parallel max_workers completion w = (Ok rs, w').
Proof.
  intros Hq Hm Hw. unfold batch_execute.
  destruct devices as [|d0 devices'] eqn:Hdev.
  - unfold Rich.console_print. quiet_call Hq. now exists [], w0.
  - rewrite <- Hdev in *.
    destruct (announce_quiet devices name parallel w Hq) as [w1 ->].
    assert (Hrun : exists rs w2,
               (if parallel
                then run_parallel devices name max_workers completion w1
                else run_serial devices 1 (length devices) name w1)
               = (Ok rs, w2)).
    { destruct parallel.
      - apply run_parallel_quiet; auto.
      - now apply run_serial_quiet. }
    destruct Hrun as (rs & w2 & ->).
    destruct (display_summary_quiet rs (elapsed w1 w2) w2 Hq) as [w3 ->].
    now exists rs, w3.
Qed.

(** Records with known statuses are counted once by the summary. *)
Lemma counts_add_up (rs : list (Result Data)) :
  Forall known_status rs ->
  success_count rs + failed_count rs = total rs.
Proof.
  unfold success_count, failed_count, total.
  induction 1 as [|r rs Hr _ IH]; [reflexivity|].
  cbn [filter length]. unfold known_status in Hr. cbn [In] in Hr.
  destruct Hr as [Hr|[Hr|[Hr|[]]]]; rewrite <- Hr;
    match goal with
    | |- context [String.eqb ?a "success"] =>
        let b := eval vm_compute in (String.eqb a "success") in
        change (String.eqb a "success") with b
    end;
    match goal with
    | |- context [String.eqb ?a "failed"] =>
        let b := eval vm_compute in (String.eqb a "failed") in
        change (String.eqb a "failed") with b
    end;
    match goal with
    | |- context [String.eqb ?a "error"] =>
        let b := eval vm_compute in (String.eqb a "error") in
        change (String.eqb a "error") with b
    end;
    cbn [orb length]; lia.
Qed.

(** The hosts of the records of a batch that returns. *)
Lemma batch_execute_hosts (devices : list Device) (name : string)
    (parallel : bool) (max_workers : Z) (completion : list nat) (w w' : W)
    (rs : list (Result Data)) :
  (parallel = true -> Permutation completion (seq 0 (length devices))) ->
  batch_execute devices name parallel max_workers completion w = (Ok rs, w') ->
  Permutation (map r_host rs) (map host_of devices)
  /\ (parallel = false -> map r_host rs = map host_of devices)
  /\ Forall known_status rs.
Proof.
  intros Hperm H.
  destruct (batch_execute_returns _ _ _ _ _ _ _ _ H)
    as [[-> ->] | [(-> & w1 & w2 & Hrun) | (-> & w1 & w2 & Hrun)]].
  - repeat split; constructor.
  - specialize (Hperm eq_refl).
    assert (HF : Forall (fun i => i < length devices) completion).
    { apply Forall_forall. intros i Hi.
      apply (Permutation_in _ Hperm) in Hi. apply in_seq in Hi. lia. }
    destruct (run_completed_record devices name completion w1 w2 rs HF Hrun)
      as [Hh Hk].
    split; [|split; [discriminate | exact Hk]].
    rewrite Hh. rewrite <- (map_nth_seq host_of devices (Other "")).
    now apply Permutation_map.
  - destruct (run_serial_record _ _ _ _ _ _ _ Hrun) as [Hh Hk].
    split; [now rewrite Hh|]. split; [intros _; exact Hh | exact Hk].
Qed.

(** X18. The counts of the batch summary add up: whenever a batch returns
    its list, in either mode, the list has one record per device, each
    under one of the statuses [success], [failed] and [error], and the
    number of successes plus the number of failures is the total. On a
    console that renders whatever it is given, a batch over mappings (with a
    positive [max_workers] when parallel) does return its list. *)
Theorem summary_counts_add_up (devices : list Device) (name : string)
    (parallel : bool) (max_workers : Z) (completion : list nat) (w : W) :
  (parallel = true -> Permutation completion (seq 0 (length devices))) ->
  (forall rs w',
     batch_execute devices name parallel max_workers completion w
     = (Ok rs, w') ->
     total rs = length devices
     /\ Forall known_status rs
     /\ success_count rs + failed_count rs = total rs)
  /\ (Rich.quiet console ->
      forallb is_mapping devices = true ->
      (parallel = true -> (0 < max_workers)%Z) ->
      exists rs w',
        batch_execute devices name parallel max_workers completion w
        = (Ok rs, w')).
Proof.
  intros Hperm. split.
  - intros rs w' H.
    destruct (batch_execute_hosts _ _ _ _ _ _ _ _ Hperm H) as (Hp & _ & Hk).
    split; [|split; [exact Hk | now apply counts_add_up]].
    unfold total. apply Permutation_length in Hp.
    now rewrite !length_map in Hp.
  - apply batch_execute_quiet.
Qed.

(** X25. On a console that renders whatever it is given, the run on a
    device that is a mapping never raises, and a batch over mappings (with a
    positive [max_workers] when parallel) returns one record per device of
    its list: in serial mode in the order of the list, in parallel mode in
    the order in which the scheduler completes the futures. The hosts of the
    records are the hosts of the devices. *)
Theorem quiet_batch_gives_one_result_per_device (devices : list Device)
    (name : string) (parallel : bool) (max_workers : Z)
    (completion : list nat) (w : W) :
  Rich.quiet console ->
  forallb is_mapping devices = true ->
  (parallel = true -> (0 < max_workers)%Z) ->
  (parallel = true -> Permutation completion (seq 0 (length devices))) ->
  (forall info w0,
     exists r w1,
       execute_on_device (Mapping info) name w0 = (Ok r, w1)
       /\ r_host r = label info /\ known_status r)
  /\ exists rs w',
      batch_execute devices name parallel max_workers completion w
      = (Ok rs, w')
      /\ length rs = length devices
      /\ Permutation (map r_host rs) (map host_of devices)
      /\ (parallel = false -> map r_host rs = map host_of devices).
Proof.
  intros Hq Hm Hw Hperm. split.
  - intros info w0.
    destruct (execute_on_device_quiet info name w0 Hq) as (r & w1 & Hrun).
    exists r, w1. split; [exact Hrun|].
    apply execute_on_device_record in Hrun as (Hh & _ & Hk). now split.
  - destruct (batch_execute_quiet devices name parallel max_workers
                completion w Hq Hm Hw) as (rs & w' & Hrun).
    destruct (batch_execute_hosts _ _ _ _ _ _ _ _ Hperm Hrun)
      as (Hp & Hs & _).
    exists rs, w'. split; [exact Hrun|]. split; [|split; assumption].
    apply Permutation_length in Hp. now rewrite !length_map in Hp.
Qed.

End BatchFacts.

(** C4. The handler of [execute_on_device] prints the text of the exception
    as console markup. On the laboratory network, whose operation on the
    host [tagged] raises with the text [boom [/x]], and on a console that
    refuses that closing tag as rich does, the run on the device raises to
    its caller instead of returning the device's [error] record, and the
    serial batch stops there: the device after it is never connected. On
    the same console, an operation that raises with a text without tags
    gives the [error] record. *)
Theorem device_failure_escapes_the_handler :
  (exists e,
     Batch.execute_on_device (network := Batch.lab_network)
       (console := Rich.strict_console)
       (Batch.Mapping (Batch.mkDeviceInfo (Some "tagged") None)) "backup" 0
     = (Raise e, 1))
  /\ (exists e,
        Batch.run_serial (network := Batch.lab_network)
          (console := Rich.strict_console) Batch.tagged_devices 1 3 "backup" 0
        = (Raise e, 2))
  /\ Batch.execute_on_device (network := Batch.lab_network)
       (console := Rich.strict_console)
       (Batch.Mapping (Batch.mkDeviceInfo (Some "flaky") None)) "backup" 0
     = (Ok (Batch.mkResult "flaky" "backup" "error" "socket closed" None), 1).
Proof.
  split; [|split].
  - eexists. vm_compute. reflexivity.
  - eexists. vm_compute. reflexivity.
  - vm_compute. reflexivity.
Qed.

(** C3. For the same reason a batch need not return a list. On the
    laboratory network and a console that refuses the closing tag, the batch
    over three devices, the second of which fails with the text
    [boom [/x]], raises in serial and in parallel mode and returns no record
    at all. On the same console, the batch over four devices whose failures
    carry no tag returns its four records. *)
Theorem batch_returns_no_list_when_the_handler_raises :
  (exists e w',
     Batch.batch_execute (network := Batch.lab_network)
       (console := Rich.strict_console) Batch.tagged_devices "backup" false 5
       [] 0
     = (Raise e, w'))
  /\ (exists e w',
        Batch.batch_execute (network := Batch.lab_network)
          (console := Rich.strict_console) Batch.tagged_devices "backup" true
          5 [0; 1; 2] 0
        = (Raise e, w'))
  /\ exists rs w',
      Batch.batch_execute (network := Batch.lab_network)
        (console := Rich.strict_console) Batch.lab_devices "backup" false 5
        [] 0
      = (Ok rs, w')
      /\ map Batch.status rs = ["success"; "failed"; "error"; "error"].
Proof.
  split; [|split].
  - eexists. eexists. vm_compute. reflexivity.
  - eexists. eexists. vm_compute. reflexivity.
  - eexists. eexists. vm_compute. split; reflexivity.
Qed.

Lemma summary_counts_add_up_witness :
  (false = true -> Permutation [] (seq 0 (length Batch.lab_devices)))
  /\ exists rs w',
      Batch.batch_execute (network := Batch.lab_network)
        (console := Rich.plain_console) Batch.lab_devices "backup" false 5 []
        0
      = (Ok rs, w')
      /\ Batch.total rs = 4
      /\ Batch.success_count rs = 1
      /\ Batch.failed_count rs = 3.
Proof.
  assert (Hp : false = true ->
               Permutation [] (seq 0 (length Batch.lab_devices)))
    by discriminate.
  split; [exact Hp|].
  destruct (summary_counts_add_up (network := Batch.lab_network)
              (console := Rich.plain_console)
              Batch.lab_devices "backup" false 5 [] 0 Hp)
    as [Hcount Hreturns].
  destruct (Hreturns (quiet_plain_console nat) eq_refl
              (fun H => ltac:(discriminate H)))
    as (rs & w' & Hrun).
  destruct (Hcount rs w' Hrun) as (Htotal & _).
  exists rs, w'. split; [exact Hrun|]. split; [exact Htotal|].
  vm_compute in Hrun. injection Hrun as <- _. split; reflexivity.
Defined.

Lemma quiet_batch_gives_one_result_per_device_witness :
  Rich.quiet (@Rich.plain_console nat)
  /\ forallb Batch.is_mapping Batch.lab_devices = true
  /\ (true = true ->
      Permutation [2; 0; 3; 1] (seq 0 (length Batch.lab_devices)))
  /\ exists rs w',
      Batch.batch_execute (network := Batch.lab_network)
        (console := Rich.plain_console) Batch.lab_devices "backup" true 5
        [2; 0; 3; 1] 0
      = (Ok rs, w')
      /\ length rs = 4
      /\ map Batch.status rs = ["error"; "success"; "error"; "failed"].
Proof.
  assert (Hp : true = true ->
               Permutation [2; 0; 3; 1] (seq 0 (length Batch.lab_devices))).
  { intros _. simpl.
    apply (perm_trans (l' := [0; 2; 3; 1])); [apply perm_swap|].
    apply perm_skip.
    apply (perm_trans (l' := [2; 1; 3])); [apply perm_skip, perm_swap|].
    apply (perm_trans (l' := [1; 2; 3])); [apply perm_swap|].
    apply Permutation_refl. }
  split; [apply quiet_plain_console|]. split; [reflexivity|].
  split; [exact Hp|].
  destruct (quiet_batch_gives_one_result_per_device
              (network := Batch.lab_network) (console := Rich.plain_console)
              Batch.lab_devices "backup" true 5 [2; 0; 3; 1] 0
              (quiet_plain_console nat) eq_refl (fun _ => eq_refl) Hp)
    as (_ & rs & w' & Hrun & Hlen & _).
  exists rs, w'. split; [exact Hrun|]. split; [exact Hlen|].
  vm_compute in Hrun. injection Hrun as <- _. reflexivity.
Defined.

(* ===================================================================== *)
(** * Device types *)
(* ===================================================================== *)

Module DeviceTypeFacts.

Import DeviceType.

Lemma lower_ascii_idempotent (c : ascii) :
  PyStr.lower_ascii (PyStr.lower_ascii c) = PyStr.lower_ascii c.
Proof.
  destruct c as [b0 b1 b2 b3 b4 b5 b6 b7].
  destruct b0, b1, b2, b3, b4, b5, b6, b7; reflexivity.
Qed.

Lemma lower_idempotent (s : string) : PyStr.lower (PyStr.lower s) = PyStr.lower s.
Proof.
  induction s as [|c s IH]; [reflexivity|].
  cbn [PyStr.lower]. now rewrite lower_ascii_idempotent, IH.
Qed.

Lemma get_some_in (k v : string) (d : Dict.t) :
  Dict.get k d = Some v -> In (k, v) d.
Proof.
  induction d as [|[k' v'] d IH]; [discriminate|].
  cbn [Dict.get]. destruct (String.eqb k k') eqn:E.
  - apply String.eqb_eq in E. intros [= ->]. subst. now left.
  - intros H. right. now apply IH.
Qed.

Lemma existsb_eqb_in (x : string) (l : list string) :
  existsb (String.eqb x) l = true <-> In x l.
Proof.
  rewrite existsb_exists. split.
  - intros (y & Hy & E). apply String.eqb_eq in E. now subst.
  - intros H. exists x. split; [exact H | apply String.eqb_refl].
Qed.

(** The normal form of a non-empty type, by its lower-cased text. *)
Lemma normalize_lowered (c : ascii) (s : string) :
  _normalize_device_type (Some (String c s))
  = get_or (PyStr.lower (String c s))
           (Dict.get (PyStr.lower (String c s)) DEVICE_TYPE_MAP).
Proof. reflexivity. Qed.

Lemma normalize_of_lowered (l : string) :
  l <> EmptyString -> PyStr.lower l = l ->
  _normalize_device_type (Some l) = get_or l (Dict.get l DEVICE_TYPE_MAP).
Proof.
  intros Hne Hl. destruct l as [|c l]; [congruence|].
  rewrite normalize_lowered. now rewrite Hl.
Qed.

(** One goal per entry [(k, v)] of a table that [H] says holds the pair of
    [key] and a variable: the variable becomes [v], and [Hkey : k = key]. *)
Ltac table_cases H Hkey :=
  cbn [In] in H;
  repeat (destruct H as [H|H]; [injection H as Hkey H; subst|]);
  [..|destruct H].

End DeviceTypeFacts.

(** X1. [_normalize_device_type] gives a normal form: applying it to its own
    result changes nothing, and the letter case of the type does not
    matter. *)
Theorem normalize_device_type_is_stable (device_type : option string) :
  DeviceType._normalize_device_type
    (Some (DeviceType._normalize_device_type device_type))
  = DeviceType._normalize_device_type device_type
  /\ DeviceType._normalize_device_type (option_map PyStr.lower device_type)
     = DeviceType._normalize_device_type device_type.
Proof.
  destruct device_type as [[|c s]|]; [split; reflexivity | | split; reflexivity].
  assert (Hl : PyStr.lower (PyStr.lower (String c s)) = PyStr.lower (String c s))
    by apply DeviceTypeFacts.lower_idempotent.
  assert (Hne : PyStr.lower (String c s) <> EmptyString) by discriminate.
  split.
  - rewrite DeviceTypeFacts.normalize_lowered.
    destruct (Dict.get (PyStr.lower (String c s)) DeviceType.DEVICE_TYPE_MAP)
      as [v|] eqn:E; cbn [get_or].
    + apply DeviceTypeFacts.get_some_in in E.
      unfold DeviceType.DEVICE_TYPE_MAP in E.
      DeviceTypeFacts.table_cases E Hkey; reflexivity.
    + rewrite DeviceTypeFacts.normalize_of_lowered by assumption.
      now rewrite E.
  - cbn [option_map].
    rewrite DeviceTypeFacts.normalize_of_lowered by assumption.
    now rewrite DeviceTypeFacts.normalize_lowered.
Qed.

(** X2. [connect] opens an interactive shell exactly for the types that
    read, in any letter case, [h3c], [hp], [hp_comware] or [huawei]; a
    missing or empty type gets the exec mode. *)
Theorem shell_mode_by_type (device_type : option string) :
  DeviceType.invoke_shell device_type = true
  <-> exists dt,
      device_type = Some dt
      /\ In (PyStr.lower dt) ["h3c"; "hp"; "hp_comware"; "huawei"].
Proof.
  destruct device_type as [[|c s]|].
  - split; [discriminate|]. intros (dt & [= <-] & H). cbn in H.
    repeat (destruct H as [H|H]; [discriminate H|]). destruct H.
  - unfold DeviceType.invoke_shell.
    rewrite DeviceTypeFacts.normalize_lowered.
    assert (Hiff : forall l,
              existsb (String.eqb
                         (get_or l (Dict.get l DeviceType.DEVICE_TYPE_MAP)))
                      DeviceType.INVOKE_SHELL_DEVICES = true
              <-> In l ["h3c"; "hp"; "hp_comware"; "huawei"]).
    { intros l.
      destruct (Dict.get l DeviceType.DEVICE_TYPE_MAP) as [v|] eqn:E;
        cbn [get_or]; [|apply DeviceTypeFacts.existsb_eqb_in].
      apply DeviceTypeFacts.get_some_in in E.
      unfold DeviceType.DEVICE_TYPE_MAP in E.
      DeviceTypeFacts.table_cases E Hkey;
        (split; [intros Hshell; first [discriminate Hshell | cbn; tauto]
                | intros Hin; first [reflexivity
                                    | cbn in Hin;
                                      repeat (destruct Hin as [Hin|Hin];
                                              [discriminate Hin|]);
                                      destruct Hin]]). }
    rewrite Hiff. split.
    + intros H. now exists (String c s).
    + now intros (dt & [= <-] & H).
  - split; [discriminate|]. now intros (dt & [= ] & _).
Qed.

(* ===================================================================== *)
(** * More on the executor *)
(* ===================================================================== *)

(** Substitution on the text of a well-formed template, under bindings
    without braces, is substitution on the template. *)
Lemma resolve_template (t : list Template.Segment) (variables : Dict.t) :
  Template.well_formed t = true ->
  Template.plain_bindings variables = true ->
  _resolve_variables (Template.raw t) variables
  = Template.substitute variables t.
Proof.
  revert t. induction variables as [|[k v] rest IH]; intros t Hwf Hb.
  - cbn [_resolve_variables]. now rewrite TemplateFacts.substitute_nil.
  - cbn [Template.plain_bindings forallb fst snd] in Hb.
    apply andb_true_iff in Hb as [Hkv Hrest].
    apply andb_true_iff in Hkv as [Hk Hv].
    cbn [_resolve_variables].
    rewrite TemplateFacts.replace_raw by assumption.
    rewrite IH; [| now apply TemplateFacts.fill_well_formed | exact Hrest].
    now rewrite TemplateFacts.substitute_cons.
Qed.

Lemma plain_binding_of (k v : string) (variables : Dict.t) :
  Template.plain_bindings variables = true ->
  Dict.get k variables = Some v ->
  Template.plain k = true /\ Template.plain v = true.
Proof.
  induction variables as [|[k' v'] d IH]; cbn [Dict.get]; [discriminate|].
  cbn [Template.plain_bindings forallb fst snd].
  intros Hb Hg. apply andb_true_iff in Hb as [Hkv Hrest].
  apply andb_true_iff in Hkv as [Hk Hv].
  destruct (String.eqb k k') eqn:E.
  - apply String.eqb_eq in E. subst k'. injection Hg as <-. now split.
  - now apply IH.
Qed.

(** The placeholder of a bound name resolves to the bound value. *)
Lemma resolve_bound_placeholder (k v : string) (variables : Dict.t) :
  Template.plain_bindings variables = true ->
  Dict.get k variables = Some v ->
  _resolve_variables (placeholder k) variables = v.
Proof.
  intros Hb Hg. destruct (plain_binding_of k v variables Hb Hg) as [Hk _].
  rewrite <- (PyStrFacts.append_empty_r (placeholder k)).
  change (placeholder k ++ "")%string
    with (Template.raw [Template.Hole k]).
  rewrite resolve_template; [| cbn; now rewrite Hk | exact Hb].
  cbn [Template.substitute]. rewrite Hg.
  apply PyStrFacts.append_empty_r.
Qed.

Section ExecutorMore.

Context {W : Type} {session : Session W}.

(** The loop of [execute_commands], in full: what is recorded is what was
    dispatched; with [stop_on_error] the list ends at the first failure,
    without it every command is run. *)
Lemma dispatch_each_shape (cmds : list string) (t : Z) (stop : bool)
    (s : St W) :
  exists rs s',
    dispatch_each cmds t stop s = (Ok rs, s')
    /\ vars s' = vars s
    /\ log s' = log s ++ map EvDispatch (map cr_command rs)
    /\ map cr_command rs = firstn (length rs) (map auto_save cmds)
    /\ (stop = true -> forallb cr_success (removelast rs) = true)
    /\ (length rs < length cmds ->
        stop = true /\ forallb cr_success rs = false)
    /\ length rs <= length cmds
    /\ (cmds <> [] -> rs <> []).
Proof.
  revert s. induction cmds as [|c cmds IH]; intros s.
  - exists [], s. cbn. rewrite app_nil_r. repeat split; try lia; congruence.
  - cbn [dispatch_each]. unfold bind at 1.
    destruct (execute_command_ok (auto_save c) t s) as (r & w' & -> & Hc).
    destruct (negb (cr_success r) && stop) eqn:Hstop.
    + apply andb_true_iff in Hstop as [Hfail ->].
      apply negb_true_iff in Hfail.
      exists [r]. eexists. unfold ret. split; [reflexivity|].
      cbn. rewrite Hc, Hfail. repeat split; try lia; congruence.
    + unfold bind.
      destruct (IH (mkSt w' (vars s) (log s ++ [EvDispatch (auto_save c)])))
        as (rs & s' & -> & Hv & Hl & Hn & Hall & Hshort & Hlen & Hne).
      exists (r :: rs), s'. unfold ret. split; [reflexivity|].
      split; [exact Hv|].
      split; [cbn in *; now rewrite Hl, Hc, <- app_assoc|].
      split; [cbn; now rewrite Hc, <- Hn|].
      split; [|split; [|split; [cbn; lia | discriminate]]].
      * intros ->. rewrite andb_true_r in Hstop.
        apply negb_false_iff in Hstop.
        destruct rs as [|r' rs']; [reflexivity|].
        change (removelast (r :: r' :: rs')) with (r :: removelast (r' :: rs')).
        cbn [forallb]. rewrite Hstop. now apply Hall.
      * cbn [length]. intros Hlt.
        destruct Hshort as [-> Hf]; [lia|]. split; [reflexivity|].
        cbn [forallb]. rewrite Hf. apply andb_false_r.
Qed.

(** Without the confirmation gate, [execute_commands] is its loop, followed
    by the save when [save_config] is set. *)
Lemma execute_commands_unconfirmed (cmds : list string) (t : Z)
    (stop sc : bool) (s : St W) :
  exists rs s1 s',
    dispatch_each cmds t stop s = (Ok rs, s1)
    /\ execute_commands cmds t stop sc false s = (Ok rs, s')
    /\ vars s' = vars s
    /\ log s' = log s1 ++ (if sc then [EvDispatch "save force"] else [])
    /\ (sc = false -> s' = s1).
Proof.
  destruct (dispatch_each_shape cmds t stop s)
    as (rs & s1 & Hrun & Hv & _).
  unfold execute_commands. unfold bind at 1. unfold ret at 1.
  unfold bind at 1. rewrite Hrun.
  destruct sc.
  - unfold bind, ret.
    destruct (execute_command_ok "save force" 60 s1) as (r & w' & -> & _).
    exists rs, s1. eexists. split; [reflexivity|]. split; [reflexivity|].
    cbn. split; [exact Hv|]. split; [reflexivity | discriminate].
  - unfold bind, ret. exists rs, s1, s1. split; [reflexivity|].
    split; [reflexivity|]. split; [exact Hv|].
    split; [now rewrite app_nil_r | reflexivity].
Qed.

(** Past the gate, [execute_commands] runs as it does without one. *)
Lemma execute_commands_gate (cmds : list string) (t : Z)
    (stop sc cf : bool) (s : St W) (w1 : W) :
  gate_passed cf (world s) w1 ->
  execute_commands cmds t stop sc cf s
  = execute_commands cmds t stop sc false (mkSt w1 (vars s) (log s)).
Proof.
  unfold gate_passed. destruct cf.
  - intros (response & Hin & Hyes).
    unfold execute_commands. unfold bind at 1. unfold bind at 1.
    unfold call. rewrite Hin. unfold ret at 1. rewrite Hyes.
    unfold bind at 3. unfold ret at 2. reflexivity.
  - intros ->. now destruct s.
Qed.

(** A declined gate ends [execute_commands] at once. *)
Lemma execute_commands_declined (cmds : list string) (t : Z)
    (stop sc : bool) (s : St W) (w1 : W) :
  gate_declined (world s) w1 ->
  execute_commands cmds t stop sc true s
  = (Ok [], mkSt w1 (vars s) (log s)).
Proof.
  intros (response & Hin & Hno).
  unfold execute_commands. unfold bind at 1. unfold bind at 1.
  unfold call. rewrite Hin. unfold ret at 1. now rewrite Hno.
Qed.

(** X3. With [stop_on_error], once the confirmation gate is passed (no
    confirmation asked, or [yes] answered), the results of
    [execute_commands] are the records of a first part of the command list,
    in order; every record but the last is a success, and the list is
    shorter than the command list only when its last record is a failure. A
    non-empty command list then gives at least one record. *)
Theorem stop_on_error_cuts_at_first_failure (cmds : list string) (t : Z)
    (sc cf : bool) (s : St W) (w1 : W) :
  gate_passed cf (world s) w1 ->
  exists rs s',
    execute_commands cmds t true sc cf s = (Ok rs, s')
    /\ map cr_command rs = firstn (length rs) (map auto_save cmds)
    /\ forallb cr_success (removelast rs) = true
    /\ (length rs < length cmds -> forallb cr_success rs = false)
    /\ (cmds <> [] -> rs <> []).
Proof.
  intros Hgate. rewrite (execute_commands_gate _ _ _ _ _ _ _ Hgate).
  set (s0 := mkSt w1 (vars s) (log s)).
  destruct (execute_commands_unconfirmed cmds t true sc s0)
    as (rs & s1 & s' & Hloop & Hrun & _).
  destruct (dispatch_each_shape cmds t true s0)
    as (rs0 & s2 & Hloop0 & _ & _ & Hn & Hall & Hshort & _ & Hne).
  rewrite Hloop in Hloop0. injection Hloop0 as <- <-.
  exists rs, s'. split; [exact Hrun|]. split; [exact Hn|].
  split; [now apply Hall|]. split; [|exact Hne].
  intros Hlt. now apply Hshort.
Qed.

(** X4. Without [stop_on_error], once the confirmation gate is passed (no
    confirmation asked, or [yes] answered), every command of the list is
    dispatched once, in order, whatever fails on the way, followed by
    [save force] when [save_config] is set; there is one record per
    command. *)
Theorem without_stop_every_command_runs (cmds : list string) (t : Z)
    (sc cf : bool) (s : St W) (w1 : W) :
  gate_passed cf (world s) w1 ->
  exists rs s',
    execute_commands cmds t false sc cf s = (Ok rs, s')
    /\ map cr_command rs = map auto_save cmds
    /\ length rs = length cmds
    /\ dispatched (log s')
       = dispatched (log s) ++ map auto_save cmds
         ++ (if sc then ["save force"] else []).
Proof.
  intros Hgate. rewrite (execute_commands_gate _ _ _ _ _ _ _ Hgate).
  set (s0 := mkSt w1 (vars s) (log s)).
  destruct (execute_commands_unconfirmed cmds t false sc s0)
    as (rs & s1 & s' & Hloop & Hrun & _ & Hl' & _).
  destruct (dispatch_each_shape cmds t false s0)
    as (rs0 & s2 & Hloop0 & _ & Hl & Hn & _ & Hshort & Hlen & _).
  rewrite Hloop in Hloop0. injection Hloop0 as <- <-.
  assert (Hfull : length rs = length cmds).
  { destruct (Nat.lt_ge_cases (length rs) (length cmds)) as [Hlt|Hge]; [|lia].
    destruct (Hshort Hlt) as [Habs _]. discriminate Habs. }
  assert (Hcmds : map cr_command rs = map auto_save cmds).
  { rewrite Hn, Hfull, <- (length_map auto_save cmds). apply firstn_all. }
  exists rs, s'. split; [exact Hrun|]. split; [exact Hcmds|].
  split; [exact Hfull|].
  rewrite Hl', Hl, !dispatched_app, dispatched_dispatch, Hcmds.
  subst s0. cbn [log]. rewrite <- app_assoc. f_equal. f_equal.
  now destruct sc.
Qed.

(** X5. With [save_config], once the confirmation gate is passed (no
    confirmation asked, or [yes] answered), [save force] is dispatched after
    the loop whether or not a command failed and stopped it, and its own
    result is not among the records returned. When the confirmation is
    declined, nothing is dispatched, [save force] included, and the result
    is the empty list. *)
Theorem save_config_follows_the_loop (cmds : list string) (t : Z)
    (stop cf : bool) (s : St W) (w1 : W) :
  (gate_passed cf (world s) w1 ->
   exists rs s',
     execute_commands cmds t stop true cf s = (Ok rs, s')
     /\ map cr_command rs = firstn (length rs) (map auto_save cmds)
     /\ length rs <= length cmds
     /\ dispatched (log s')
        = dispatched (log s) ++ map cr_command rs ++ ["save force"])
  /\ (cf = true -> gate_declined (world s) w1 ->
      execute_commands cmds t stop true cf s
      = (Ok [], mkSt w1 (vars s) (log s))).
Proof.
  split.
  - intros Hgate. rewrite (execute_commands_gate _ _ _ _ _ _ _ Hgate).
    set (s0 := mkSt w1 (vars s) (log s)).
    destruct (execute_commands_unconfirmed cmds t stop true s0)
      as (rs & s1 & s' & Hloop & Hrun & _ & Hl' & _).
    destruct (dispatch_each_shape cmds t stop s0)
      as (rs0 & s2 & Hloop0 & _ & Hl & Hn & _ & _ & Hlen & _).
    rewrite Hloop in Hloop0. injection Hloop0 as <- <-.
    exists rs, s'. split; [exact Hrun|]. split; [exact Hn|].
    split; [exact Hlen|].
    rewrite Hl', Hl, !dispatched_app, dispatched_dispatch. cbn.
    now rewrite <- app_assoc.
  - intros -> Hno. now apply execute_commands_declined.
Qed.


Lemma advance_nil (result : TaskResult) : advance result [] = result.
Proof.
  unfold advance. cbn. rewrite Nat.add_0_r, app_nil_r. now destruct result.
Qed.

Lemma advance_cons (result : TaskResult) (r : StepResult)
    (rs : list StepResult) :
  advance (count_step (add_result result r)) rs = advance result (r :: rs).
Proof.
  unfold advance, count_step, add_result. cbn.
  now rewrite Nat.add_succ_r, <- app_assoc.
Qed.

(** X7. When the console raises inside a step (the confirmation prompt on a
    closed input), [execute_task] stops there with the exception's text in
    [error] and [success = False]; the raising step leaves no record and its
    rollback list is not run. *)
Theorem console_exception_skips_rollback (task : Task)
    (done rest : list Step) (failed : Step) (w : W)
    (rs : list StepResult) (s1 s2 : St W) (e : string) :
  steps task = Some (done ++ failed :: rest) ->
  Completes done (initial_state task w) rs s1 ->
  _execute_step failed s1 = (Raise e, s2) ->
  execute_task task w
  = (mkTaskResult (get_or "Unnamed Task" (name task)) false (length done)
       (length (done ++ failed :: rest)) rs (Some e), s2).
Proof.
  intros Hsteps Hdone Hexec.
  unfold execute_task. rewrite Hsteps. cbn [get_or].
  rewrite (run_steps_completes done (failed :: rest) _ s1 rs _ Hdone).
  cbn [run_steps]. rewrite Hexec.
  unfold initial_result. rewrite Hsteps. cbn.
  now rewrite (completes_length done _ s1 rs Hdone).
Qed.

(** How the loop of [execute_task] can end: all steps complete; or some
    complete and the next one fails, and its rollback list, if any, is run;
    or some complete and the next one raises. *)
Lemma run_steps_cases (todo : list Step) (result : TaskResult) (s : St W) :
  match run_steps todo result s with
  | (r, exc, s') =>
      (exists rs,
          Completes todo s rs s' /\ r = advance result rs /\ exc = None)
      \/
      (exists done failed rest rs s1,
          todo = done ++ failed :: rest
          /\ Completes done s rs s1
          /\ ((exists fr s2,
                  _execute_step failed s1 = (Ok fr, s2)
                  /\ sr_success fr = false
                  /\ r = add_result (advance result rs) fr
                  /\ match rollback failed with
                     | None => exc = None /\ s' = s2
                     | Some rb =>
                         _execute_rollback rb s2
                         = (match exc with
                            | None => Ok tt
                            | Some e => Raise e
                            end, s')
                     end)
              \/ (exists e,
                     _execute_step failed s1 = (Raise e, s')
                     /\ r = advance result rs /\ exc = Some e)))
  end.
Proof.
  revert result s. induction todo as [|step todo IH]; intros result s.
  - cbn. left. exists []. split; [constructor|].
    split; [now rewrite advance_nil | reflexivity].
  - cbn [run_steps].
    destruct (_execute_step step s) as [[fr|e] s1] eqn:Hstep.
    + destruct (sr_success fr) eqn:Hok; cbn [negb].
      * specialize (IH (count_step (add_result result fr)) s1).
        destruct (run_steps todo (count_step (add_result result fr)) s1)
          as [[r exc] s'].
        destruct IH as [(rs & Hc & -> & ->)
                       | (done & failed & rest & rs & s2 & -> & Hc & Hend)].
        -- left. exists (fr :: rs). split; [econstructor; eassumption|].
           split; [now rewrite advance_cons | reflexivity].
        -- right. exists (step :: done), failed, rest, (fr :: rs), s2.
           split; [reflexivity|]. split; [econstructor; eassumption|].
           destruct Hend as [(fr' & s3 & He & Hf & -> & Hrb)
                            | (e & He & -> & ->)].
           ++ left. exists fr', s3. rewrite advance_cons. now repeat split.
           ++ right. exists e. rewrite advance_cons. now repeat split.
      * destruct (rollback step) as [rb|] eqn:Hroll.
        -- destruct (_execute_rollback rb s1) as [[[]|e] s2] eqn:Hback;
             (right; exists [], step, todo, [], s; split; [reflexivity|];
              split; [constructor|]; left; exists fr, s1;
              rewrite advance_nil, Hroll; now repeat split).
        -- right. exists [], step, todo, [], s. split; [reflexivity|].
           split; [constructor|]. left. exists fr, s1.
           rewrite advance_nil, Hroll. now repeat split.
    + right. exists [], step, todo, [], s. split; [reflexivity|].
      split; [constructor|]. right. exists e. rewrite advance_nil.
      now repeat split.
Qed.

Lemma completes_all_succeed (done : list Step) (s s1 : St W)
    (rs : list StepResult) :
  Completes done s rs s1 -> forallb sr_success rs = true.
Proof. induction 1; cbn; [reflexivity|]. now rewrite H0. Qed.

(** X8. A task's [success] is [True] exactly when every one of its steps
    completes, one after the other from the task's initial state; the step
    results are then the results of those steps and the final state is the
    one they leave. A task without steps succeeds. *)
Theorem task_succeeds_iff_all_steps_complete (task : Task) (w : W) :
  success (fst (execute_task task w)) = true
  <-> exists rs,
      Completes (get_or [] (steps task)) (initial_state task w) rs
                (snd (execute_task task w))
      /\ results (fst (execute_task task w)) = rs.
Proof.
  split.
  - unfold execute_task.
    pose proof (run_steps_cases (get_or [] (steps task)) (initial_result task)
                  (initial_state task w)) as H.
    destruct (run_steps (get_or [] (steps task)) (initial_result task)
                (initial_state task w)) as [[r exc] s'].
    destruct H as [(rs & Hc & -> & ->)
                  | (done & failed & rest & rs & s1 & Htodo & Hc & Hend)].
    + intros _. exists rs. split; [exact Hc | reflexivity].
    + assert (Hneq : Nat.eqb (length done) (length (done ++ failed :: rest))
                     = false).
      { apply Nat.eqb_neq. rewrite length_app. cbn. lia. }
      destruct Hend as [(fr & s2 & _ & _ & -> & _) | (e & _ & -> & ->)].
      * destruct exc; cbn; [discriminate|].
        unfold initial_result. rewrite Htodo.
        rewrite (completes_length done _ s1 rs Hc), Hneq. discriminate.
      * cbn. discriminate.
  - intros (rs & Hc & _).
    remember (snd (execute_task task w)) as s' eqn:Hs'. clear Hs'.
    unfold execute_task.
    rewrite <- (app_nil_r (get_or [] (steps task))) at 1.
    rewrite (run_steps_completes _ [] _ s' rs _ Hc). cbn.
    rewrite (completes_length _ _ s' rs Hc). apply Nat.eqb_refl.
Qed.

(** X9. The bookkeeping of [execute_task] is consistent: [steps_total] is
    the number of steps; [steps_completed] never exceeds it; there is one
    step result per completed step plus at most one more, which is then a
    failed one; the results counted as completed are all successes; and
    [success = True] comes with no [error] and a result for every step. *)
Theorem task_result_is_consistent (task : Task) (w : W) :
  match execute_task task w with
  | (r, _) =>
      steps_total r = length (get_or [] (steps task))
      /\ steps_completed r <= steps_total r
      /\ steps_completed r <= length (results r) <= steps_completed r + 1
      /\ forallb sr_success (firstn (steps_completed r) (results r)) = true
      /\ (length (results r) = steps_completed r + 1 ->
          forallb sr_success (results r) = false)
      /\ (success r = true ->
          error r = None /\ length (results r) = steps_total r)
  end.
Proof.
  unfold execute_task.
  pose proof (run_steps_cases (get_or [] (steps task)) (initial_result task)
                (initial_state task w)) as H.
  destruct (run_steps (get_or [] (steps task)) (initial_result task)
              (initial_state task w)) as [[r exc] s'].
  destruct H as [(rs & Hc & -> & ->)
                | (done & failed & rest & rs & s1 & Htodo & Hc & Hend)].
  - pose proof (completes_length _ _ _ _ Hc) as Hlen.
    pose proof (completes_all_succeed _ _ _ _ Hc) as Hall.
    cbn. repeat split; try lia. now rewrite firstn_all.
  - pose proof (completes_length _ _ _ _ Hc) as Hlen.
    pose proof (completes_all_succeed _ _ _ _ Hc) as Hall.
    assert (Hneq : Nat.eqb (length rs) (length (done ++ failed :: rest))
                   = false).
    { apply Nat.eqb_neq. rewrite length_app. cbn. lia. }
    destruct Hend as [(fr & s2 & _ & Hfail & -> & _) | (e & _ & -> & ->)].
    + assert (Hfirst : firstn (length rs) (rs ++ [fr]) = rs).
      { rewrite firstn_app, Nat.sub_diag, firstn_all. cbn.
        now rewrite app_nil_r. }
      destruct exc; cbn; rewrite Htodo, ?length_app; cbn;
        rewrite ?Hfirst, ?Hneq, ?length_app; cbn;
        (repeat split; try lia; try exact Hall; try discriminate;
         try (intros _; rewrite forallb_app; cbn; rewrite Hfail;
              now rewrite andb_false_r);
         try match goal with
             | Heq : Nat.eqb _ _ = true |- _ =>
                 apply Nat.eqb_eq in Heq; lia
             end).
    + cbn. rewrite Htodo, length_app. cbn.
      repeat split; try lia; try discriminate.
      now rewrite firstn_all.
Qed.

Lemma step_frame (step : Step) (s s' : St W) (o : Outcome StepResult)
    (k : string) :
  _execute_step step s = (o, s') ->
  binds k step = false ->
  Dict.get k (vars s') = Dict.get k (vars s).
Proof.
  unfold binds, _execute_step, bind, get_vars.
  destruct (match condition step with
            | Some c => negb (_evaluate_condition c (vars s))
            | None => false
            end).
  { unfold ret. now intros [= _ <-]. }
  destruct (loop step) as [lc|].
  - intros Hrun Hk.
    pose proof (loop_each_trace step (loop_var lc) (vars s)
                  (loop_items lc (vars s)) s (fun x => eq_refl)) as H.
    rewrite Hrun in H.
    assert (Hv : vars s' = vars s
                 \/ exists x, vars s' = Dict.set (loop_var lc) x (vars s)).
    { destruct o as [r|e].
      - destruct H as [(_ & _ & Hnil & Hlast) | (_ & pre & x & post & _ & _ & Hv)].
        + destruct (loop_items lc (vars s)) as [|y ys].
          * left. now apply Hnil.
          * right. eexists. apply Hlast. discriminate.
        + right. now exists x.
      - destruct H as (pre & x & post & _ & _ & Hv). right. now exists x. }
    destruct Hv as [-> | (x & ->)]; [reflexivity|].
    now apply DictFacts.get_set_other.
  - intros Hrun _.
    pose proof (nested_run_effect step s) as H. rewrite Hrun in H.
    destruct o; destruct H as [-> _]; reflexivity.
Qed.

Lemma run_each_frame (l : list Step) (s s' : St W) (o : Outcome unit)
    (k : string) :
  run_each l s = (o, s') ->
  Forall (fun st => binds k st = false) l ->
  Dict.get k (vars s') = Dict.get k (vars s).
Proof.
  revert s. induction l as [|st l IH]; intros s.
  - cbn. unfold ret. now intros [= _ <-].
  - cbn [run_each]. unfold bind at 1.
    destruct (_execute_step st s) as [[r|e] s1] eqn:Hstep;
      intros Hrun HF; inversion HF; subst.
    + rewrite (IH s1 Hrun) by assumption.
      eapply step_frame; eassumption.
    + injection Hrun as _ <-. eapply step_frame; eassumption.
Qed.

Lemma run_steps_frame (todo : list Step) (result r : TaskResult)
    (s s' : St W) (exc : option string) (k : string) :
  run_steps todo result s = (r, exc, s') ->
  Forall (leaves_alone k) todo ->
  Dict.get k (vars s') = Dict.get k (vars s).
Proof.
  revert result s. induction todo as [|st todo IH]; intros result s.
  - cbn. now intros [= _ _ <-].
  - cbn [run_steps].
    destruct (_execute_step st s) as [[fr|e] s1] eqn:Hstep;
      intros Hrun HF; inversion HF as [|? ? [Hst Hrb] HF']; subst.
    + destruct (negb (sr_success fr)).
      * destruct (rollback st) as [rb|] eqn:Hroll.
        -- unfold _execute_rollback in Hrun.
           destruct (run_each (rev rb) s1) as [[u|e] s2] eqn:Hback;
             injection Hrun as _ _ <-;
             (rewrite (run_each_frame _ _ _ _ k Hback)
                by (apply Forall_rev; exact Hrb));
             eapply step_frame; eassumption.
        -- injection Hrun as _ _ <-. eapply step_frame; eassumption.
      * rewrite (IH _ _ Hrun HF'). eapply step_frame; eassumption.
    + injection Hrun as _ _ <-. eapply step_frame; eassumption.
Qed.

(** X10. A task rebinds loop variables and nothing else: a variable that is
    the loop variable of none of the task's steps, and of none of the steps
    of their rollback lists, has after [execute_task] the value the task gave
    it, or is still unbound. *)
Theorem task_rebinds_only_loop_variables (task : Task) (w : W) (k : string) :
  Forall (leaves_alone k) (get_or [] (steps task)) ->
  Dict.get k (vars (snd (execute_task task w)))
  = Dict.get k (get_or [] (variables task)).
Proof.
  intros HF. unfold execute_task.
  destruct (run_steps (get_or [] (steps task)) (initial_result task)
              (initial_state task w)) as [[r exc] s'] eqn:Hrun.
  apply (run_steps_frame _ _ _ _ _ _ k) in Hrun; [|exact HF].
  destruct exc; exact Hrun.
Qed.

(** A step that asks nothing and has no condition and no loop always runs,
    leaves the bindings alone and dispatches a first part of its resolved
    commands, the first command at least. *)
Lemma unattended_step_runs (step : Step) (s : St W) :
  unattended step ->
  exists r s' n,
    _execute_step step s = (Ok r, s')
    /\ vars s' = vars s
    /\ 1 <= n
    /\ dispatched (log s')
       = dispatched (log s) ++ firstn n (resolved_commands step (vars s)).
Proof.
  intros (Hcond & Hloop & Hconfirm).
  rewrite (execute_step_plain step s Hloop)
    by (unfold runs_under; now rewrite Hcond).
  unfold _execute_commands_in_step. rewrite Hconfirm.
  unfold bind at 1. unfold get_vars. unfold bind at 1. unfold emit at 1.
  unfold bind at 1.
  set (s0 := mkSt (world s) (vars s) (log s ++ [EvNestedBegin (vars s)])).
  set (cmds := map (fun cmd => _resolve_variables cmd (vars s))
                   (get_or [] (commands step))).
  destruct (execute_commands_unconfirmed cmds (get_or 30%Z (timeout step))
              (get_or true (stop_on_error step)) false s0)
    as (rs & s1 & s' & Hloop' & Hrun & Hv & _ & Hs').
  rewrite (Hs' eq_refl) in *. rewrite Hrun.
  destruct (dispatch_each_shape cmds (get_or 30%Z (timeout step))
              (get_or true (stop_on_error step)) s0)
    as (rs0 & s2 & Hloop0 & _ & Hl & Hn & _ & _ & _ & Hne).
  rewrite Hloop' in Hloop0. injection Hloop0 as <- <-.
  unfold bind, emit, ret. cbn [world vars log].
  eexists. eexists. exists (Nat.max 1 (length rs)).
  split; [reflexivity|]. cbn [vars log].
  split; [exact Hv|]. split; [lia|].
  rewrite Hl. subst s0. cbn [log].
  rewrite !dispatched_app, dispatched_dispatch. cbn [dispatched].
  rewrite !app_nil_r. f_equal.
  unfold resolved_commands.
  rewrite <- (map_map (fun c => _resolve_variables c (vars s)) auto_save).
  fold cmds. rewrite Hn.
  destruct rs as [|r0 rs'].
  - destruct cmds as [|c cmds']; [reflexivity|].
    exfalso. apply Hne; [discriminate | reflexivity].
  - now rewrite Nat.max_r by (cbn [length]; lia).
Qed.

Lemma run_each_unattended (l : list Step) (s : St W) :
  Forall unattended l ->
  exists s' groups,
    run_each l s = (Ok tt, s')
    /\ vars s' = vars s
    /\ dispatched (log s') = dispatched (log s) ++ concat groups
    /\ Forall2 (fun st g =>
                  exists n,
                    1 <= n /\ g = firstn n (resolved_commands st (vars s)))
               l groups.
Proof.
  intros HF. revert s. induction HF as [|st l Hst _ IH]; intros s.
  - exists s, []. cbn. rewrite app_nil_r. repeat split. constructor.
  - cbn [run_each]. unfold bind at 1.
    destruct (unattended_step_runs st s Hst) as (r & s1 & n & -> & Hv & Hn & Hd).
    destruct (IH s1) as (s' & groups & Hrun & Hv' & Hd' & HF2).
    exists s', (firstn n (resolved_commands st (vars s)) :: groups).
    split; [exact Hrun|]. split; [congruence|]. split.
    + rewrite Hd', Hd. cbn [concat]. now rewrite <- app_assoc.
    + constructor; [now exists n|]. now rewrite <- Hv.
Qed.

(** X11. Rollback is best effort. When the steps of a rollback list ask
    nothing (no condition, no loop, no confirmation), [_execute_rollback]
    never raises and never stops early: it runs every step of the list, from
    the last to the first, each one dispatching at least its first command,
    whether or not the steps before it failed; the bindings are left as they
    were. *)
Theorem rollback_is_best_effort (rollback_steps : list Step) (s : St W) :
  Forall unattended rollback_steps ->
  exists s' groups,
    _execute_rollback rollback_steps s = (Ok tt, s')
    /\ vars s' = vars s
    /\ dispatched (log s') = dispatched (log s) ++ concat groups
    /\ Forall2 (fun st g =>
                  exists n,
                    1 <= n /\ g = firstn n (resolved_commands st (vars s)))
               (rev rollback_steps) groups.
Proof.
  intros HF. unfold _execute_rollback.
  apply run_each_unattended. now apply Forall_rev.
Qed.

(** The steps that complete leave alone every variable none of them loops
    on. *)
Lemma completes_frame (later : list Step) (s t : St W)
    (rs : list StepResult) (k : string) :
  Completes later s rs t ->
  Forall (fun st => binds k st = false) later ->
  Dict.get k (vars t) = Dict.get k (vars s).
Proof.
  intros Hc. induction Hc as [s|step done s s1 s2 r rs He _ _ IH]; intros HF.
  - reflexivity.
  - inversion HF as [|? ? Hstep HF']; subst.
    rewrite (IH HF'). eapply step_frame; eassumption.
Qed.

(** A step without loop and without confirmation that is not skipped runs:
    it leaves the bindings alone and dispatches a first part of its resolved
    commands, the first command at least. *)
Lemma plain_step_runs (step : Step) (s : St W) :
  loop step = None -> runs_under step (vars s) ->
  get_or false (confirm step) = false ->
  exists r s' n,
    _execute_step step s = (Ok r, s')
    /\ vars s' = vars s
    /\ 1 <= n
    /\ dispatched (log s')
       = dispatched (log s) ++ firstn n (resolved_commands step (vars s)).
Proof.
  intros Hloop Hunder Hconfirm.
  rewrite (execute_step_plain step s Hloop Hunder).
  unfold _execute_commands_in_step. rewrite Hconfirm.
  unfold bind at 1. unfold get_vars. unfold bind at 1. unfold emit at 1.
  unfold bind at 1.
  set (s0 := mkSt (world s) (vars s) (log s ++ [EvNestedBegin (vars s)])).
  set (cmds := map (fun cmd => _resolve_variables cmd (vars s))
                   (get_or [] (commands step))).
  destruct (execute_commands_unconfirmed cmds (get_or 30%Z (timeout step))
              (get_or true (stop_on_error step)) false s0)
    as (rs & s1 & s' & Hloop' & Hrun & Hv & _ & Hs').
  rewrite (Hs' eq_refl) in *. rewrite Hrun.
  destruct (dispatch_each_shape cmds (get_or 30%Z (timeout step))
              (get_or true (stop_on_error step)) s0)
    as (rs0 & s2 & Hloop0 & _ & Hl & Hn & _ & _ & _ & Hne).
  rewrite Hloop' in Hloop0. injection Hloop0 as <- <-.
  unfold bind, emit, ret. cbn [world vars log].
  eexists. eexists. exists (Nat.max 1 (length rs)).
  split; [reflexivity|]. cbn [vars log].
  split; [exact Hv|]. split; [lia|].
  rewrite Hl. subst s0. cbn [log].
  rewrite !dispatched_app, dispatched_dispatch. cbn [dispatched].
  rewrite !app_nil_r. f_equal.
  unfold resolved_commands.
  rewrite <- (map_map (fun c => _resolve_variables c (vars s)) auto_save).
  fold cmds. rewrite Hn.
  destruct rs as [|r0 rs'].
  - destruct cmds as [|c cmds']; [reflexivity|].
    exfalso. apply Hne; [discriminate | reflexivity].
  - now rewrite Nat.max_r by (cbn [length]; lia).
Qed.

(** C10. A loop step binds its variable in the task's one [variables] dict.
    When the step has returned, the dict is the one it started with, with the
    loop variable set to the last item that was run (the last item of the
    list when the loop succeeded), and the steps that follow in
    [execute_task] run in that state. After any number of following steps
    that complete and do not loop on that variable themselves (loops on
    other variables included), the variable is still bound to that item;
    when no name and no value of the bindings holds a brace, substitution
    then turns the variable's placeholder into the item, and every command
    text whose braces are those of its placeholders into the text with the
    bound values in the place of the placeholders; a following step without
    loop resolves its commands under these bindings, and when it is run
    without confirmation it dispatches the first of them at least. *)
Theorem loop_variable_stays_bound (step : Step) (lc : LoopConfig)
    (s s' : St W) (r : StepResult) :
  loop step = Some lc ->
  runs_under step (vars s) ->
  loop_items lc (vars s) <> [] ->
  _execute_step step s = (Ok r, s') ->
  exists x,
    In x (loop_items lc (vars s))
    /\ (sr_success r = true -> x = last (loop_items lc (vars s)) "")
    /\ vars s' = Dict.set (loop_var lc) x (vars s)
    /\ Dict.get (loop_var lc) (vars s') = Some x
    /\ (sr_success r = true ->
        forall rest result,
          run_steps (step :: rest) result s
          = run_steps rest (count_step (add_result result r)) s')
    /\ (forall later rs t,
          Forall (fun st => binds (loop_var lc) st = false) later ->
          Completes later s' rs t ->
          Dict.get (loop_var lc) (vars t) = Some x
          /\ (Template.plain_bindings (vars t) = true ->
              _resolve_variables (placeholder (loop_var lc)) (vars t) = x
              /\ forall tpl,
                  Template.well_formed tpl = true ->
                  _resolve_variables (Template.raw tpl) (vars t)
                  = Template.substitute (vars t) tpl)
          /\ (forall next o t',
                loop next = None ->
                _execute_step next t = (o, t') ->
                vars t' = vars t
                /\ exists n,
                    dispatched (log t')
                    = dispatched (log t)
                      ++ firstn n (resolved_commands next (vars t)))
          /\ (forall next,
                loop next = None ->
                runs_under next (vars t) ->
                get_or false (confirm next) = false ->
                exists r' t' n,
                  _execute_step next t = (Ok r', t')
                  /\ vars t' = vars t
                  /\ 1 <= n
                  /\ dispatched (log t')
                     = dispatched (log t)
                       ++ firstn n (resolved_commands next (vars t)))).
Proof.
  intros Hloop Hrun Hne Hexec.
  pose proof (loop_each_trace step (loop_var lc) (vars s)
                (loop_items lc (vars s)) s (fun x => eq_refl)) as H.
  rewrite <- (execute_step_loop step lc s Hloop Hrun), Hexec in H.
  assert (Hx : exists x, In x (loop_items lc (vars s))
                         /\ (sr_success r = true ->
                             x = last (loop_items lc (vars s)) "")
                         /\ vars s' = Dict.set (loop_var lc) x (vars s)).
  { destruct H as [(Hs & _ & _ & Hlast) | (Hs & pre & x & post & Hi & _ & Hv)].
    - exists (last (loop_items lc (vars s)) ""). split; [|split].
      + destruct (exists_last Hne) as (l' & a & ->).
        rewrite last_last. apply in_or_app. right. now left.
      + reflexivity.
      + now apply Hlast.
    - exists x. split; [|split].
      + rewrite Hi. apply in_or_app. right. now left.
      + intros Hs'. congruence.
      + exact Hv. }
  destruct Hx as (x & Hin & Hlast & Hv).
  assert (Hget : Dict.get (loop_var lc) (vars s') = Some x).
  { rewrite Hv. apply DictFacts.get_set_same. }
  exists x. split; [exact Hin|]. split; [exact Hlast|]. split; [exact Hv|].
  split; [exact Hget|]. split.
  - intros Hs rest result. cbn [run_steps]. rewrite Hexec, Hs. reflexivity.
  - intros later rs t HF Hc.
    assert (Hbound : Dict.get (loop_var lc) (vars t) = Some x).
    { rewrite (completes_frame later s' t rs (loop_var lc) Hc HF).
      exact Hget. }
    split; [exact Hbound|]. split; [|split].
    + intros Hplain. split.
      * now apply resolve_bound_placeholder.
      * intros tpl Hwf. now apply resolve_template.
    + intros next o t' Hnext Hstep. unfold resolved_commands.
      eapply plain_step_effect; eassumption.
    + intros next Hnext Hunder Hconfirm. now apply plain_step_runs.
Qed.

End ExecutorMore.

Section ExecutorEdges.

Context {W : Type} {session : Session W}.

(** X12. An executor that was never connected (no shell, no connection)
    sends nothing: every command it is given fails with an empty output and
    no error text, so with [stop_on_error] a non-empty command list yields
    the one failed record of its first command and the world is untouched. *)
Theorem unconnected_executor_sends_nothing (cmds : list string) (t : Z)
    (s : St W) :
  shell = false -> connection = false ->
  exists s',
    execute_commands cmds t true false false s
    = (Ok (firstn 1 (map (fun c => mkCommandResult (auto_save c) false "" None)
                         cmds)), s')
    /\ world s' = world s.
Proof.
  intros Hshell Hconn.
  unfold execute_commands. unfold bind at 1. unfold ret at 1.
  destruct cmds as [|c cmds].
  - cbn. unfold bind, ret. eexists. split; reflexivity.
  - unfold bind at 1. cbn [dispatch_each]. unfold bind at 1.
    unfold execute_command. rewrite Hshell, Hconn.
    unfold bind, emit, try_except, ret. cbn.
    eexists. split; reflexivity.
Qed.

End ExecutorEdges.

Lemma loop_variable_stays_bound_witness :
  loop Lab.loop_step = Some Lab.three_vlans
  /\ runs_under Lab.loop_step (vars Lab.start)
  /\ loop_items Lab.three_vlans (vars Lab.start) <> []
  /\ _execute_step (session := lab_session) Lab.loop_step Lab.start
     = (Ok (mkStepResult true (Some "") None None), snd Lab.loop_outcome)
  /\ vars (snd Lab.loop_outcome) = [("site", "lab"); ("id", "c")]
  /\ exists t r' t',
      Completes (session := lab_session) [Bench.port_loop]
        (snd Lab.loop_outcome) [mkStepResult true (Some "") None None] t
      /\ vars t = [("site", "lab"); ("id", "c"); ("port", "2")]
      /\ _resolve_variables "{{id}}" (vars t) = "c"
      /\ _execute_step (session := lab_session) Bench.show_step t
         = (Ok r', t')
      /\ world t'
         = ["vlan a"; "vlan b"; "vlan c"; "port 1 vlan c"; "port 2 vlan c";
            "show vlan c"].
Proof.
  assert (Hne : loop_items Lab.three_vlans (vars Lab.start) <> [])
    by discriminate.
  split; [reflexivity|]. split; [exact I|]. split; [exact Hne|].
  split; [reflexivity|].
  destruct (loop_variable_stays_bound (session := lab_session) Lab.loop_step
              Lab.three_vlans Lab.start (snd Lab.loop_outcome)
              (mkStepResult true (Some "") None None)
              eq_refl I Hne eq_refl)
    as (x & _ & Hlast & Hv & _ & _ & Hlater).
  rewrite (Hlast eq_refl) in Hv, Hlater. split; [exact Hv|].
  assert (Hc : Completes (session := lab_session) [Bench.port_loop]
                 (snd Lab.loop_outcome)
                 [mkStepResult true (Some "") None None]
                 (snd (_execute_step (session := lab_session) Bench.port_loop
                         (snd Lab.loop_outcome)))).
  { eapply Completes_cons;
      [vm_compute; reflexivity | reflexivity | apply Completes_nil]. }
  assert (HF : Forall (fun st => binds (loop_var Lab.three_vlans) st = false)
                      [Bench.port_loop]).
  { constructor; [reflexivity | constructor]. }
  destruct (Hlater [Bench.port_loop] _ _ HF Hc) as (_ & Hsub & _ & Hnext).
  destruct (Hsub eq_refl) as [Hid _].
  destruct (Hnext Bench.show_step eq_refl I eq_refl)
    as (r' & t' & n & Hstep & _).
  eexists. exists r', t'. split; [exact Hc|]. split; [reflexivity|].
  split; [exact Hid|]. split; [exact Hstep|].
  vm_compute in Hstep. injection Hstep as _ <-. reflexivity.
Defined.

Lemma stop_on_error_cuts_at_first_failure_witness :
  gate_passed (session := lab_session) true [] []
  /\ exists rs s',
      execute_commands (session := lab_session)
        ["vlan 10"; "bad vlan"; "vlan 30"] 30 true false true
        Bench.empty_state
      = (Ok rs, s')
      /\ map cr_command rs = ["vlan 10"; "bad vlan"]
      /\ world s' = ["vlan 10"; "bad vlan"].
Proof.
  assert (Hgate : gate_passed (session := lab_session) true
                    (world Bench.empty_state) []).
  { exists "yes". split; reflexivity. }
  split; [exact Hgate|].
  destruct (stop_on_error_cuts_at_first_failure (session := lab_session)
              ["vlan 10"; "bad vlan"; "vlan 30"] 30 false true
              Bench.empty_state [] Hgate)
    as (rs & s' & Hrun & _).
  exists rs, s'. split; [exact Hrun|].
  vm_compute in Hrun. injection Hrun as <- <-. split; reflexivity.
Defined.

Lemma without_stop_every_command_runs_witness :
  gate_passed (session := lab_session) true [] []
  /\ exists rs s',
      execute_commands (session := lab_session)
        ["vlan 10"; "bad vlan"; "save"] 30 false true true Bench.empty_state
      = (Ok rs, s')
      /\ map cr_success rs = [true; false; true]
      /\ world s' = ["vlan 10"; "bad vlan"; "save force"; "save force"].
Proof.
  assert (Hgate : gate_passed (session := lab_session) true
                    (world Bench.empty_state) []).
  { exists "yes". split; reflexivity. }
  split; [exact Hgate|].
  destruct (without_stop_every_command_runs (session := lab_session)
              ["vlan 10"; "bad vlan"; "save"] 30 true true
              Bench.empty_state [] Hgate)
    as (rs & s' & Hrun & _).
  exists rs, s'. split; [exact Hrun|].
  vm_compute in Hrun. injection Hrun as <- <-. split; reflexivity.
Defined.

Lemma save_config_follows_the_loop_witness :
  gate_passed (session := lab_session) false [] []
  /\ gate_declined (session := Bench.declining_session) [] []
  /\ (exists rs s',
        execute_commands (session := lab_session) ["bad vlan"; "vlan 20"]
          30 true true false Bench.empty_state
        = (Ok rs, s')
        /\ world s' = ["bad vlan"; "save force"])
  /\ execute_commands (session := Bench.declining_session)
       ["bad vlan"; "vlan 20"] 30 true true true Bench.empty_state
     = (Ok [], Bench.empty_state).
Proof.
  assert (Hgate : gate_passed (session := lab_session) false
                    (world Bench.empty_state) []) by reflexivity.
  assert (Hno : gate_declined (session := Bench.declining_session)
                  (world Bench.empty_state) []).
  { exists "no". split; reflexivity. }
  split; [exact Hgate|]. split; [exact Hno|]. split.
  - destruct (save_config_follows_the_loop (session := lab_session)
                ["bad vlan"; "vlan 20"] 30 true false Bench.empty_state [])
      as [Hrun _].
    destruct (Hrun Hgate) as (rs & s' & Hexec & _).
    exists rs, s'. split; [exact Hexec|].
    vm_compute in Hexec. injection Hexec as _ <-. reflexivity.
  - destruct (save_config_follows_the_loop
                (session := Bench.declining_session)
                ["bad vlan"; "vlan 20"] 30 true true Bench.empty_state [])
      as [_ Hdeclined].
    exact (Hdeclined eq_refl Hno).
Defined.


Lemma console_exception_skips_rollback_witness :
  steps Bench.confirmed_task
  = Some ([command_step ["vlan 10"] None] ++ Bench.confirmed_step
          :: [command_step ["vlan 20"] None])
  /\ execute_task (session := Bench.closed_console_session)
       Bench.confirmed_task []
     = (mkTaskResult "reboot" false 1 3 [Lab.vlan_result "vlan 10"]
          (Some "EOF when reading a line"),
        mkSt ["vlan 10"] []
             [EvNestedBegin []; EvDispatch "vlan 10"; EvNestedEnd true;
              EvNestedBegin []]).
Proof.
  split; [reflexivity|].
  apply (console_exception_skips_rollback
           (session := Bench.closed_console_session) Bench.confirmed_task
           [command_step ["vlan 10"] None] [command_step ["vlan 20"] None]
           Bench.confirmed_step [] [Lab.vlan_result "vlan 10"]
           (mkSt ["vlan 10"] []
                 [EvNestedBegin []; EvDispatch "vlan 10"; EvNestedEnd true])).
  - reflexivity.
  - eapply Completes_cons;
      [vm_compute; reflexivity | reflexivity | apply Completes_nil].
  - reflexivity.
Defined.

Lemma task_rebinds_only_loop_variables_witness :
  Forall (leaves_alone "site") (get_or [] (steps Bench.loop_task))
  /\ Dict.get "site"
       (vars (snd (execute_task (session := lab_session) Bench.loop_task [])))
     = Some "lab"
  /\ Dict.get "id"
       (vars (snd (execute_task (session := lab_session) Bench.loop_task [])))
     = Some "c".
Proof.
  assert (HF : Forall (leaves_alone "site") (get_or [] (steps Bench.loop_task))).
  { constructor; [|constructor]. split; [reflexivity | constructor]. }
  split; [exact HF|]. split; [|reflexivity].
  exact (task_rebinds_only_loop_variables (session := lab_session)
           Bench.loop_task [] "site" HF).
Defined.

Lemma rollback_is_best_effort_witness :
  Forall unattended Bench.rollback_list
  /\ world (snd (_execute_rollback (session := lab_session)
                   Bench.rollback_list Lab.start))
     = ["bad undo"; "undo a"]
  /\ exists s' groups,
      _execute_rollback (session := lab_session) Bench.rollback_list Lab.start
      = (Ok tt, s')
      /\ vars s' = vars Lab.start
      /\ dispatched (log s') = dispatched (log Lab.start) ++ concat groups
      /\ Forall2 (fun st g =>
                    exists n,
                      1 <= n
                      /\ g = firstn n (resolved_commands st (vars Lab.start)))
                 (rev Bench.rollback_list) groups.
Proof.
  assert (HF : Forall unattended Bench.rollback_list).
  { repeat constructor. }
  split; [exact HF|]. split; [reflexivity|].
  exact (rollback_is_best_effort (session := lab_session) Bench.rollback_list
           Lab.start HF).
Defined.

Lemma unconnected_executor_sends_nothing_witness :
  shell (Session := Bench.unconnected_session) = false
  /\ connection (Session := Bench.unconnected_session) = false
  /\ exists s',
      execute_commands (session := Bench.unconnected_session)
        ["display vlan"; "display version"] 30 true false false
        Bench.empty_state
      = (Ok [mkCommandResult "display vlan" false "" None], s')
      /\ world s' = [].
Proof.
  split; [reflexivity|]. split; [reflexivity|].
  exact (unconnected_executor_sends_nothing
           (session := Bench.unconnected_session)
           ["display vlan"; "display version"] 30 Bench.empty_state
           eq_refl eq_refl).
Defined.

Lemma resolve_variables_leaves_unbound_witness :
  (forall k v, In (k, v) [("id", "100")] ->
               PyStr.contains (placeholder k) "show vlan {{missing}}" = false)
  /\ _resolve_variables "show vlan {{missing}}" [("id", "100")]
     = "show vlan {{missing}}".
Proof.
  assert (H : forall k v, In (k, v) [("id", "100")] ->
                          PyStr.contains (placeholder k)
                                         "show vlan {{missing}}" = false).
  { intros k v [[= <- <-]|[]]. reflexivity. }
  split; [exact H|].
  exact (resolve_variables_leaves_unbound "show vlan {{missing}}"
           [("id", "100")] H).
Defined.

(* ===================================================================== *)
(** * More on the output framer *)
(* ===================================================================== *)

Section FramerMore.

Import Framer.

Context {E : Type} {channel : Channel E}.

Local Open Scope Z_scope.

Lemma read_loop_short_output (fuel : nat) (timeout start last : Z)
    (output : string) (trace : list IO) (e : E)
    (output' : string) (trace' : list IO) (e' : E) :
  read_loop fuel timeout start last output trace e
  = Some (output', trace', e') ->
  PyStr.len output' <= 50 ->
  1000 * timeout <= now e' - start.
Proof.
  revert last output trace e.
  induction fuel as [|fuel IH]; intros last output trace e; [discriminate|].
  cbn [read_loop]. intros Hrun Hshort.
  destruct (Z.ltb_spec (now e - start) (1000 * timeout)) as [Hlt|Hge].
  2:{ injection Hrun as _ _ <-. exact Hge. }
  assert (Hidle : forall last0 out tr e0,
            (if (3000 <? now e0 - last0) && (50 <? PyStr.len out)
             then Some (out, tr, e0)
             else read_loop fuel timeout start last0 out tr (sleep 200 e0))
            = Some (output', trace', e') ->
            1000 * timeout <= now e' - start).
  { intros last0 out tr e0.
    destruct ((3000 <? now e0 - last0) && (50 <? PyStr.len out)) eqn:Hc.
    - intros [= -> _ _]. apply andb_true_iff in Hc as [_ Hc].
      apply Z.ltb_lt in Hc. lia.
    - intros H. now apply (IH _ _ _ _ H). }
  destruct (recv_ready e); [|now apply (Hidle _ _ _ _ Hrun)].
  destruct (recv e) as [chunk e1].
  destruct (PyStr.contains more_marker chunk).
  - now apply (IH _ _ _ _ Hrun).
  - destruct (prompt_search chunk && (50 <? PyStr.len (output ++ chunk)))
      eqn:Hc.
    + destruct (negb (recv_ready (sleep 500 e1))).
      * injection Hrun as Hout _ _. rewrite <- Hout in Hshort.
        apply andb_true_iff in Hc as [_ Hc].
        apply Z.ltb_lt in Hc. lia.
      * now apply (Hidle _ _ _ _ Hrun).
    + now apply (Hidle _ _ _ _ Hrun).
Qed.

(** X15. A reply of 50 characters or fewer is never taken as complete: when
    [_handle_pagination] returns such a reply, prompt or not, the whole hard
    timeout has passed. *)
Theorem short_reply_waits_for_the_hard_timeout (timeout : Z) (e : E)
    (output : string) (trace : list IO) (e' : E) :
  _handle_pagination timeout e = Some (output, trace, e') ->
  PyStr.len output <= 50 ->
  1000 * timeout <= now e' - now e.
Proof.
  unfold _handle_pagination. intros Hrun Hshort.
  now apply (read_loop_short_output _ _ _ _ _ _ _ _ _ _ Hrun).
Qed.

End FramerMore.

Module PromptFacts.

Import Framer.

Lemma word_run_gt_found (seen : bool) (w post : string) :
  all_chars is_word w = true ->
  seen = true \/ w <> EmptyString ->
  word_run_gt seen (w ++ String ">" post) = true.
Proof.
  revert seen. induction w as [|c w IH]; intros seen Hw Hseen.
  - destruct Hseen as [-> | Habs]; [reflexivity | congruence].
  - cbn [all_chars] in Hw. apply andb_true_iff in Hw as [Hc Hw].
    cbn [append word_run_gt]. rewrite Hc. apply IH; [exact Hw | now left].
Qed.

Lemma nonspace_run_rb_found (seen : bool) (b post : string) :
  all_chars (fun c => negb (is_space c)) b = true ->
  seen = true \/ b <> EmptyString ->
  nonspace_run_rb seen (b ++ String "]" post) = true.
Proof.
  revert seen. induction b as [|c b IH]; intros seen Hb Hseen.
  - destruct Hseen as [-> | Habs]; [reflexivity | congruence].
  - cbn [all_chars] in Hb. apply andb_true_iff in Hb as [Hc Hb].
    apply negb_true_iff in Hc.
    cbn [append nonspace_run_rb]. rewrite Hc.
    rewrite (IH true Hb) by now left. apply orb_true_r.
Qed.

Lemma prompt_search_later (pre rest : string) :
  prompt_search rest = true -> prompt_search (pre ++ rest) = true.
Proof.
  intros H. induction pre as [|c pre IH]; [exact H|].
  cbn [append prompt_search]. rewrite IH. apply orb_true_r.
Qed.

End PromptFacts.

(** X17. The prompt test of [_handle_pagination] fires on any chunk that
    holds, anywhere, [<name>] with a non-empty name of letters, digits and
    underscores, or [[text]] with a non-empty text free of white space (a
    log tag such as [[OK]] counts); it never fires on a chunk that holds
    neither [<] nor [[]. *)
Theorem prompt_is_seen_anywhere (pre inner post : string) :
  inner <> EmptyString ->
  (all_chars Framer.is_word inner = true ->
   Framer.prompt_search (pre ++ String "<" (inner ++ String ">" post)) = true)
  /\ (all_chars (fun c => negb (Framer.is_space c)) inner = true ->
      Framer.prompt_search (pre ++ String "[" (inner ++ String "]" post))
      = true)
  /\ (all_chars (fun c => negb (Ascii.eqb c "<" || Ascii.eqb c "[")) pre
      = true ->
      Framer.prompt_search pre = false).
Proof.
  intros Hne. split; [|split].
  - intros Hw. apply PromptFacts.prompt_search_later.
    cbn [Framer.prompt_search]. rewrite Ascii.eqb_refl. cbn [andb].
    rewrite PromptFacts.word_run_gt_found; [reflexivity | exact Hw | now right].
  - intros Hb. apply PromptFacts.prompt_search_later.
    cbn [Framer.prompt_search].
    replace (Ascii.eqb "[" "<") with false by reflexivity.
    rewrite Ascii.eqb_refl. cbn [andb orb].
    rewrite PromptFacts.nonspace_run_rb_found;
      [reflexivity | exact Hb | now right].
  - clear Hne. induction pre as [|c pre IH]; [reflexivity|].
    cbn [all_chars Framer.prompt_search]. intros H.
    apply andb_true_iff in H as [Hc Hpre].
    apply negb_true_iff, orb_false_iff in Hc as [Hlt Hlb].
    rewrite Hlt, Hlb, (IH Hpre). reflexivity.
Qed.

Lemma short_reply_waits_for_the_hard_timeout_witness :
  Framer._handle_pagination 2 Framer.silent_device
  = Some ("", [], Framer.mkScripted 2000 [] [])
  /\ (PyStr.len "" <= 50)%Z
  /\ (1000 * 2 <= Framer.now (Framer.mkScripted 2000 [] [])
                  - Framer.now Framer.silent_device)%Z.
Proof.
  assert (Hrun : Framer._handle_pagination 2 Framer.silent_device
                 = Some ("", [], Framer.mkScripted 2000 [] []))
    by (vm_compute; reflexivity).
  assert (Hshort : (PyStr.len "" <= 50)%Z) by (cbn; lia).
  split; [exact Hrun|]. split; [exact Hshort|].
  exact (short_reply_waits_for_the_hard_timeout 2 Framer.silent_device ""
           [] (Framer.mkScripted 2000 [] []) Hrun Hshort).
Defined.


Lemma prompt_is_seen_anywhere_witness :
  "OK" <> EmptyString
  /\ all_chars Framer.is_word "OK" = true
  /\ Framer.prompt_search "status [OK] for all ports" = true
  /\ Framer.prompt_search "VLAN 10 up <H3C>" = true.
Proof.
  assert (Hne : "OK" <> EmptyString) by discriminate.
  split; [exact Hne|]. split; [reflexivity|].
  destruct (prompt_is_seen_anywhere "status " "OK" " for all ports" Hne)
    as (_ & Hbracket & _).
  split; [apply Hbracket; reflexivity | reflexivity].
Defined.

(* ===================================================================== *)
(** * The command executor *)
(* ===================================================================== *)

Module CommandExecFacts.

Import CommandExec.

Lemma device_commands_cases (device_type : string) :
  In (device_commands device_type COMMAND_MAP)
     [huawei_commands; hp_comware_commands; cisco_ios_commands;
      cisco_nxos_commands; ruijie_os_commands; []].
Proof.
  unfold COMMAND_MAP. cbn [device_commands In].
  repeat match goal with
         | |- context [String.eqb device_type ?k] =>
             destruct (String.eqb device_type k); [tauto|]
         end.
  tauto.
Qed.

Lemma lookup_is_idempotent (table : Dict.t) (c : string) :
  values_are_not_keys table = true ->
  get_or (get_or c (Dict.get c table))
         (Dict.get (get_or c (Dict.get c table)) table)
  = get_or c (Dict.get c table).
Proof.
  intros Hcheck. destruct (Dict.get c table) as [v|] eqn:E; cbn [get_or].
  - apply DeviceTypeFacts.get_some_in in E.
    unfold values_are_not_keys in Hcheck.
    rewrite forallb_forall in Hcheck. specialize (Hcheck _ E). cbn in Hcheck.
    now destruct (Dict.get v table).
  - now rewrite E.
Qed.

(** The two commands that wrap a configuration command are no generic
    names: they are handed to the device as they are. *)
Lemma wrappers_are_not_translated (device_type : string) :
  translate_command device_type "configure terminal" = "configure terminal"
  /\ translate_command device_type "end" = "end".
Proof.
  unfold translate_command.
  pose proof (device_commands_cases device_type) as H. cbn [In] in H.
  repeat (destruct H as [H|H]; [rewrite <- H; split; reflexivity|]).
  destruct H.
Qed.

Lemma filter_filter {A : Type} (p q : A -> bool) (l : list A) :
  filter p (filter q l) = filter (fun x => p x && q x) l.
Proof.
  induction l as [|x l IH]; [reflexivity|].
  cbn [filter]. destruct (q x); cbn [filter]; rewrite ?andb_true_r, ?andb_false_r;
    [destruct (p x)|]; now rewrite IH.
Qed.

Lemma keys_set (k v : string) (d : Dict.t) :
  keys_of (Dict.set k v d)
  = if existsb (String.eqb k) (keys_of d) then keys_of d
    else keys_of d ++ [k].
Proof.
  unfold keys_of. induction d as [|[k' v'] d IH]; [reflexivity|].
  cbn [Dict.set map fst existsb]. destruct (String.eqb k k'); [reflexivity|].
  cbn [map fst orb]. rewrite IH.
  now destruct (existsb (String.eqb k) (map fst d)).
Qed.

Lemma distinct_length (l : list string) : length (distinct l) <= length l.
Proof.
  induction l as [|x l IH]; [reflexivity|].
  cbn [distinct length].
  pose proof (filter_length_le (fun y => negb (String.eqb y x)) (distinct l)).
  lia.
Qed.

Section Run.

Context {W : Type} {connection : Connection W} {console : Rich.Console W}.

Variable device_type : string.

Ltac quiet_console Hq w' :=
  match goal with
  | |- context [Rich.render ?o ?w] =>
      let Hr := fresh "Hr" in
      destruct (Hq o w) as [w' Hr]; rewrite Hr; clear Hr; cbv beta iota
  end.

(** On a quiet console a command is always handed over, and
    [execute_command] returns a text. *)
Lemma execute_command_quiet (cmd : string) (en : bool) (t : Z)
    (ex : option string) (s : State W) :
  Rich.quiet console ->
  exists out s',
    execute_command device_type cmd en t ex s = (Ok out, s')
    /\ handed s' = handed s ++ [translate_command device_type cmd].
Proof.
  intros Hq. unfold execute_command, on_exception, on_console.
  quiet_console Hq w0. cbn [conn command_history handed].
  destruct (send_command _ _ _ w0) as [[out|e] w1].
  - destruct (record_datetime w1) as [[stamp|e] w2].
    + eexists. eexists. split; reflexivity.
    + cbn [conn command_history handed]. quiet_console Hq w3.
      eexists. eexists. split; reflexivity.
  - cbn [conn command_history handed]. quiet_console Hq w2.
    eexists. eexists. split; reflexivity.
Qed.

Lemma run_command_quiet (cmd : string) (en : bool) (s : State W) :
  Rich.quiet console ->
  exists out s',
    run_command device_type cmd en s = (Ok out, s')
    /\ handed s' = handed s ++ handed_for device_type cmd.
Proof.
  intros Hq. unfold run_command, handed_for. destruct (is_config cmd).
  - destruct (execute_command_quiet "configure terminal" true 30 None s Hq)
      as (o1 & s1 & -> & H1).
    destruct (execute_command_quiet cmd true 30 None s1 Hq)
      as (o2 & s2 & -> & H2).
    destruct (execute_command_quiet "end" true 30 None s2 Hq)
      as (o3 & s3 & -> & H3).
    exists o2, s3. split; [reflexivity|].
    destruct (wrappers_are_not_translated device_type) as [Hct Hend].
    rewrite H3, H2, H1, Hct, Hend, <- !app_assoc. reflexivity.
  - apply execute_command_quiet, Hq.
Qed.

Lemma execute_commands_from_quiet (cmds : list string) (idx count : nat)
    (en : bool) (results : Dict.t) (s : State W) :
  Rich.quiet console ->
  exists res s',
    execute_commands_from device_type cmds idx count en results s
    = (Ok res, s')
    /\ handed s' = handed s ++ flat_map (handed_for device_type) cmds.
Proof.
  intros Hq. revert idx results s.
  induction cmds as [|c cmds IH]; intros idx results s.
  - exists results, s. cbn. now rewrite app_nil_r.
  - cbn [execute_commands_from]. unfold on_console.
    quiet_console Hq w0.
    destruct (run_command_quiet c en
                (mkState w0 (command_history s) (handed s)) Hq)
      as (out & s1 & -> & Hh).
    destruct (IH (S idx) (Dict.set c out results) s1)
      as (res & s' & -> & Hh').
    exists res, s'. split; [reflexivity|].
    rewrite Hh', Hh. cbn [handed flat_map]. now rewrite <- app_assoc.
Qed.

(** The keys of the dict, whenever the loop returns one. *)
Lemma execute_commands_from_keys (cmds : list string) (idx count : nat)
    (en : bool) (results res : Dict.t) (s s' : State W) :
  execute_commands_from device_type cmds idx count en results s
  = (Ok res, s') ->
  keys_of res
  = keys_of results
    ++ filter (fun c => negb (existsb (String.eqb c) (keys_of results)))
              (distinct cmds).
Proof.
  revert idx results s. induction cmds as [|c cmds IH]; intros idx results s.
  - cbn. intros [= <- _]. now rewrite app_nil_r.
  - cbn [execute_commands_from]. intros H.
    destruct (on_console _ s) as [[u|e] s0]; [|discriminate].
    destruct (run_command device_type c en s0) as [[out|e] s1];
      [|discriminate].
    rewrite (IH _ _ _ H), keys_set. cbn [distinct filter].
    destruct (existsb (String.eqb c) (keys_of results)) eqn:Hin; cbn [negb].
    + f_equal. rewrite filter_filter. apply filter_ext_in.
      intros y _. destruct (String.eqb y c) eqn:E; cbn [negb].
      * apply String.eqb_eq in E. subst y. rewrite Hin. reflexivity.
      * now rewrite andb_true_r.
    + rewrite <- app_assoc. cbn [app]. f_equal. f_equal.
      rewrite filter_filter. apply filter_ext_in.
      intros y _. rewrite existsb_app. cbn [existsb].
      rewrite orb_false_r, negb_orb. reflexivity.
Qed.

Lemma execute_commands_keys (cmds : list string) (en : bool)
    (res : Dict.t) (s s' : State W) :
  execute_commands device_type cmds en s = (Ok res, s') ->
  keys_of res = distinct cmds.
Proof.
  unfold execute_commands. intros H.
  destruct (on_console _ s) as [[u|e] s0]; [|discriminate].
  apply execute_commands_from_keys in H.
  cbn [keys_of map app existsb negb] in H.
  assert (Hall : forall l : list string,
            filter (fun _ : string => true) l = l).
  { induction l as [|x l IH]; cbn; [reflexivity|]. now rewrite IH. }
  now rewrite Hall in H.
Qed.

Lemma execute_commands_quiet (cmds : list string) (en : bool) (s : State W) :
  Rich.quiet console ->
  exists res s',
    execute_commands device_type cmds en s = (Ok res, s')
    /\ handed s' = handed s ++ flat_map (handed_for device_type) cmds.
Proof.
  intros Hq. unfold execute_commands, on_console.
  quiet_console Hq w0.
  destruct (execute_commands_from_quiet cmds 1 (length cmds) en []
              (mkState w0 (command_history s) (handed s)) Hq)
    as (res & s' & -> & Hh).
  now exists res, s'.
Qed.

End Run.

End CommandExecFacts.

(** X19. [translate_command] is idempotent: a generic name is replaced by
    the vendor's command, and a vendor's command, like any text that is no
    generic name, passes through as it is, so translating twice is
    translating once. *)
Theorem translate_command_is_idempotent (device_type cmd : string) :
  CommandExec.translate_command device_type
    (CommandExec.translate_command device_type cmd)
  = CommandExec.translate_command device_type cmd.
Proof.
  unfold CommandExec.translate_command.
  pose proof (CommandExecFacts.device_commands_cases device_type) as H.
  cbn [In] in H.
  repeat (destruct H as [H|H];
          [rewrite <- H;
           apply CommandExecFacts.lookup_is_idempotent; reflexivity|]).
  destruct H.
Qed.

Section CommandExecClaims.

Import CommandExec.

Context {W : Type} {connection : Connection W} {console : Rich.Console W}.

(** X20. On a console that renders whatever it is given,
    [CommandExecutor.execute_commands] hands every command of its list to
    the device, in order, whatever the device fails on the way: a command
    that starts with [conf] goes between [configure terminal] and [end], any
    other command goes alone, each after translation. *)
Theorem every_command_is_handed_over (device_type : string)
    (cmds : list string) (enable_mode : bool) (s : State W) :
  Rich.quiet console ->
  exists results s',
    execute_commands device_type cmds enable_mode s = (Ok results, s')
    /\ handed s' = handed s ++ flat_map (handed_for device_type) cmds.
Proof.
  intros Hq. now apply CommandExecFacts.execute_commands_quiet.
Qed.

(** X21. Whenever [CommandExecutor.execute_commands] returns its dict, the
    dict has one entry per distinct command, in the order of first
    occurrence: a command given twice has one entry, so there are at most as
    many entries as commands. On a console that renders whatever it is
    given it does return a dict. *)
Theorem one_entry_per_distinct_command (device_type : string)
    (cmds : list string) (enable_mode : bool) (s : State W) :
  (forall results s',
     execute_commands device_type cmds enable_mode s = (Ok results, s') ->
     keys_of results = distinct cmds /\ length results <= length cmds)
  /\ (Rich.quiet console ->
      exists results s',
        execute_commands device_type cmds enable_mode s = (Ok results, s')).
Proof.
  split.
  - intros results s' H.
    pose proof (CommandExecFacts.execute_commands_keys device_type cmds
                  enable_mode results s s' H) as Hk.
    split; [exact Hk|].
    apply (f_equal (@length _)) in Hk. unfold keys_of in Hk.
    rewrite length_map in Hk. rewrite Hk.
    apply CommandExecFacts.distinct_length.
  - intros Hq.
    destruct (CommandExecFacts.execute_commands_quiet device_type cmds
                enable_mode s Hq) as (results & s' & H & _).
    now exists results, s'.
Qed.

(** X22. On a console that renders whatever it is given, a batch that runs
    [command_execute_operation] reports [success] for every device it can
    connect to and disconnect from, whatever the device did with the
    commands: the executor turns each failure of the device into the text of
    the command's output, so the batch sees no exception. *)
Theorem command_batch_reports_success {Conn : Type}
    (connect : string -> Batch.DeviceInfo -> W -> Outcome Conn * W)
    (device_type_of : Conn -> string)
    (close : Conn -> W -> Outcome unit * W)
    (clock : W -> W -> string)
    (cmds : list string) (d : Batch.DeviceInfo) (name h : string)
    (c : Conn) (w : W) :
  Rich.quiet console ->
  Batch.host d = Some h ->
  (forall w0, exists w1, connect h d w0 = (Ok c, w1)) ->
  (forall w2, exists w3, close c w2 = (Ok tt, w3)) ->
  exists r w',
    Batch.execute_on_device
      (network := command_network connect device_type_of close clock cmds)
      (Batch.Mapping d) name w
    = (Ok r, w')
    /\ Batch.status r = "success"
    /\ exists results,
        Batch.data r = Some results /\ keys_of results = distinct cmds.
Proof.
  intros Hq Hhost Hconnect Hclose.
  unfold Batch.execute_on_device, Batch.attempt, Batch.connect_device,
    Rich.console_print.
  rewrite Hhost.
  cbn [Batch.ConnectHandler Batch.operation Batch.disconnect command_network].
  destruct (Hq (Rich.Markup ("[cyan]连接到 " ++ Batch.label d
                             ++ "...[/cyan]")%string) w) as [w0 ->].
  destruct (Hconnect w0) as [w1 ->].
  destruct (Hq (Rich.Markup ("[green]✓ 已连接，执行" ++ name
                             ++ "...[/green]")%string) w1) as [w2 ->].
  unfold command_execute_operation.
  destruct (CommandExecFacts.execute_commands_quiet (device_type_of c) cmds
              false (mkState w2 [] []) Hq) as (results & s' & Hrun & _).
  rewrite Hrun.
  destruct (Hclose (conn s')) as [w3 ->].
  destruct (Hq (Rich.Markup ("[green]✓ " ++ Batch.label d ++ " " ++ name
                             ++ "完成[/green]")%string) w3) as [w4 ->].
  eexists. eexists. split; [reflexivity|]. cbn.
  split; [reflexivity|]. exists results. split; [reflexivity|].
  eapply CommandExecFacts.execute_commands_keys; eassumption.
Qed.

(** X26. A command whose echo the console refuses, and the failure line
    of that refusal with it, is never handed to the device: the exception
    leaves [execute_command], and [execute_commands] over a list that holds
    the command raises too and returns no dict. *)
Theorem refused_echo_is_never_handed_over (device_type cmd : string) :
  unprintable (translate_command device_type cmd) ->
  (forall enable_mode read_timeout expect_string s,
     exists e s',
       execute_command device_type cmd enable_mode read_timeout
         expect_string s
       = (Raise e, s')
       /\ handed s' = handed s)
  /\ (forall cmds enable_mode s,
        In cmd cmds ->
        exists e s',
          execute_commands device_type cmds enable_mode s = (Raise e, s')).
Proof.
  intros Hbad.
  assert (Hone : forall en t ex s,
             exists e s',
               execute_command device_type cmd en t ex s = (Raise e, s')
               /\ handed s' = handed s).
  { intros en t ex s. unfold execute_command, on_exception, on_console.
    destruct (Hbad (conn s)) as (e & w1 & -> & Hline).
    cbn [conn command_history handed].
    destruct (Hline w1) as (e' & w2 & ->).
    eexists. eexists. split; reflexivity. }
  split; [exact Hone|].
  intros cmds en s Hin. unfold execute_commands.
  destruct (on_console _ s) as [[u|e] s0]; [|now exists e, s0].
  generalize 1 (length cmds) (@nil (string * string)) s0.
  clear s s0. induction cmds as [|c cmds IH]; intros idx count results s;
    [destruct Hin|].
  cbn [execute_commands_from].
  destruct (on_console _ s) as [[u'|e] s0]; [|now exists e, s0].
  destruct (run_command device_type c en s0) as [[out|e] s1] eqn:Hrun;
    [|now exists e, s1].
  destruct Hin as [-> | Hin]; [|now apply IH].
  exfalso. unfold run_command in Hrun. destruct (is_config cmd).
  - destruct (execute_command device_type "configure terminal" true 30 None
                s0) as [[o1|e1] s2]; [|discriminate].
    destruct (Hone true 30%Z None s2) as (e2 & s3 & Hraise & _).
    rewrite Hraise in Hrun. discriminate.
  - destruct (Hone en 30%Z None s0) as (e2 & s3 & Hraise & _).
    rewrite Hraise in Hrun. discriminate.
Qed.

End CommandExecClaims.

Lemma every_command_is_handed_over_witness :
  Rich.quiet (@Rich.plain_console nat)
  /\ exists results s',
      CommandExec.execute_commands (connection := CommandExec.lab_connection)
        (console := Rich.plain_console) "cisco_ios"
        ["show_version"; "config bad"; "display vlan"] false
        (CommandExec.mkState 0 [] [])
      = (Ok results, s')
      /\ CommandExec.handed s'
         = ["show version"; "configure terminal"; "config bad"; "end";
            "display vlan"].
Proof.
  split; [apply quiet_plain_console|].
  destruct (every_command_is_handed_over
              (connection := CommandExec.lab_connection)
              (console := Rich.plain_console) "cisco_ios"
              ["show_version"; "config bad"; "display vlan"] false
              (CommandExec.mkState 0 [] []) (quiet_plain_console nat))
    as (results & s' & Hrun & Hh).
  exists results, s'. split; [exact Hrun|]. rewrite Hh. reflexivity.
Defined.

Lemma one_entry_per_distinct_command_witness :
  exists results s',
    CommandExec.execute_commands (connection := CommandExec.lab_connection)
      (console := Rich.plain_console) "cisco_ios"
      ["show_vlan"; "bad one"; "show_vlan"] false
      (CommandExec.mkState 0 [] [])
    = (Ok results, s')
    /\ keys_of results = ["show_vlan"; "bad one"]
    /\ CommandExec.conn s' = 3.
Proof.
  destruct (one_entry_per_distinct_command
              (connection := CommandExec.lab_connection)
              (console := Rich.plain_console) "cisco_ios"
              ["show_vlan"; "bad one"; "show_vlan"] false
              (CommandExec.mkState 0 [] []))
    as [Hkeys Hreturns].
  destruct (Hreturns (quiet_plain_console nat)) as (results & s' & Hrun).
  exists results, s'. split; [exact Hrun|].
  destruct (Hkeys results s' Hrun) as [Hk _]. split; [exact Hk|].
  vm_compute in Hrun. injection Hrun as _ <-. reflexivity.
Defined.

Lemma command_batch_reports_success_witness :
  Rich.quiet (@Rich.plain_console nat)
  /\ Batch.host (Batch.mkDeviceInfo (Some "core") None) = Some "core"
  /\ exists r w',
      Batch.execute_on_device
        (network := command_network
                      (connection := CommandExec.lab_connection)
                      (console := Rich.plain_console)
                      lab_connect (fun c => c) lab_close lab_clock
                      ["bad one"; "bad two"])
        (console := Rich.plain_console)
        (Batch.Mapping (Batch.mkDeviceInfo (Some "core") None)) "commands" 0
      = (Ok r, w')
      /\ Batch.status r = "success"
      /\ Batch.data r
         = Some [("bad one", "命令执行失败: refused");
                 ("bad two", "命令执行失败: refused")].
Proof.
  split; [apply quiet_plain_console|]. split; [reflexivity|].
  destruct (command_batch_reports_success
              (connection := CommandExec.lab_connection)
              (console := Rich.plain_console)
              lab_connect (fun c => c) lab_close lab_clock
              ["bad one"; "bad two"]
              (Batch.mkDeviceInfo (Some "core") None) "commands" "core"
              "cisco_ios" 0 (quiet_plain_console nat) eq_refl
              (fun w0 => ex_intro _ w0 eq_refl)
              (fun w2 => ex_intro _ w2 eq_refl))
    as (r & w' & Hrun & Hst & _).
  exists r, w'. split; [exact Hrun|]. split; [exact Hst|].
  vm_compute in Hrun. injection Hrun as <- _. reflexivity.
Defined.

Lemma refused_echo_is_never_handed_over_witness :
  unprintable (console := @Rich.strict_console nat)
    (CommandExec.translate_command "huawei" "display [/x] y")
  /\ exists e s',
      CommandExec.execute_commands (connection := CommandExec.lab_connection)
        (console := Rich.strict_console) "huawei"
        ["display vlan"; "display [/x] y"; "display arp"] false
        (CommandExec.mkState 0 [] [])
      = (Raise e, s')
      /\ CommandExec.handed s' = ["display vlan"].
Proof.
  assert (Hbad : unprintable (console := @Rich.strict_console nat)
                   (CommandExec.translate_command "huawei" "display [/x] y")).
  { intros w. exists "closing tag '[/x]' doesn't match any open tag", w.
    split; [reflexivity|].
    intros w2. exists "closing tag '[/x]' doesn't match any open tag", w2.
    reflexivity. }
  split; [exact Hbad|].
  destruct (refused_echo_is_never_handed_over
              (connection := CommandExec.lab_connection)
              (console := Rich.strict_console) "huawei" "display [/x] y" Hbad)
    as [_ Hlist].
  destruct (Hlist ["display vlan"; "display [/x] y"; "display arp"] false
              (CommandExec.mkState 0 [] [])
              (or_intror (or_introl eq_refl)))
    as (e & s' & Hrun).
  exists e, s'. split; [exact Hrun|].
  vm_compute in Hrun. injection Hrun as _ <-. reflexivity.
Defined.

(* ===================================================================== *)
(** * The command line *)
(* ===================================================================== *)

Section CliFacts.

Import Cli.

Context {W : Type} {session : Session W} {loader : Loader W}.


(** X24. Run with a task file, [main] exits with status 0 exactly when the
    file loads and every step of the task completes. *)
Theorem task_mode_exit_status (args : Args) (c : ascii) (path : string)
    (w : W) :
  arg_task args = Some (String c path) ->
  fst (main true args w) = 0%Z
  <-> exists task w1 rs s,
      load_task (String c path) w = (Ok task, w1)
      /\ Completes (get_or [] (steps task)) (initial_state task w1) rs s.
Proof.
  intros Htask. unfold main. cbn [negb]. rewrite Htask.
  destruct (load_task (String c path) w) as [[task|e] w1] eqn:Hload.
  - pose proof (run_steps_cases (get_or [] (steps task)) (initial_result task)
                  (initial_state task w1)) as H.
    unfold execute_task.
    destruct (run_steps (get_or [] (steps task)) (initial_result task)
                (initial_state task w1)) as [[r exc] s'] eqn:Hrun.
    destruct H as [(rs & Hc & -> & ->)
                  | (done & failed & rest & rs & s1 & Htodo & Hc & Hend)].
    + cbn. rewrite (completes_length _ _ _ _ Hc), Nat.eqb_refl. cbn.
      split; [|reflexivity]. intros _. now exists task, w1, rs, s'.
    + assert (Hfail : (if success
                            (fst (match exc with
                                  | None =>
                                      (mkTaskResult (task_name r)
                                         (Nat.eqb (steps_completed r)
                                                  (steps_total r))
                                         (steps_completed r) (steps_total r)
                                         (results r) (error r), s')
                                  | Some e0 =>
                                      (mkTaskResult (task_name r) (success r)
                                         (steps_completed r) (steps_total r)
                                         (results r) (Some e0), s')
                                  end))
                       then 0 else 1)%Z = 1%Z).
      { assert (Hneq : Nat.eqb (length done)
                                (length (done ++ failed :: rest)) = false).
        { apply Nat.eqb_neq. rewrite length_app. cbn. lia. }
        destruct Hend as [(fr & s2 & _ & _ & -> & _) | (e & _ & -> & ->)].
        - destruct exc; cbn; [reflexivity|].
          rewrite Htodo, (completes_length done _ s1 rs Hc), Hneq.
          reflexivity.
        - reflexivity. }
      assert (Hno : ~ exists rs' s'',
                 Completes (get_or [] (steps task)) (initial_state task w1)
                           rs' s'').
      { intros (rs' & s'' & Hc').
        pose proof (run_steps_completes _ [] _ _ _ (initial_result task) Hc')
          as Hfull.
        rewrite app_nil_r, Hrun in Hfull. cbn in Hfull.
        injection Hfull as Hr Hexc _. subst r exc.
        destruct Hend as [(fr & s2 & _ & _ & Heq & _) | (e & _ & _ & [=])].
        apply (f_equal steps_completed) in Heq. cbn in Heq.
        pose proof (completes_length _ _ _ _ Hc') as Hl1.
        pose proof (completes_length _ _ _ _ Hc) as Hl2.
        rewrite Htodo, length_app in Hl1. cbn in Hl1. lia. }
      destruct exc; cbn in Hfail |- *; rewrite Hfail;
        (split; [discriminate|]);
        intros (task' & w1' & rs' & s'' & [= <- <-] & Hc');
        exfalso; apply Hno; eauto.
  - cbn. split; [discriminate|]. now intros (task & w2 & rs & s & [=] & _).
Qed.

End CliFacts.


Lemma task_mode_exit_status_witness :
  Cli.arg_task (Cli.mkArgs (Some "task.json") None 30 false false)
  = Some "task.json"
  /\ fst (Cli.main (session := lab_session) (loader := Cli.lab_loader) true
            (Cli.mkArgs (Some "task.json") None 30 false false) [])
     = 0%Z.
Proof.
  split; [reflexivity|].
  apply (proj2 (task_mode_exit_status (session := lab_session)
                  (loader := Cli.lab_loader)
                  (Cli.mkArgs (Some "task.json") None 30 false false)
                  "t" "ask.json" [] eq_refl)).
  exists Bench.loop_task, [].
  eexists. eexists. split; [reflexivity|].
  repeat (eapply Completes_cons; [vm_compute; reflexivity | reflexivity |]).
  apply Completes_nil.
Defined.
